(** * TrendGen: cache, trend aggregation, idea parsing, content rendering
      and pipeline orchestration

    A shallow embedding of the TypeScript sources
      - [lib/cache.ts]      (CacheManager)
      - [lib/trends.ts]     (analyzeTrends, parsePostIdeasFromResponse,
                             getFallbackPostIdeas)
      - [lib/content.ts]    (generatePlatformContent, cleanupGeneratedContent,
                             getFallbackContent)
      - [lib/image.ts]      (saveCurrentPost)
      - [lib/keywords.ts]   (generateKeywords, parseKeywordsFromResponse)
      - [lib/logger.ts]     (Logger)
      - [lib/pipeline.ts]   (runPipeline, the variant that resets
                             [current_post])
      - [lib/sources/google.ts] (getAutocompleteSuggestions)
    the properties of them that the specification states, and further
    properties read off the code.

    Conventions.
      - A JavaScript string is the list of its UTF-16 code units ([jstr]);
        [.length] is [length].
      - [Date.now()] is an integer number of milliseconds ([Z]).
      - A Number is the binary64 value it is ([Number.t]): number literals
        and the results of arithmetic are rounded to nearest, ties to even.
      - A value whose type the code does not check (a field of a language
        model reply) is a [JsValue]; the conversions the code applies to it
        are those of the language.
      - A promise that settles is the [Result] it settles with; [await] of a
        rejected promise throws its reason.
      - Everything outside the repository (the file system, the language
        model endpoint, the image endpoint, [Math.random]) is an oracle of the
        environment record [Env], indexed by the number of external calls
        made so far. *)

From Stdlib Require Import ZArith QArith Qcanon Lia.
From stdpp Require Import base option list sorting gmap strings pretty.

Set Default Proof Using "Type".
Set Warnings "-register-all".
Local Open Scope Z_scope.

(* ===================================================================== *)
(** * JavaScript strings                                                  *)
(* ===================================================================== *)

(** One UTF-16 code unit. *)
Abbreviation jchar := N (only parsing).
Abbreviation jstr := (list N) (only parsing).

(** An ASCII literal of the source as a list of code units. *)
Fixpoint lit (s : string) : jstr :=
  match s with
  | EmptyString => []
  | String a s' => Ascii.N_of_ascii a :: lit s'
  end.

(** The same, with every apostrophe standing for a double quote
    (code unit 34), to write JSON text. *)
Definition qlit (s : string) : jstr :=
  (λ c, if (c =? 39)%N then 34%N else c) <$> lit s.

Module Str.

(** [String.prototype.startsWith]. *)
Fixpoint startsWith (s p : jstr) {struct p} : bool :=
  match p with
  | [] => true
  | a :: p' =>
      match s with
      | [] => false
      | b :: s' => (a =? b)%N && startsWith s' p'
      end
  end.

(** [String.prototype.endsWith]. *)
Definition endsWith (s p : jstr) : bool :=
  startsWith (reverse s) (reverse p).

(** [String.prototype.substring(a, b)] for non-negative arguments: the
    arguments are swapped when [a > b], and clamped to the length. *)
Definition substring (a b : nat) (s : jstr) : jstr :=
  take (Nat.max a b - Nat.min a b) (drop (Nat.min a b) s).

(** [String.prototype.substring(a)]. *)
Definition substring_from (a : nat) (s : jstr) : jstr := drop a s.

(** White space and line terminators removed by [trim]. *)
Definition is_white (c : jchar) : bool :=
  ((c =? 9) || (c =? 10) || (c =? 11) || (c =? 12) || (c =? 13) ||
   (c =? 32) || (c =? 160) || (c =? 5760) ||
   ((8192 <=? c) && (c <=? 8202)) ||
   (c =? 8232) || (c =? 8233) || (c =? 8239) || (c =? 8287) ||
   (c =? 12288) || (c =? 65279))%N.

Fixpoint trimStart (s : jstr) : jstr :=
  match s with
  | c :: s' => if is_white c then trimStart s' else s
  | [] => []
  end.

Definition trimEnd (s : jstr) : jstr := reverse (trimStart (reverse s)).

(** [String.prototype.trim]. *)
Definition trim (s : jstr) : jstr := trimEnd (trimStart s).

(** [String.prototype.toLowerCase] on the ASCII letters.  The full
    Unicode mapping differs only on code units above 127.  It is used in
    [cleanupGeneratedContent] to compare the start of a text with five
    ASCII patterns; the two code units above 127 whose lower case starts
    with an ASCII letter (U+212A gives k, U+0130 gives i and U+0307) cannot
    take part in a match with any of the five. *)
Definition lower (c : jchar) : jchar :=
  if ((65 <=? c) && (c <=? 90))%N then (c + 32)%N else c.
Definition toLowerCase (s : jstr) : jstr := lower <$> s.

(** The last index at which [needle] occurs in [s]. *)
Fixpoint last_match (needle s : jstr) : option nat :=
  match s with
  | [] => if needle is [] then Some 0%nat else None
  | _ :: s' =>
      match last_match needle s' with
      | Some i => Some (S i)
      | None => if startsWith s needle then Some 0%nat else None
      end
  end.

(** The first index at which [needle] occurs in [s]. *)
Fixpoint first_match (needle s : jstr) : option nat :=
  if startsWith s needle then Some 0%nat
  else match s with
       | [] => None
       | _ :: s' => S <$> first_match needle s'
       end.

Definition index_result (o : option nat) : Z :=
  match o with Some i => Z.of_nat i | None => -1 end.

(** [s.lastIndexOf(needle)]. *)
Definition lastIndexOf (s needle : jstr) : Z :=
  index_result (last_match needle s).

(** [s.lastIndexOf(needle, from)]: the last occurrence that starts at
    an index not above [from]. *)
Definition lastIndexOf_from (s needle : jstr) (from : nat) : Z :=
  index_result (last_match needle (take (from + length needle) s)).

(** [s.indexOf(needle)]. *)
Definition indexOf (s needle : jstr) : Z :=
  index_result (first_match needle s).

(** [s.includes(needle)]. *)
Definition includes (s needle : jstr) : bool :=
  bool_decide (is_Some (first_match needle s)).

(** [parts.join(sep)]. *)
Fixpoint join (sep : jstr) (parts : list jstr) : jstr :=
  match parts with
  | [] => []
  | [p] => p
  | p :: rest => p ++ sep ++ join sep rest
  end.

(** [s.split(sep)] for a separator of one code unit. *)
Fixpoint split (sep : jchar) (s : jstr) : list jstr :=
  match s with
  | [] => [[]]
  | c :: s' =>
      if (c =? sep)%N then [] :: split sep s'
      else match split sep s' with
           | first :: rest => (c :: first) :: rest
           | [] => [[c]]
           end
  end.

(** The decimal numeral of a natural number, as in a template literal. *)
Definition of_nat (n : nat) : jstr := lit (pretty n).

(** Comparison of strings by code units, the order of [Array.prototype.sort]
    without a comparator and of the relational operators on strings. *)
Fixpoint leb (a b : jstr) : bool :=
  match a, b with
  | [], _ => true
  | _ :: _, [] => false
  | x :: a', y :: b' => (x <? y)%N || ((x =? y)%N && leb a' b')
  end.

End Str.

(* ===================================================================== *)
(** * Array.prototype.sort                                                *)
(* ===================================================================== *)

(** [Array.prototype.sort] is a stable sort.  For a comparator that is a
    consistent ordering, the stable sorted arrangement is unique; it is
    computed here by insertion from the right end.  [le a b] stands for
    "the comparator does not put [a] after [b]", that is
    [comparefn(a, b) <= 0]. *)
Section js_sort.
Context {A : Type} (le : A → A → bool).

Fixpoint sort_insert (x : A) (l : list A) : list A :=
  match l with
  | [] => [x]
  | y :: l' => if le x y then x :: l else y :: sort_insert x l'
  end.

Fixpoint js_sort (l : list A) : list A :=
  match l with
  | [] => []
  | x :: l' => sort_insert x (js_sort l')
  end.
End js_sort.

(* ===================================================================== *)
(** * Numbers                                                             *)
(* ===================================================================== *)

(** The Number type is the set of IEEE 754 binary64 values.  [Number.t]
    holds the values other than NaN, each finite one as the rational it
    is; an operation that can give NaN returns an [option], [None] being
    NaN.  The sign of zero is dropped: the code modelled here never
    divides, and nothing else tells the two zeros apart. *)
Module Number.

Inductive t :=
| Finite (q : Q)
| Infinity (negative : bool).

Definition pow2 (e : Z) : Q :=
  if 0 <=? e then inject_Z (2 ^ e) else Qinv (inject_Z (2 ^ (- e))).

(** The integer [e] with [2^e <= q < 2^(e+1)], for [q > 0]. *)
Definition ilog2 (q : Q) : Z :=
  let e := Z.log2 (Qnum q) - Z.log2 (Z.pos (Qden q)) in
  if Qle_bool (pow2 e) q then e else e - 1.

(** The integer nearest to [q >= 0], the even one of two equally near. *)
Definition nearest_even (q : Q) : Z :=
  let n := Qnum q in
  let d := Z.pos (Qden q) in
  let f := n / d in
  let r := 2 * (n mod d) in
  if r <? d then f
  else if d <? r then f + 1
  else if Z.even f then f else f + 1.

(** Rounding of [q > 0] to 53 significant bits, or to a multiple of
    [2^-1074] below the normal range; [Infinity] from [2^1024] on. *)
Definition round_positive (q : Q) : t :=
  let e := ilog2 q in
  let s := Z.max (e - 52) (-1074) in
  let m := nearest_even (q / pow2 s) in
  let r := Qred (inject_Z m * pow2 s) in
  if Qle_bool (pow2 1024) r then Infinity false else Finite r.

Definition opp (x : t) : t :=
  match x with
  | Finite q => Finite (- q)
  | Infinity negative => Infinity (negb negative)
  end.

(** "The Number value for" a real number: round to nearest, ties to
    even. *)
Definition round (q : Q) : t :=
  match Qnum q with
  | 0 => Finite 0
  | Z.pos _ => round_positive q
  | Z.neg _ => opp (round_positive (- q))
  end.

Definition of_Z (z : Z) : t := round (inject_Z z).

Definition is_zero (x : t) : bool :=
  match x with Finite q => Qeq_bool q 0 | Infinity _ => false end.

(** [x < y] and [x <= y]. *)
Definition ltb (x y : t) : bool :=
  match x, y with
  | Finite a, Finite b => negb (Qle_bool b a)
  | Finite _, Infinity negative => negb negative
  | Infinity negative, Finite _ => negative
  | Infinity n1, Infinity n2 => n1 && negb n2
  end.

Definition leb (x y : t) : bool := negb (ltb y x).

(** [x + y] and [x * y]; [None] is NaN. *)
Definition add (x y : t) : option t :=
  match x, y with
  | Finite a, Finite b => Some (round (a + b))
  | Finite _, Infinity n | Infinity n, Finite _ => Some (Infinity n)
  | Infinity n1, Infinity n2 =>
      if Bool.eqb n1 n2 then Some (Infinity n1) else None
  end.

Definition mul (x y : t) : option t :=
  match x, y with
  | Finite a, Finite b => Some (round (a * b))
  | Finite a, Infinity n | Infinity n, Finite a =>
      if Qeq_bool a 0 then None
      else Some (Infinity (xorb n (negb (Qle_bool 0 a))))
  | Infinity n1, Infinity n2 => Some (Infinity (xorb n1 n2))
  end.

(** The real number [m * 10^e]. *)
Definition decimal (m e : Z) : Q :=
  if 0 <=? e then inject_Z (m * 10 ^ e)
  else Qmake m (Z.to_pos (10 ^ (- e))).

(** ** StringToNumber *)

Definition digit_value (c : jchar) : option N :=
  if ((48 <=? c) && (c <=? 57))%N then Some (c - 48)%N
  else if ((97 <=? c) && (c <=? 102))%N then Some (c - 87)%N
  else if ((65 <=? c) && (c <=? 70))%N then Some (c - 55)%N
  else None.

(** The digits of the given base at the start of [s], and what follows
    them. *)
Fixpoint read_digits (base : N) (s : jstr) : list N * jstr :=
  match s with
  | [] => ([], [])
  | c :: s' =>
      match digit_value c with
      | Some v =>
          if (v <? base)%N
          then let '(ds, rest) := read_digits base s' in (v :: ds, rest)
          else ([], s)
      | None => ([], s)
      end
  end.

Definition digits_value (base : N) (ds : list N) : Z :=
  foldl (λ acc d, acc * Z.of_N base + Z.of_N d) 0 ds.

(** ExponentPart, optional, up to the end of the text: the exponent. *)
Definition exponent_part (s : jstr) : option Z :=
  match s with
  | [] => Some 0
  | c :: s' =>
      if ((c =? 101) || (c =? 69))%N then
        let '(negative, s'') :=
          match s' with
          | 43%N :: r => (false, r)
          | 45%N :: r => (true, r)
          | _ => (false, s')
          end in
        match read_digits 10 s'' with
        | (d :: ds, []) =>
            let e := digits_value 10 (d :: ds) in
            Some (if negative then - e else e)
        | _ => None
        end
      else None
  end.

(** StrUnsignedDecimalLiteral. *)
Definition unsigned_decimal (s : jstr) : option t :=
  if bool_decide (s = lit "Infinity") then Some (Infinity false)
  else
    let '(int_digits, rest) := read_digits 10 s in
    let '(frac_digits, rest) :=
      match rest with
      | 46%N :: r => read_digits 10 r
      | _ => ([], rest)
      end in
    if bool_decide (int_digits = []) && bool_decide (frac_digits = [])
    then None
    else
      e ← exponent_part rest;
      Some (round (decimal (digits_value 10 (int_digits ++ frac_digits))
                     (e - Z.of_nat (length frac_digits)))).

(** NonDecimalIntegerLiteral: [0x], [0o] or [0b] and digits of that
    base. *)
Definition non_decimal (s : jstr) : option t :=
  match s with
  | 48%N :: c :: s' =>
      base ← (if ((c =? 120) || (c =? 88))%N then Some 16%N
              else if ((c =? 111) || (c =? 79))%N then Some 8%N
              else if ((c =? 98) || (c =? 66))%N then Some 2%N
              else None);
      match read_digits base s' with
      | (d :: ds, []) => Some (round (inject_Z (digits_value base (d :: ds))))
      | _ => None
      end
  | _ => None
  end.

(** [StringToNumber(s)]; [None] is NaN. *)
Definition of_string (s : jstr) : option t :=
  match Str.trim s with
  | [] => Some (Finite 0)
  | 43%N :: r => unsigned_decimal r
  | 45%N :: r => opp <$> unsigned_decimal r
  | text =>
      match non_decimal text with
      | Some x => Some x
      | None => unsigned_decimal text
      end
  end.

End Number.

(* ===================================================================== *)
(** * lib/cache.ts                                                        *)
(* ===================================================================== *)

(** [get] and [set] as they are written: [ttlSeconds] is any Number, NaN
    included ([None]), and [expires] is the Number, or NaN, that
    [Date.now() + (ttlSeconds * 1000)] evaluates to in floating point.
    [Date.now()] is an integral number of milliseconds. *)
Module CacheManagerNumber.
Section cache.
Context {V : Type} (null : V).

Record Entry := { data : V; expires : option Number.t }.

Abbreviation Store := (gmap (list N) Entry).

(** [Date.now() + (ttlSeconds * 1000)]. *)
Definition expiry (now : Z) (ttlSeconds : option Number.t)
    : option Number.t :=
  ms ← (ttl ← ttlSeconds; Number.mul ttl (Number.Finite 1000));
  Number.add (Number.of_Z now) ms.

(** [expires > Date.now()]; a comparison with NaN is false. *)
Definition later (expires : option Number.t) (now : Z) : bool :=
  match expires with
  | Some e => Number.ltb (Number.of_Z now) e
  | None => false
  end.

Definition get (now : Z) (key : jstr) (cache : Store) : V * Store :=
  match cache !! key with
  | Some cached =>
      if later (expires cached) now then (data cached, cache)
      else (null, delete key cache)
  | None => (null, cache)
  end.

Definition set (now : Z) (key : jstr) (d : V) (ttlSeconds : option Number.t)
    (cache : Store) : Store :=
  let expires := expiry now ttlSeconds in
  <[key := {| data := d; expires := expires |}]> cache.
End cache.
End CacheManagerNumber.

(** The cache for a time-to-live of whole seconds, which is what every
    call of the repository passes ([2 * 60 * 60], [4 * 60 * 60], the
    [cacheTTL] of the adapters): the sum is then an integer, and exact
    while it stays below [2^53]. *)
Module CacheManager.
Section cache.
(** The cached payload is [any]; [null] is the value [get] returns for an
    absent key. *)
Context {V : Type} (null : V).

Record Entry := { data : V; expires : Z }.

(** The private [Map<string, { data, expires }>]. *)
Abbreviation Store := (gmap (list N) Entry).

(** [get(key)], run when [Date.now()] reads [now]: the value returned and
    the map afterwards. *)
Definition get (now : Z) (key : jstr) (cache : Store) : V * Store :=
  match cache !! key with
  | Some cached =>
      if bool_decide (expires cached > now) then (data cached, cache)
      else (null, delete key cache)
  | None => (null, cache)
  end.

(** [set(key, data, ttlSeconds)], run when [Date.now()] reads [now]. *)
Definition set (now : Z) (key : jstr) (d : V) (ttlSeconds : Z)
    (cache : Store) : Store :=
  let expires := now + ttlSeconds * 1000 in
  <[key := {| data := d; expires := expires |}]> cache.

(** [generateKey(prefix, params)].  [params] is the object as the list of
    its own properties in insertion order, every name occurring once;
    [toStr] is the conversion a template literal applies to a value.
    [Object.keys] lists the names (the integer-like ones first); the sort
    that follows puts them in the order of their code units. *)
Context (toStr : V → jstr).

(** [params[key]]. *)
Fixpoint property (params : list (jstr * V)) (key : jstr) : option V :=
  match params with
  | [] => None
  | (k, v) :: rest => if decide (k = key) then Some v else property rest key
  end.

Definition generateKey (prefix : jstr) (params : list (jstr * V)) : jstr :=
  let sortedParams :=
    Str.join (lit "|")
      ((λ key, key ++ lit ":" ++
               match property params key with
               | Some v => toStr v
               | None => lit "undefined"
               end) <$> js_sort Str.leb (params.*1)) in
  prefix ++ lit ":" ++ sortedParams.
End cache.
End CacheManager.


(* ===================================================================== *)
(** * JSON values and JSON.parse                                          *)
(* ===================================================================== *)

(** The values [JSON.parse] produces, and [undefined] for the result of
    reading a property that is not there.  A number is the Number value
    for the real its literal denotes. *)
Inductive JsValue :=
| JUndefined
| JNull
| JBool (b : bool)
| JNum (x : Number.t)
| JStr (s : jstr)
| JArr (elems : list JsValue)
| JObj (props : list (jstr * JsValue)).

Module Json.

Inductive Token :=
| TLBracket | TRBracket | TLBrace | TRBrace | TComma | TColon
| TValue (v : JsValue).

(** Where the scanner is inside a number: an optional minus sign, then
    either a single 0 or a digit 1-9 followed by digits, then an optional
    fraction (a dot and at least one digit), then an optional exponent
    (e or E, an optional sign, at least one digit). *)
Inductive NumState := NMinus | NZero | NInt | NDot | NFrac | NE | NESign | NExp.

Record NumAcc := {
  neg : bool; mant : Z; fracd : nat; eneg : bool; expo : Z }.

Inductive Mode :=
| MDefault
| MString (acc : jstr)
| MEscape (acc : jstr)
| MUnicode (acc : jstr) (remaining : nat) (code : N)
| MNumber (st : NumState) (a : NumAcc)
| MLiteral (rest : jstr) (v : JsValue).

Definition num_value (a : NumAcc) : Number.t :=
  let e := (if eneg a then - expo a else expo a) - Z.of_nat (fracd a) in
  let m := if neg a then - mant a else mant a in
  Number.round (Number.decimal m e).

Definition is_digit (c : jchar) : bool := ((48 <=? c) && (c <=? 57))%N.
Definition digit_val (c : jchar) : Z := Z.of_N (c - 48).

Definition hex_val (c : jchar) : option N :=
  if ((48 <=? c) && (c <=? 57))%N then Some (c - 48)%N
  else if ((97 <=? c) && (c <=? 102))%N then Some (c - 87)%N
  else if ((65 <=? c) && (c <=? 70))%N then Some (c - 55)%N
  else None.

Definition is_json_space (c : jchar) : bool :=
  ((c =? 32) || (c =? 9) || (c =? 10) || (c =? 13))%N.

Definition num0 : NumAcc :=
  {| neg := false; mant := 0; fracd := 0; eneg := false; expo := 0 |}.

Definition push_digit (a : NumAcc) (c : jchar) : NumAcc :=
  {| neg := neg a; mant := mant a * 10 + digit_val c; fracd := fracd a;
     eneg := eneg a; expo := expo a |}.
Definition push_frac (a : NumAcc) (c : jchar) : NumAcc :=
  {| neg := neg a; mant := mant a * 10 + digit_val c; fracd := S (fracd a);
     eneg := eneg a; expo := expo a |}.
Definition push_exp (a : NumAcc) (c : jchar) : NumAcc :=
  {| neg := neg a; mant := mant a; fracd := fracd a;
     eneg := eneg a; expo := expo a * 10 + digit_val c |}.
Definition set_eneg (a : NumAcc) : NumAcc :=
  {| neg := neg a; mant := mant a; fracd := fracd a;
     eneg := true; expo := expo a |}.
Definition set_neg (a : NumAcc) : NumAcc :=
  {| neg := true; mant := mant a; fracd := fracd a;
     eneg := eneg a; expo := expo a |}.

(** One character read between tokens. *)
Definition scan_default (c : jchar) : option (Mode * list Token) :=
  if is_json_space c then Some (MDefault, [])
  else if (c =? 91)%N then Some (MDefault, [TLBracket])
  else if (c =? 93)%N then Some (MDefault, [TRBracket])
  else if (c =? 123)%N then Some (MDefault, [TLBrace])
  else if (c =? 125)%N then Some (MDefault, [TRBrace])
  else if (c =? 44)%N then Some (MDefault, [TComma])
  else if (c =? 58)%N then Some (MDefault, [TColon])
  else if (c =? 34)%N then Some (MString [], [])
  else if (c =? 45)%N then Some (MNumber NMinus (set_neg num0), [])
  else if (c =? 48)%N then Some (MNumber NZero num0, [])
  else if is_digit c then Some (MNumber NInt (push_digit num0 c), [])
  else if (c =? 116)%N then Some (MLiteral (lit "rue") (JBool true), [])
  else if (c =? 102)%N then Some (MLiteral (lit "alse") (JBool false), [])
  else if (c =? 110)%N then Some (MLiteral (lit "ull") JNull, [])
  else None.

(** A number ends at the first character that cannot continue it; that
    character is then read between tokens. *)
Definition end_number (a : NumAcc) (c : jchar) : option (Mode * list Token) :=
  '(m, ts) ← scan_default c; Some (m, TValue (JNum (num_value a)) :: ts).

Definition is_e (c : jchar) : bool := ((c =? 101) || (c =? 69))%N.

Definition scan_number (st : NumState) (a : NumAcc) (c : jchar)
    : option (Mode * list Token) :=
  match st with
  | NMinus =>
      if (c =? 48)%N then Some (MNumber NZero a, [])
      else if is_digit c then Some (MNumber NInt (push_digit a c), [])
      else None
  | NZero =>
      if (c =? 46)%N then Some (MNumber NDot a, [])
      else if is_e c then Some (MNumber NE a, [])
      else end_number a c
  | NInt =>
      if is_digit c then Some (MNumber NInt (push_digit a c), [])
      else if (c =? 46)%N then Some (MNumber NDot a, [])
      else if is_e c then Some (MNumber NE a, [])
      else end_number a c
  | NDot =>
      if is_digit c then Some (MNumber NFrac (push_frac a c), []) else None
  | NFrac =>
      if is_digit c then Some (MNumber NFrac (push_frac a c), [])
      else if is_e c then Some (MNumber NE a, [])
      else end_number a c
  | NE =>
      if (c =? 43)%N then Some (MNumber NESign a, [])
      else if (c =? 45)%N then Some (MNumber NESign (set_eneg a), [])
      else if is_digit c then Some (MNumber NExp (push_exp a c), [])
      else None
  | NESign =>
      if is_digit c then Some (MNumber NExp (push_exp a c), []) else None
  | NExp =>
      if is_digit c then Some (MNumber NExp (push_exp a c), [])
      else end_number a c
  end.

Definition scan_escape (acc : jstr) (c : jchar) : option (Mode * list Token) :=
  if (c =? 34)%N then Some (MString (34%N :: acc), [])
  else if (c =? 92)%N then Some (MString (92%N :: acc), [])
  else if (c =? 47)%N then Some (MString (47%N :: acc), [])
  else if (c =? 98)%N then Some (MString (8%N :: acc), [])
  else if (c =? 102)%N then Some (MString (12%N :: acc), [])
  else if (c =? 110)%N then Some (MString (10%N :: acc), [])
  else if (c =? 114)%N then Some (MString (13%N :: acc), [])
  else if (c =? 116)%N then Some (MString (9%N :: acc), [])
  else if (c =? 117)%N then Some (MUnicode acc 4 0%N, [])
  else None.

Definition scan (m : Mode) (c : jchar) : option (Mode * list Token) :=
  match m with
  | MDefault => scan_default c
  | MString acc =>
      if (c =? 34)%N then Some (MDefault, [TValue (JStr (reverse acc))])
      else if (c =? 92)%N then Some (MEscape acc, [])
      else if (c <? 32)%N then None
      else Some (MString (c :: acc), [])
  | MEscape acc => scan_escape acc c
  | MUnicode acc k code =>
      h ← hex_val c;
      let code' := (code * 16 + h)%N in
      match k with
      | 0%nat | 1%nat => Some (MString (code' :: acc), [])
      | S k' => Some (MUnicode acc k' code', [])
      end
  | MNumber st a => scan_number st a c
  | MLiteral rest v =>
      match rest with
      | [] => None
      | [x] => if (c =? x)%N then Some (MDefault, [TValue v]) else None
      | x :: rest' => if (c =? x)%N then Some (MLiteral rest' v, []) else None
      end
  end.

Definition accepting (st : NumState) : bool :=
  match st with NZero | NInt | NFrac | NExp => true | _ => false end.

Definition scan_end (m : Mode) : option (list Token) :=
  match m with
  | MDefault => Some []
  | MNumber st a =>
      if accepting st then Some [TValue (JNum (num_value a))] else None
  | _ => None
  end.

Fixpoint tokens_from (m : Mode) (s : jstr) : option (list Token) :=
  match s with
  | [] => scan_end m
  | c :: s' =>
      '(m', ts) ← scan m c;
      rest ← tokens_from m' s';
      Some (ts ++ rest)
  end.

(** The containers that are open, innermost first: the elements read so
    far (last first), and for an object the name awaiting its value. *)
Inductive Frame :=
| FArr (acc : list JsValue)
| FObj (acc : list (jstr * JsValue)) (key : option jstr).

Inductive Expect :=
| EValue | EValueOrClose | EKeyOrClose | EKey | EColon | EAfter
| EDone (v : JsValue).

(** Defining a property: a repeated name keeps its first position and
    takes the last value. *)
Fixpoint obj_set (props : list (jstr * JsValue)) (k : jstr) (v : JsValue)
    : list (jstr * JsValue) :=
  match props with
  | [] => [(k, v)]
  | (k', v') :: rest =>
      if decide (k' = k) then (k', v) :: rest else (k', v') :: obj_set rest k v
  end.

Definition obj_of (acc : list (jstr * JsValue)) : JsValue :=
  JObj (foldl (λ props kv, obj_set props kv.1 kv.2) [] (reverse acc)).

(** A complete value is handed to the enclosing container. *)
Definition deliver (v : JsValue) (stack : list Frame)
    : option (Expect * list Frame) :=
  match stack with
  | [] => Some (EDone v, [])
  | FArr acc :: st => Some (EAfter, FArr (v :: acc) :: st)
  | FObj acc (Some k) :: st => Some (EAfter, FObj ((k, v) :: acc) None :: st)
  | FObj _ None :: _ => None
  end.

Definition start_value (t : Token) (stack : list Frame)
    : option (Expect * list Frame) :=
  match t with
  | TLBracket => Some (EValueOrClose, FArr [] :: stack)
  | TLBrace => Some (EKeyOrClose, FObj [] None :: stack)
  | TValue v => deliver v stack
  | _ => None
  end.

Definition set_key (k : jstr) (stack : list Frame)
    : option (Expect * list Frame) :=
  match stack with
  | FObj acc None :: st => Some (EColon, FObj acc (Some k) :: st)
  | _ => None
  end.

Definition close_array (stack : list Frame) : option (Expect * list Frame) :=
  match stack with
  | FArr acc :: st => deliver (JArr (reverse acc)) st
  | _ => None
  end.

Definition close_object (stack : list Frame) : option (Expect * list Frame) :=
  match stack with
  | FObj acc None :: st => deliver (obj_of acc) st
  | _ => None
  end.

Definition step (e : Expect) (stack : list Frame) (t : Token)
    : option (Expect * list Frame) :=
  match e, t with
  | EValue, _ => start_value t stack
  | EValueOrClose, TRBracket => close_array stack
  | EValueOrClose, _ => start_value t stack
  | EKeyOrClose, TRBrace => close_object stack
  | EKeyOrClose, TValue (JStr k) => set_key k stack
  | EKey, TValue (JStr k) => set_key k stack
  | EColon, TColon => Some (EValue, stack)
  | EAfter, TComma =>
      match stack with
      | FArr _ :: _ => Some (EValue, stack)
      | FObj _ None :: _ => Some (EKey, stack)
      | _ => None
      end
  | EAfter, TRBracket => close_array stack
  | EAfter, TRBrace => close_object stack
  | _, _ => None
  end.

Fixpoint run (e : Expect) (stack : list Frame) (ts : list Token)
    : option JsValue :=
  match ts with
  | [] => match e with EDone v => Some v | _ => None end
  | t :: ts' => '(e', stack') ← step e stack t; run e' stack' ts'
  end.

(** [JSON.parse(text)]; [None] when it throws a [SyntaxError]. *)
Definition parse (text : jstr) : option JsValue :=
  ts ← tokens_from MDefault text; run EValue [] ts.

End Json.


(* ===================================================================== *)
(** * lib/trends.ts: data                                                 *)
(* ===================================================================== *)

(** [TrendingCoin] of the trending-coins adapter. *)
Record TrendingCoin := {
  coin_name : jstr;
  symbol : jstr;
  rank : Q;
  priceBtc : Q;
  marketCap : Q;
  priceChange24h : Q }.

(** [RedditPost] of the community-discussion adapter. *)
Record RedditPost := {
  title : jstr;
  score : Q;
  subreddit : jstr;
  reddit_url : jstr;
  comments : Q;
  created : Q }.

(** [NewsArticle] of the news adapter. *)
Record NewsArticle := {
  headline : jstr;
  news_url : jstr;
  publishedAt : jstr;
  news_relevance_score : Q;
  description : option jstr }.

Record TrendData := {
  google : list jstr;
  xcom : list jstr;
  coingecko : list TrendingCoin;
  reddit : list RedditPost;
  news : list NewsArticle }.

(* ===================================================================== *)
(** * lib/trends.ts: parsePostIdeasFromResponse                           *)
(* ===================================================================== *)

(** [content.match(/\[[\s\S]*\]/)]: the leftmost, longest match runs from
    the first opening bracket to the last closing bracket after it. *)
Definition match_bracketed (content : jstr) : option jstr :=
  i ← Str.first_match (lit "[") content;
  let tail := drop i content in
  j ← Str.last_match (lit "]") (drop 1 tail);
  Some (take (S (S j)) tail).

(** [value || fallback] tests the value for truthiness. *)
Definition truthy (v : JsValue) : bool :=
  match v with
  | JUndefined | JNull => false
  | JBool b => b
  | JNum x => negb (Number.is_zero x)
  | JStr s => negb (bool_decide (s = []))
  | JArr _ | JObj _ => true
  end.

Fixpoint lookup_prop (props : list (jstr * JsValue)) (name : jstr) : JsValue :=
  match props with
  | [] => JUndefined
  | (k, v) :: rest => if decide (k = name) then v else lookup_prop rest name
  end.

(** [idea.name] for one of the four names the callback reads; [None] is
    the [TypeError] of reading a property of [null] or [undefined].  The
    numbers, strings, booleans and arrays have no property of these
    names, and neither has [Object.prototype]. *)
Definition get_prop (idea : JsValue) (name : jstr) : option JsValue :=
  match idea with
  | JUndefined | JNull => None
  | JObj props => Some (lookup_prop props name)
  | _ => Some JUndefined
  end.

(** What an operand of [-] is converted to: a number, NaN, or the
    [TypeError] of a conversion that finds no primitive value. *)
Inductive Coerced :=
| CNumber (x : Number.t)
| CNaN
| CThrow.

Definition of_option (o : option Number.t) : Coerced :=
  match o with Some x => CNumber x | None => CNaN end.

(** An object read by [JSON.parse] has data properties only.  Its
    conversion to a primitive calls the inherited [valueOf], which returns
    the object, and then [toString]: the inherited one gives
    ["[object Object]"]; an own property of that name is not callable, and
    the conversion throws. *)
Definition has_own (props : list (jstr * JsValue)) (name : jstr) : bool :=
  bool_decide (name ∈ props.*1).

(** [ToString(v)] throws.  An array is joined: its elements are converted
    in turn, except [null]. *)
Fixpoint to_string_throws (v : JsValue) : bool :=
  match v with
  | JObj props => has_own props (lit "toString")
  | JArr elems => existsb to_string_throws elems
  | _ => false
  end.

(** [ToNumber(v)].  An array is converted through the string that [join]
    gives: the empty string for no element, the text of the one element,
    and for two or more a text with a comma, which is no numeral.  The
    numeral of a number denotes that number. *)
Fixpoint to_number (v : JsValue) : Coerced :=
  match v with
  | JUndefined => CNaN
  | JNull => CNumber (Number.Finite 0)
  | JBool b => CNumber (Number.Finite (if b then 1 else 0))
  | JNum x => CNumber x
  | JStr s => of_option (Number.of_string s)
  | JObj props => if has_own props (lit "toString") then CThrow else CNaN
  | JArr [] => CNumber (Number.Finite 0)
  | JArr [elem] =>
      match elem with
      | JUndefined | JNull => CNumber (Number.Finite 0)
      | JBool _ => CNaN
      | _ => to_number elem
      end
  | JArr elems => if existsb to_string_throws elems then CThrow else CNaN
  end.

(** The parser as it runs: the array it returns holds, for every property,
    the value the property has at run time, whatever the interface
    declares. *)
Module Runtime.

Record PostIdea := {
  idea_id : jstr;
  concept : JsValue;
  trend_source : JsValue;
  relevance_score : JsValue;
  business_benefit : JsValue }.

(** [value || fallback]. *)
Definition or_else (value fallback : JsValue) : JsValue :=
  if truthy value then value else fallback.

(** [(idea, index) => ({ id: ..., concept: idea.concept || ..., ... })];
    [None] is the [TypeError] of an element that is [null]. *)
Definition map_idea (index : nat) (idea : JsValue) : option PostIdea :=
  c ← get_prop idea (lit "concept");
  t ← get_prop idea (lit "trend_source");
  r ← get_prop idea (lit "relevance_score");
  b ← get_prop idea (lit "business_benefit");
  Some {| idea_id := lit "idea_" ++ Str.of_nat (index + 1);
          concept :=
            or_else c (JStr (lit "Business idea " ++ Str.of_nat (index + 1)));
          trend_source := or_else t (JStr (lit "General trend analysis"));
          relevance_score := or_else r (JNum (Number.Finite (1 # 2)));
          business_benefit :=
            or_else b (JStr (lit "Provides engagement opportunity")) |}.

(** [(a, b) => b.relevance_score - a.relevance_score] does not put [a]
    after [b]: the difference is not positive.  It is NaN, which [sort]
    reads as zero, when an operand is NaN and when both are the same
    infinity. *)
Definition by_relevance (a b : PostIdea) : bool :=
  match to_number (relevance_score a), to_number (relevance_score b) with
  | CNumber x, CNumber y => Number.leb y x
  | _, _ => true
  end.

Definition score_is_nan (i : PostIdea) : bool :=
  match to_number (relevance_score i) with CNaN => true | _ => false end.

Definition score_throws (i : PostIdea) : bool :=
  match to_number (relevance_score i) with CThrow => true | _ => false end.

(** The comparator is zero on every pair. *)
Definition all_tied (l : list PostIdea) : bool :=
  forallb (λ a, forallb (λ b, by_relevance a b && by_relevance b a) l) l.

(** The comparator orders the list consistently.  A score that is NaN
    ties with every other; that is consistent only when all others tie
    too. *)
Definition consistent (l : list PostIdea) : bool :=
  negb (existsb score_is_nan l) || all_tied l.

(** [array.sort(comparator)].  With fewer than two elements the
    comparator is not called.  With two or more every element is compared
    at least once, so a score whose conversion throws makes [sort] throw.
    For a consistent comparator the result is the stable sorted
    arrangement; otherwise the language leaves the order to the engine. *)
Inductive SortOutcome :=
| InOrder (l : list PostIdea)
| SortThrows
| EngineDefinedOrder.

Definition sort (l : list PostIdea) : SortOutcome :=
  match l with
  | [] | [_] => InOrder l
  | _ =>
      if existsb score_throws l then SortThrows
      else if consistent l then InOrder (js_sort by_relevance l)
      else EngineDefinedOrder
  end.

(** The five ideas of [getFallbackPostIdeas].  They have no
    [business_benefit]. *)
Definition fallbackIdeas : list PostIdea := [
  {| idea_id := lit "idea_1";
     concept := JStr (lit "BTC dominance shifting again");
     trend_source := JStr (lit "General: Crypto market trends");
     relevance_score := JNum (Number.round (7 # 10));
     business_benefit := JUndefined |};
  {| idea_id := lit "idea_2";
     concept := JStr (lit "New AI model just dropped");
     trend_source := JStr (lit "General: AI model releases");
     relevance_score := JNum (Number.round (7 # 10));
     business_benefit := JUndefined |};
  {| idea_id := lit "idea_3";
     concept := JStr (lit "Altcoin season incoming signals");
     trend_source := JStr (lit "General: Crypto cycle analysis");
     relevance_score := JNum (Number.round (6 # 10));
     business_benefit := JUndefined |};
  {| idea_id := lit "idea_4";
     concept := JStr (lit "AI agents changing everything");
     trend_source := JStr (lit "General: Agentic AI trends");
     relevance_score := JNum (Number.round (6 # 10));
     business_benefit := JUndefined |};
  {| idea_id := lit "idea_5";
     concept := JStr (lit "Whale alert worth watching");
     trend_source := JStr (lit "General: On-chain data");
     relevance_score := JNum (Number.round (5 # 10));
     business_benefit := JUndefined |} ].

Definition with_trend_source (src : jstr) (i : PostIdea) : PostIdea :=
  {| idea_id := idea_id i; concept := concept i; trend_source := JStr src;
     relevance_score := relevance_score i;
     business_benefit := business_benefit i |}.

(** [getFallbackPostIdeas(trendsData)]. *)
Definition getFallbackPostIdeas (trendsData : TrendData) : list PostIdea :=
  let ideas1 :=
    match news trendsData with
    | article :: _ =>
        alter (with_trend_source
                 (lit "News: " ++ Str.substring 0 60 (headline article)
                  ++ lit "...")) 0%nat fallbackIdeas
    | [] => fallbackIdeas
    end in
  match coingecko trendsData with
  | top :: _ =>
      alter (with_trend_source
               (lit "CoinGecko: " ++ coin_name top ++ lit " (" ++ symbol top
                ++ lit ") trending")) 2%nat ideas1
  | [] => ideas1
  end.

(** What the parser returns: an array, or the first eight of the mapped
    ideas in an order that the engine chooses. *)
Inductive Parsed :=
| Array (l : list PostIdea)
| EngineDefined (mapped : list PostIdea).

Definition parsePostIdeasFromResponse (content : jstr)
    (trendsData : TrendData) : Parsed :=
  match match_bracketed content with
  | None => Array (getFallbackPostIdeas trendsData)
  | Some jsonMatch =>
      match Json.parse jsonMatch with
      | Some (JArr ideas) =>
          match mapM id (imap map_idea ideas) with
          | Some mapped =>
              match sort mapped with
              | InOrder sorted => Array (take 8 sorted)
              | SortThrows =>
                  (* catch (error) *)
                  Array (getFallbackPostIdeas trendsData)
              | EngineDefinedOrder => EngineDefined mapped
              end
          | None =>
              (* catch (error): an element is [null] *)
              Array (getFallbackPostIdeas trendsData)
          end
      | _ =>
          (* catch (error): JSON.parse threw, or [ideas.map] is not a
             function *)
          Array (getFallbackPostIdeas trendsData)
      end
  end.

End Runtime.

(** [PostIdea], as the steps after the parser read it; the field [id] is
    [idea_id] here, [id] being the identity function.  [concept] is the
    string the templates of the renderer interpolate.  The other three
    fields are only passed on: they hold the value the property has at run
    time, [JUndefined] when it is absent. *)
Record PostIdea := {
  idea_id : jstr;
  concept : jstr;
  trend_source : JsValue;
  relevance_score : JsValue;
  business_benefit : JsValue }.

(** The run-time idea read at the type [PostIdea]: the templates need
    [concept] to be a string. *)
Definition typed_idea (i : Runtime.PostIdea) : option PostIdea :=
  match Runtime.concept i with
  | JStr s =>
      Some {| idea_id := Runtime.idea_id i; concept := s;
              trend_source := Runtime.trend_source i;
              relevance_score := Runtime.relevance_score i;
              business_benefit := Runtime.business_benefit i |}
  | _ => None
  end.

(** The fallback ideas at that type; their concepts are strings. *)
Definition getFallbackPostIdeas (trendsData : TrendData) : list PostIdea :=
  omap typed_idea (Runtime.getFallbackPostIdeas trendsData).

(** What [parsePostIdeasFromResponse] returns, read at the type
    [PostIdea[]] it declares: the ideas, or [Untyped] for an array that
    holds a concept that is not a string or whose order the engine
    chooses, which the steps that follow are not modelled on. *)
Inductive ParsedIdeas :=
| Ideas (l : list PostIdea)
| Untyped.

Definition parsePostIdeasFromResponse (content : jstr) (trendsData : TrendData)
    : ParsedIdeas :=
  match Runtime.parsePostIdeasFromResponse content trendsData with
  | Runtime.Array l =>
      match mapM typed_idea l with
      | Some ideas => Ideas ideas
      | None => Untyped
      end
  | Runtime.EngineDefined _ => Untyped
  end.


(* ===================================================================== *)
(** * lib/content.ts: cleanupGeneratedContent, getFallbackContent         *)
(* ===================================================================== *)

Record GeneratedContent := {
  idea : jstr;
  platform : jstr;
  text : jstr;
  strategy : jstr }.

Definition prefixes : list jstr :=
  [ lit "Here's the post:"; lit "Post content:"; lit "Caption:";
    lit "Tweet:"; lit "Content:" ].

(** The body of the loop over [prefixes]. *)
Definition strip_prefix (cleaned prefix : jstr) : jstr :=
  if Str.startsWith (Str.toLowerCase cleaned) (Str.toLowerCase prefix)
  then Str.trim (Str.substring_from (length prefix) cleaned)
  else cleaned.

(** The double quote, the line feed. *)
Definition dquote : jstr := [34%N].
Definition nl : jstr := [10%N].

Definition strip_quotes (cleaned : jstr) : jstr :=
  if Str.startsWith cleaned dquote && Str.endsWith cleaned dquote
  then Str.substring 1 (length cleaned - 1) cleaned
  else cleaned.

(** The branch for [platform === "twitter" && cleaned.length > 280]. *)
Definition truncate_tweet (cleaned : jstr) : jstr :=
  let slice := Str.substring 0 280 cleaned in
  let lastPara := Str.lastIndexOf slice (nl ++ nl) in
  if bool_decide (lastPara > 150) then
    Str.trim (Str.substring 0 (Z.to_nat lastPara) slice)
  else
    let lastSentence :=
      Z.max (Z.max (Str.lastIndexOf slice (lit ". "))
                   (Str.lastIndexOf slice (lit "? ")))
            (Str.lastIndexOf slice (lit "! ")) in
    if bool_decide (lastSentence > 150) then
      Str.trim (Str.substring 0 (Z.to_nat (lastSentence + 1)) slice)
    else
      let lastSpace := Str.lastIndexOf_from slice (lit " ") 277 in
      Str.trim
        (Str.substring 0
           (if bool_decide (lastSpace > 0) then Z.to_nat lastSpace
            else 277%nat) slice)
      ++ lit "...".

(** The branch for [platform === "instagram"]. *)
Definition separate_hashtags (cleaned : jstr) : jstr :=
  if negb (Str.includes cleaned (nl ++ nl ++ lit "#"))
     && Str.includes cleaned (lit "#")
  then
    let hashtagIndex := Z.to_nat (Str.indexOf cleaned (lit "#")) in
    let beforeHashtags := Str.trim (Str.substring 0 hashtagIndex cleaned) in
    let hashtags := Str.substring_from hashtagIndex cleaned in
    beforeHashtags ++ nl ++ nl ++ hashtags
  else cleaned.

Definition cleanupGeneratedContent (content platform : jstr) : jstr :=
  let cleaned := Str.trim content in
  let cleaned := foldl strip_prefix cleaned prefixes in
  let cleaned := strip_quotes cleaned in
  if bool_decide (platform = lit "twitter")
     && bool_decide (280 < length cleaned)%nat
  then truncate_tweet cleaned
  else if bool_decide (platform = lit "instagram")
  then separate_hashtags cleaned
  else cleaned.

(** The three non-ASCII runs of the templates, as the source file has
    them: U+00E2 U+20AC U+201D, and U+00F0 U+0178 U+2018 U+2021. *)
Definition dash : jstr := [226%N; 8364%N; 8221%N].
Definition pointer : jstr := [240%N; 376%N; 8216%N; 8225%N].

Definition fallback_twitter (concept : jstr) : jstr :=
  concept ++ lit " " ++ dash
    ++ lit " this is worth watching. What's your take? " ++ pointer
    ++ lit " #Crypto #AI".

Definition fallback_instagram (concept : jstr) : jstr :=
  concept ++ nl ++ nl
    ++ lit "This is one to watch closely. Drop your thoughts in the comments "
    ++ pointer ++ nl ++ nl ++ lit "#Crypto #Bitcoin #AITech #Web3 #DeFi".

Definition fallback_facebook (concept : jstr) : jstr :=
  concept ++ lit " " ++ dash
    ++ lit " what do you think about this? Share your take in the comments, would love to hear from the community.".

(** The property names of [Object.prototype].  [fallbackContent] is an
    object literal, so [fallbackContent[platform]] finds these too. *)
Definition objectPrototypeNames : list jstr :=
  [ lit "constructor"; lit "__defineGetter__"; lit "__defineSetter__";
    lit "hasOwnProperty"; lit "__lookupGetter__"; lit "__lookupSetter__";
    lit "isPrototypeOf"; lit "propertyIsEnumerable"; lit "toString";
    lit "valueOf"; lit "__proto__"; lit "toLocaleString" ].

(** What [getFallbackContent] returns: one of the three texts, or the
    value of the inherited property, which is a function (for
    [__proto__] the prototype object) and so truthy. *)
Inductive FallbackValue :=
| FallbackText (s : jstr)
| InheritedProperty (name : jstr).

(** The function as it runs. *)
Module RuntimeContent.

(** [getFallbackContent(idea, platform)]:
    [fallbackContent[platform] || fallbackContent.twitter].  The three
    texts are not empty. *)
Definition getFallbackContent (idea : PostIdea) (platform : jstr)
    : FallbackValue :=
  if bool_decide (platform = lit "twitter")
  then FallbackText (fallback_twitter (concept idea))
  else if bool_decide (platform = lit "instagram")
  then FallbackText (fallback_instagram (concept idea))
  else if bool_decide (platform = lit "facebook")
  then FallbackText (fallback_facebook (concept idea))
  else if bool_decide (platform ∈ objectPrototypeNames)
  then InheritedProperty platform
  else FallbackText (fallback_twitter (concept idea)).

End RuntimeContent.

(** [getFallbackContent] read at the type [string] it declares: the text
    it returns; no text where it returns an inherited property. *)
Definition getFallbackContent (idea : PostIdea) (platform : jstr) : jstr :=
  match RuntimeContent.getFallbackContent idea platform with
  | FallbackText s => s
  | InheritedProperty _ => []
  end.


(* ===================================================================== *)
(** * Configuration and the environment                                   *)
(* ===================================================================== *)

(** The fields of [config] that the modelled code reads. *)
Record Config := {
  business_name : jstr;
  business_type : jstr;
  business_city : jstr;
  business_industry : jstr;
  business_targetAudience : jstr;
  business_servicesOffered : jstr;
  business_personality : jstr;
  business_postType : jstr;
  sources_googleTrends : bool;
  sources_xcom : bool;
  sources_coingecko : bool;
  sources_reddit_enabled : bool;
  sources_reddit_clientId : jstr;
  sources_reddit_clientSecret : jstr;
  sources_news_enabled : bool;
  output_platforms : list jstr;
  output_keywords : list jstr;
  output_keywordsPerRun : nat;
  output_maxKeywords : nat;
  output_maxPostIdeas : nat;
  output_maxContentPerIdea : nat;
  output_logToFile : bool;
  image_enabled : bool;
  image_imageChance : Q;
  image_outputFormat : jstr;
  image_runwareApiKey : jstr }.

(** The merged business data [runPipeline] hands to the steps. *)
Record BusinessData := {
  businessName : jstr;
  businessType : jstr;
  ukCity : jstr;
  industry : jstr;
  targetAudience : jstr;
  servicesOffered : jstr;
  businessPersonality : jstr;
  postType : jstr }.

(** An [Error] object. *)
Record Error := { name : jstr; message : jstr }.

(** How a promise settles, as [Promise.allSettled] reports it. *)
Inductive Settled (A : Type) :=
| Fulfilled (value : A)
| Rejected (reason : Error).
Arguments Fulfilled {A} value.
Arguments Rejected {A} reason.

(** The request sent to the language model, by the data its text is built
    from. *)
Inductive Prompt :=
| KeywordPrompt (input : BusinessData)
| PostIdeaPrompt (businessData : BusinessData) (trendsData : TrendData)
    (recentPosts : list jstr)
| ContentPrompt (businessData : BusinessData) (idea : PostIdea)
    (platform : jstr) (recentSnippets : list jstr)
| ImagePrompt (postText : jstr).

(** The world outside the repository.  Each oracle is indexed by the number
    of external calls the run has made before the call it answers. *)
Record Env := {
  (** the [fs/promises] call fails with this error *)
  fs_error : nat → option Error;
  (** what [makeRequest] settles with *)
  model_reply : nat → Settled jstr;
  (** what the image endpoint settles with: the image URL *)
  runware_reply : nat → Settled jstr;
  (** the download of the image fails with this error *)
  download_error : nat → option Error;
  (** [Math.random()] *)
  random : nat → Q;
  (** the arrangement [sort(() => Math.random() - 0.5)] leaves *)
  shuffle : nat → list jstr → list jstr;
  (** milliseconds the call takes *)
  elapsed : nat → nat;
  (** what the five adapters settle with *)
  getAutocompleteSuggestions : nat → Settled (list jstr);
  getUKTrends : nat → Settled (list jstr);
  getTrendingCoins : nat → Settled (list TrendingCoin);
  getRelevantDiscussions : nat → Settled (list RedditPost);
  getRelevantArticles : nat → Settled (list NewsArticle) }.

Record CurrentPost := {
  cp_platform : jstr;
  cp_text : jstr;
  cp_idea : jstr;
  cp_timestamp : Z;
  imagePath : option jstr }.

(** The [ai_prompt_used] of a log entry: a fixed note, or the request. *)
Inductive PromptUsed :=
| PromptNote (note : jstr)
| PromptSent (prompt : Prompt).

(** The payload of a log entry, by the helper that builds it. *)
Inductive LogData :=
| InputReceived (businessData : BusinessData)
| KeywordsGenerated (keywords : list jstr) (ai_prompt_used : PromptUsed)
| GoogleTrendsSearch (keywords results : list jstr)
| RedditSearch (keywords : list jstr) (discussions : list RedditPost)
| XcomTrends (trends : list jstr)
| CoingeckoTrending (trends : list TrendingCoin)
| CryptoAiNews (articles : list NewsArticle)
| ContentIdeasGenerated (postIdeas : list PostIdea) (ai_prompt_used : Prompt)
| ProcessingComplete (cached : bool) (processingTimeMs : Z)
| ErrorLogged (failed_step : jstr) (error : Error)
| ImageGeneration (generated : bool) (path : option jstr) (platform : jstr).

Record LogEntry := { timestamp : Z; data : LogData }.

(** What a run has written to disk. *)
Inductive FileEvent :=
| RemovedDir (path : jstr)
| MadeDir (path : jstr)
| WrotePostJson (post : CurrentPost)
| WroteImage (path : jstr)
| WrotePostLog (businessName platform postText : jstr)
| WroteProcessLog (entries : list LogEntry).

(** The state a run threads: the count of external calls, the clock, the
    post texts under [logs/post_logs] (in the order the directory lists
    them; a new file is taken to come last), the entries of the [Logger]
    instance, and the writes made. *)
Record World := {
  calls : nat;
  clock : Z;
  post_logs : list jstr;
  logEntries : list LogEntry;
  written : list FileEvent }.

(** What running an [async] function yields: a value, an exception, or a
    run the typed records cannot follow: a language-model reply carried a
    field outside its declared type, or the text of an entry is an
    inherited property and no string. *)
Inductive Outcome (A : Type) :=
| Returns (a : A)
| Throws (e : Error)
| Untyped_run.
Arguments Returns {A} a.
Arguments Throws {A} e.
Arguments Untyped_run {A}.

Definition M (A : Type) : Type := World → Outcome A * World.

Definition ret {A} (a : A) : M A := λ w, (Returns a, w).

Definition bind {A B} (m : M A) (k : A → M B) : M B :=
  λ w, match m w with
       | (Returns a, w') => k a w'
       | (Throws e, w') => (Throws e, w')
       | (Untyped_run, w') => (Untyped_run, w')
       end.

Definition throw {A} (e : Error) : M A := λ w, (Throws e, w).

(** [try { m } catch (error) { h error }]. *)
Definition try_catch {A} (m : M A) (h : Error → M A) : M A :=
  λ w, match m w with
       | (Throws e, w') => h e w'
       | r => r
       end.

#[global] Instance M_ret : MRet M := @ret.
#[global] Instance M_bind : MBind M := λ A B k m, bind m k.

(** One external call: the count and the clock move on. *)
Definition advance (env : Env) (w : World) : World :=
  {| calls := S (calls w);
     clock := clock w + Z.of_nat (elapsed env (calls w));
     post_logs := post_logs w; logEntries := logEntries w;
     written := written w |}.

Definition record_write (ev : FileEvent) (w : World) : World :=
  {| calls := calls w; clock := clock w; post_logs := post_logs w;
     logEntries := logEntries w; written := written w ++ [ev] |}.

Definition add_post_log (postText : jstr) (w : World) : World :=
  {| calls := calls w; clock := clock w;
     post_logs := post_logs w ++ [postText];
     logEntries := logEntries w; written := written w |}.

(** [Date.now()]. *)
Definition date_now : M Z := λ w, (Returns (clock w), w).

(** [await] of a promise the environment settles. *)
Definition await {A} (env : Env) (oracle : Env → nat → Settled A) : M A :=
  λ w, match oracle env (calls w) with
       | Fulfilled v => (Returns v, advance env w)
       | Rejected e => (Throws e, advance env w)
       end.

(** A call into [fs/promises] that writes. *)
Definition fs_write (env : Env) (ev : FileEvent) : M unit :=
  λ w, match fs_error env (calls w) with
       | None => (Returns tt, record_write ev (advance env w))
       | Some e => (Throws e, advance env w)
       end.

(** [Logger.log(step, data, details)]. *)
Definition log (d : LogData) : M unit :=
  λ w, (Returns tt,
        {| calls := calls w; clock := clock w; post_logs := post_logs w;
           logEntries := logEntries w ++ [{| timestamp := clock w; data := d |}];
           written := written w |}).

(** [makeRequest(prompt, maxTokens)].  The reply is the environment's; it
    is looked up by the count of calls, which a run determines together
    with the request, so the text of the request plays no part. *)
Definition makeRequest (env : Env) (prompt : Prompt) : M jstr :=
  await env model_reply.

(* ===================================================================== *)
(** * lib/logger.ts: the post log                                         *)
(* ===================================================================== *)

(** [array.slice(-limit)]. *)
Definition last_n {A} (limit : nat) (l : list A) : list A :=
  drop (length l - limit) l.

(** [Logger.getRecentPostSnippets(limit)]: the text after the separator
    line of each of the last [limit] files, trimmed; the empty list when
    reading the directory fails. *)
Definition getRecentPostSnippets (env : Env) (limit : nat) : M (list jstr) :=
  λ w, match fs_error env (calls w) with
       | None => (Returns (Str.trim <$> last_n limit (post_logs w)),
                  advance env w)
       | Some _ => (Returns [], advance env w)
       end.

(** [Logger.logPost(businessName, platform, postText)]. *)
Definition logPost (env : Env) (businessName platform postText : jstr)
    : M unit :=
  fs_write env (MadeDir (lit "logs/post_logs"));;
  (λ w, match fs_error env (calls w) with
       | None =>
           (Returns tt,
            add_post_log postText
              (record_write (WrotePostLog businessName platform postText)
                 (advance env w)))
       | Some e => (Throws e, advance env w)
       end) : M unit.

(** [Logger.saveToFile()]. *)
Definition saveToFile (env : Env) : M unit :=
  fs_write env (MadeDir (lit "logs/process_logs"));;
  ((λ w, fs_write env (WroteProcessLog (logEntries w)) w) : M unit).

(* ===================================================================== *)
(** * lib/keywords.ts                                                     *)
(* ===================================================================== *)

Definition is_keyword_line (line : jstr) : bool :=
  negb (bool_decide (Str.trim line = []))
  && negb (Str.includes line (lit ":"))
  && Str.includes line (lit ",").

Definition parseKeywordsFromResponse (content : jstr) : list jstr :=
  let lines := Str.split 10 content in
  let keywordLine :=
    match List.find is_keyword_line lines with
    | Some line => Str.trim line
    | None => []
    end in
  let keywordLine :=
    if bool_decide (keywordLine = []) then Str.trim content else keywordLine in
  take 12
    (filter (λ keyword, 0 < length keyword < 50)%nat
       (Str.trim <$> Str.split 44 keywordLine)).

Definition generateKeywords (env : Env) (input : BusinessData) (logger : bool)
    : M (list jstr) :=
  let prompt := KeywordPrompt input in
  content ← makeRequest env prompt;
  let keywords := parseKeywordsFromResponse content in
  (if logger then log (KeywordsGenerated keywords (PromptSent prompt))
   else ret tt);;
  ret keywords.

(* ===================================================================== *)
(** * lib/trends.ts: analyzeTrends, generatePostIdeas                     *)
(* ===================================================================== *)

(** The value a settled promise contributes to the snapshot:
    [r.status === 'fulfilled' ? r.value : []]. *)
Definition value_or_empty {A} (r : Settled (list A)) : list A :=
  match r with
  | Fulfilled value => value
  | Rejected _ => []
  end.

(** One element of the array given to [Promise.allSettled]: the adapter
    call when the source is switched on, [Promise.resolve([])] otherwise.
    The five calls are started together, so each oracle is read at the
    count of calls at that moment. *)
Definition launch {A} (enabled : bool) (adapter : nat → Settled (list A))
    (w : World) : Settled (list A) :=
  if enabled then adapter (calls w) else Fulfilled [].

Definition launched (enabled : bool) : nat := if enabled then 1 else 0.

(** Three adapters sort the array they are given, in place, as the first
    thing they do: [keywords.sort()] in the argument of [generateKey].
    The Google adapter is called when its source is switched on.  The
    Reddit and the news adapter are always called, and return before the
    sort when they are not enabled (Reddit: or have no client id or
    secret). *)
Definition sortsKeywords (config : Config) : bool :=
  sources_googleTrends config
  || (sources_reddit_enabled config
      && negb (bool_decide (sources_reddit_clientId config = []))
      && negb (bool_decide (sources_reddit_clientSecret config = [])))
  || sources_news_enabled config.

(** The array [keywords] once the adapters have been started: sorted by
    code units, or as it was. *)
Definition keywordsAfterAdapters (config : Config) (keywords : list jstr)
    : list jstr :=
  if sortsKeywords config then js_sort Str.leb keywords else keywords.

(** [analyzeTrends(keywords, businessData, logger)]. *)
Definition analyzeTrends (env : Env) (config : Config) (keywords : list jstr)
    (businessData : BusinessData) (logger : bool) : M TrendData :=
  λ w,
  let googleSuggestions :=
    launch (sources_googleTrends config) (getAutocompleteSuggestions env) w in
  let xcomTrends := launch (sources_xcom config) (getUKTrends env) w in
  let coingeckoTrends :=
    launch (sources_coingecko config) (getTrendingCoins env) w in
  let redditDiscussions := launch true (getRelevantDiscussions env) w in
  let newsArticles := launch true (getRelevantArticles env) w in
  (* the join: every call made has settled *)
  let w' :=
    Nat.iter (launched (sources_googleTrends config)
              + launched (sources_xcom config)
              + launched (sources_coingecko config) + 2)
      (advance env) w in
  let trendsData :=
    {| google := value_or_empty googleSuggestions;
       xcom := value_or_empty xcomTrends;
       coingecko := value_or_empty coingeckoTrends;
       reddit := value_or_empty redditDiscussions;
       news := value_or_empty newsArticles |} in
  (* the array the caller passed, as the adapters have left it *)
  let keywords := keywordsAfterAdapters config keywords in
  ((if logger then
      log (GoogleTrendsSearch keywords (google trendsData));;
      log (XcomTrends (xcom trendsData));;
      log (CoingeckoTrending (coingecko trendsData));;
      log (RedditSearch keywords (reddit trendsData));;
      log (CryptoAiNews (news trendsData))
    else ret tt);;
   ret trendsData) w'.

(** [generatePostIdeas(businessData, trendsData, logger, recentPosts)]. *)
Definition generatePostIdeas (env : Env) (businessData : BusinessData)
    (trendsData : TrendData) (logger : bool) (recentPosts : list jstr)
    : M (list PostIdea) :=
  let prompt := PostIdeaPrompt businessData trendsData recentPosts in
  content ← makeRequest env prompt;
  match parsePostIdeasFromResponse content trendsData with
  | Ideas postIdeas =>
      (if logger then log (ContentIdeasGenerated postIdeas prompt)
       else ret tt);;
      ret postIdeas
  | Untyped => λ w, (Untyped_run, w)
  end.

(* ===================================================================== *)
(** * lib/content.ts: generatePlatformContent                             *)
(* ===================================================================== *)

(** [businessData.postType || 'value_first']. *)
Definition strategy_of (businessData : BusinessData) : jstr :=
  if bool_decide (postType businessData = []) then lit "value_first"
  else postType businessData.

Definition generateContentForPlatform (env : Env) (businessData : BusinessData)
    (idea : PostIdea) (platform : jstr) : M jstr :=
  recentSnippets ← getRecentPostSnippets env 10;
  let prompt := ContentPrompt businessData idea platform recentSnippets in
  content ← makeRequest env prompt;
  let cleaned := cleanupGeneratedContent content platform in
  logPost env (businessName businessData) platform cleaned;;
  ret cleaned.

(** The body of the inner loop: the [try] pushes the rendered entry, the
    [catch] pushes the fallback entry. *)
Definition render_pair (env : Env) (businessData : BusinessData)
    (idea : PostIdea) (platform : jstr)
    (generatedContent : list GeneratedContent) : M (list GeneratedContent) :=
  try_catch
    (content ← generateContentForPlatform env businessData idea platform;
     ret (generatedContent ++
            [{| idea := concept idea; platform := platform; text := content;
                strategy := strategy_of businessData |}]))
    (λ error,
     match RuntimeContent.getFallbackContent idea platform with
     | FallbackText fallback =>
         ret (generatedContent ++
                [{| idea := concept idea; platform := platform;
                    text := fallback;
                    strategy := strategy_of businessData |}])
     | InheritedProperty _ => λ w, (Untyped_run, w)
     end).

(** A [for ... of] loop whose body updates an accumulator. *)
Fixpoint for_of {A S} (l : list A) (body : A → S → M S) (s : S) : M S :=
  match l with
  | [] => ret s
  | x :: l' => s' ← body x s; for_of l' body s'
  end.

Definition generatePlatformContent (env : Env) (businessData : BusinessData)
    (selectedIdeas : list PostIdea) (platforms : list jstr)
    : M (list GeneratedContent) :=
  for_of selectedIdeas
    (λ idea, for_of platforms (render_pair env businessData idea)) [].

(* ===================================================================== *)
(** * lib/image.ts: saveCurrentPost                                       *)
(* ===================================================================== *)

Definition is_quote (c : jchar) : bool := ((c =? 34) || (c =? 39))%N.

(** The [replace] of [buildImagePrompt]: one quote character (single or
    double) is removed at the start and one at the end. *)
Definition strip_edge_quotes (s : jstr) : jstr :=
  let s1 := match s with c :: r => if is_quote c then r else s | [] => [] end in
  match reverse s1 with
  | c :: r => if is_quote c then reverse r else s1
  | [] => []
  end.

Definition buildImagePrompt (env : Env) (postText : jstr) : M jstr :=
  response ← makeRequest env (ImagePrompt postText);
  ret (strip_edge_quotes (Str.trim response)).

Definition callRunwareAPI (env : Env) (config : Config) (imagePrompt : jstr)
    : M jstr :=
  if bool_decide (image_runwareApiKey config = []) then
    throw {| name := lit "Error";
             message :=
               lit "Runware API key not set in config.image.runwareApiKey" |}
  else await env runware_reply.

Definition downloadImage (env : Env) (url destPath : jstr) : M unit :=
  λ w, match download_error env (calls w) with
       | Some e => (Throws e, advance env w)
       | None => fs_write env (WroteImage destPath) (advance env w)
       end.

(** [Math.random()]. *)
Definition math_random (env : Env) : M Q :=
  λ w, (Returns (random env (calls w)), advance env w).

Definition saveCurrentPost (env : Env) (config : Config)
    (platform postText idea : jstr) : M CurrentPost :=
  fs_write env (MadeDir (lit "current_post"));;
  roll ← math_random env;
  let generateImage :=
    image_enabled config && negb (Qle_bool (image_imageChance config) roll) in
  imagePath ←
    (if generateImage then
       try_catch
         (imagePrompt ← buildImagePrompt env postText;
          imageUrl ← callRunwareAPI env config imagePrompt;
          let ext := Str.toLowerCase (image_outputFormat config) in
          let imagePath := lit "current_post/image." ++ ext in
          downloadImage env imageUrl imagePath;;
          ret (Some imagePath))
         (λ err, ret None)
     else ret None);
  now ← date_now;
  let currentPost :=
    {| cp_platform := platform; cp_text := postText; cp_idea := idea;
       cp_timestamp := now; imagePath := imagePath |} in
  fs_write env (WrotePostJson currentPost);;
  ret currentPost.

(* ===================================================================== *)
(** * lib/pipeline.ts: runPipeline                                        *)
(* ===================================================================== *)

Inductive Status := StatusSuccess | StatusError.

Record Business := {
  b_name : jstr; b_type : jstr; b_city : jstr; b_industry : jstr }.

Record Meta := {
  meta_timestamp : Z;
  processingTimeMs : Z;
  sourcesUsed : list jstr;
  keywordCount : nat;
  ideasGenerated : nat;
  contentPieces : nat }.

Record PipelineResult := {
  status : Status;
  business : Business;
  keywords : list jstr;
  trends : TrendData;
  postIdeas : list PostIdea;
  content : list GeneratedContent;
  currentPost : option CurrentPost;
  meta : Meta;
  error : option jstr }.

Record Options := {
  opt_platforms : option (list jstr);
  opt_strategy : option jstr;
  opt_keywords : option (list jstr);
  skipContent : bool;
  quiet : bool }.

Definition emptyTrends : TrendData :=
  {| google := []; xcom := []; coingecko := []; reddit := []; news := [] |}.

(** The [sourcesUsed] array after the five conditional pushes. *)
Definition configuredSources (config : Config) : list jstr :=
  (if sources_googleTrends config then [lit "google"] else [])
  ++ (if sources_xcom config then [lit "xcom"] else [])
  ++ (if sources_coingecko config then [lit "coingecko"] else [])
  ++ (if sources_reddit_enabled config then [lit "reddit"] else [])
  ++ (if sources_news_enabled config then [lit "news"] else []).

(** Step 1, the three ways to the keywords. *)
Definition selectKeywords (env : Env) (config : Config) (options : Options)
    (businessData : BusinessData) : M (list jstr) :=
  match opt_keywords options with
  | Some (k :: ks) =>
      log (KeywordsGenerated (k :: ks) (PromptNote (lit "CLI override")));;
      ret (k :: ks)
  | _ =>
      let pool :=
        filter (λ k, Str.trim k ≠ []) (output_keywords config) in
      if bool_decide (0 < length pool)%nat then
        let count := Nat.min (output_keywordsPerRun config) (length pool) in
        keywords ← ((λ w, (Returns (take count (shuffle env (calls w) pool)),
                           advance env w)) : M (list jstr));
        log (KeywordsGenerated keywords
               (PromptNote (lit "Pool pick from config")));;
        ret keywords
      else generateKeywords env businessData true
  end.

(** Step 5, taken when some content was rendered. *)
Definition persistCurrentPost (env : Env) (config : Config)
    (content : list GeneratedContent) : M (option CurrentPost) :=
  match content with
  | [] => ret None
  | first :: _ =>
      let twitterPost :=
        default first
          (List.find (λ c, bool_decide (platform c = lit "twitter")) content) in
      currentPost ← saveCurrentPost env config (platform twitterPost)
                      (text twitterPost) (idea twitterPost);
      log (ImageGeneration (bool_decide (is_Some (imagePath currentPost)))
             (imagePath currentPost) (cp_platform currentPost));;
      ret (Some currentPost)
  end.

(** A log entry holds its data by reference.  The entry of step 1 holds
    the array [keywords] itself, so it shows the array as the adapters
    have left it. *)
Definition alias_keywords (keywords : list jstr) (entry : LogEntry)
    : LogEntry :=
  match data entry with
  | KeywordsGenerated _ ai_prompt_used =>
      {| timestamp := timestamp entry;
         data := KeywordsGenerated keywords ai_prompt_used |}
  | _ => entry
  end.

Definition sorted_in_place (keywords : list jstr) : M unit :=
  λ w, (Returns tt,
        {| calls := calls w; clock := clock w; post_logs := post_logs w;
           logEntries := alias_keywords keywords <$> logEntries w;
           written := written w |}).

(** The [try] block of [runPipeline]. *)
Definition pipelineSteps (env : Env) (config : Config) (options : Options)
    (businessData : BusinessData) (platforms sourcesUsed : list jstr)
    (business : Business) (startTime : Z) : M PipelineResult :=
  (* Step 1: Generate or use provided keywords *)
  keywords ← selectKeywords env config options businessData;
  (* Step 2: Analyze trends *)
  trendsData ← analyzeTrends env config keywords businessData true;
  (* [keywords] is the array the adapters were given: they have sorted it *)
  let keywords := keywordsAfterAdapters config keywords in
  sorted_in_place keywords;;
  (* Step 3: Generate post ideas *)
  recentPosts ← getRecentPostSnippets env 10;
  postIdeas ← generatePostIdeas env businessData trendsData true recentPosts;
  (* Step 4: Generate platform content (if not skipped) *)
  content ←
    (if skipContent options then mret []
     else
       let ideasToGenerate :=
         take (output_maxContentPerIdea config) postIdeas in
       generatePlatformContent env businessData ideasToGenerate platforms);
  (* Step 5: Save current post + optional image *)
  currentPost ← persistCurrentPost env config content;
  now ← date_now;
  log (ProcessingComplete false (now - startTime));;
  (if output_logToFile config then saveToFile env else mret tt);;
  now ← date_now;
  mret {| status := StatusSuccess;
          business := business;
          keywords := take (output_maxKeywords config) keywords;
          trends := trendsData;
          postIdeas := take (output_maxPostIdeas config) postIdeas;
          content := content;
          currentPost := currentPost;
          meta := {| meta_timestamp := now;
                     processingTimeMs := now - startTime;
                     sourcesUsed := sourcesUsed;
                     keywordCount := length keywords;
                     ideasGenerated := length postIdeas;
                     contentPieces := length content |};
          error := None |}.

(** The value the [catch] block returns. *)
Definition errorResult (business : Business) (sourcesUsed : list jstr)
    (startTime now : Z) (error : Error) : PipelineResult :=
  {| status := StatusError;
     business := business;
     keywords := [];
     trends := emptyTrends;
     postIdeas := [];
     content := [];
     currentPost := None;
     meta := {| meta_timestamp := now;
                processingTimeMs := now - startTime;
                sourcesUsed := sourcesUsed;
                keywordCount := 0;
                ideasGenerated := 0;
                contentPieces := 0 |};
     error := Some (message error) |}.

(** The [catch] block of [runPipeline]. *)
Definition pipelineFailure (business : Business) (sourcesUsed : list jstr)
    (startTime : Z) (error : Error) : M PipelineResult :=
  log (ErrorLogged (lit "pipeline") error);;
  now ← date_now;
  mret (errorResult business sourcesUsed startTime now error).

(** The merge of [config] with the command-line options. *)
Definition mergeBusinessData (config : Config) (options : Options)
    : BusinessData :=
  {| businessName := business_name config;
     businessType := business_type config;
     ukCity := business_city config;
     industry := business_industry config;
     targetAudience := business_targetAudience config;
     servicesOffered := business_servicesOffered config;
     businessPersonality := business_personality config;
     postType :=
       match opt_strategy options with
       | Some (c :: s) => c :: s
       | _ => business_postType config
       end |}.

Definition businessOf (businessData : BusinessData) : Business :=
  {| b_name := businessName businessData;
     b_type := businessType businessData;
     b_city := ukCity businessData;
     b_industry := industry businessData |}.

Definition runPipeline (env : Env) (config : Config) (options : Options)
    : M PipelineResult :=
  startTime ← date_now;
  fs_write env (RemovedDir (lit "current_post"));;
  fs_write env (MadeDir (lit "current_post"));;
  (* const logger = new Logger(config.business.name, options.quiet) *)
  let businessData := mergeBusinessData config options in
  log (InputReceived businessData);;
  let platforms := default (output_platforms config) (opt_platforms options) in
  let sourcesUsed := configuredSources config in
  try_catch
    (pipelineSteps env config options businessData platforms sourcesUsed
       (businessOf businessData) startTime)
    (pipelineFailure (businessOf businessData) sourcesUsed startTime).

(** The exit code [main] in [cli.ts] derives from the result. *)
Definition exitCode (result : PipelineResult) : Z :=
  match status result with
  | StatusError => 4
  | StatusSuccess =>
      if bool_decide (length (sourcesUsed (meta result)) = 0%nat)
         && bool_decide (0 < length (keywords result))%nat
      then 3 (* All data sources failed *)
      else 0
  end.


(* ===================================================================== *)
(** * lib/sources/google.ts: getAutocompleteSuggestions                   *)
(* ===================================================================== *)

Module GoogleTrendsService.

(** The values of the object given to [generateKey]: the array of keywords
    and the location.  A template literal renders an array as its elements
    joined by commas. *)
Inductive Param :=
| Keywords (keywords : list jstr)
| Location (location : jstr).

Definition paramToString (p : Param) : jstr :=
  match p with
  | Keywords keywords => Str.join (lit ",") keywords
  | Location location => location
  end.

(** What the shared cache holds under the keys of this adapter: the array
    of strings a call stored.  [None] is [null]. *)
Abbreviation Cache :=
  (gmap (list N) (CacheManager.Entry (V:=option (list jstr)))).

(** [suggestions.add(suggestion)]: the [Set] as the list of its members in
    insertion order. *)
Definition set_add (suggestions : list jstr) (suggestion : jstr) : list jstr :=
  if decide (suggestion ∈ suggestions) then suggestions
  else suggestions ++ [suggestion].

Record Answer := {
  (** the array returned *)
  answer : list jstr;
  (** the caller's [keywords] array after the call: [keywords.sort()]
      sorts it in place *)
  keywords_after : list jstr;
  cache_after : Cache }.

Section adapter.
(** The private [getKeywordSuggestions(keyword, location)] catches every
    error of its request and returns an array in all cases.  It stands here
    as the array its [n]-th call of a run returns. *)
Context (getKeywordSuggestions : nat → jstr → jstr → list jstr).

(** The loop over the keywords. *)
Fixpoint collect (n : nat) (keywords : list jstr) (location : jstr)
    (suggestions : list jstr) : list jstr :=
  match keywords with
  | [] => suggestions
  | keyword :: rest =>
      let keywordSuggestions := getKeywordSuggestions n keyword location in
      collect (S n) rest location (foldl set_add suggestions keywordSuggestions)
  end.

Definition cacheKey (keywords : list jstr) (location : jstr) : jstr :=
  CacheManager.generateKey paramToString (lit "google-trends")
    [(lit "keywords", Keywords keywords); (lit "location", Location location)].

(** [getAutocompleteSuggestions(keywords, location)], when [Date.now()]
    reads [now] at the lookup and [stored_at] at the store.  No statement of
    the [try] block throws, so its [catch] is not reached.  The adapter is
    taken on its own: the other adapters, whose calls may interleave with
    the fetches, use keys of other prefixes and sort the same array the
    same way. *)
Definition getAutocompleteSuggestions (now stored_at : Z)
    (keywords : list jstr) (location : jstr) (cache : Cache) : Answer :=
  let keywords := js_sort Str.leb keywords in
  let cacheKey := cacheKey keywords location in
  match CacheManager.get None now cacheKey cache with
  | (Some cached, cache) =>
      {| answer := cached; keywords_after := keywords; cache_after := cache |}
  | (None, cache) =>
      let suggestions := collect 0 keywords location [] in
      let result := take 30 suggestions in
      {| answer := result; keywords_after := keywords;
         cache_after :=
           CacheManager.set stored_at cacheKey (Some result) (2 * 60 * 60)
             cache |}
  end.
End adapter.
End GoogleTrendsService.

(* ===================================================================== *)
(** * Scenarios                                                           *)
(* ===================================================================== *)

(** A configuration of the shape of [config.example.ts], with every source
    switched on and a pool of two keywords. *)
Definition exampleConfig : Config :=
  {| business_name := lit "YourName";
     business_type := lit "Crypto Influencer";
     business_city := lit "Global";
     business_industry := lit "Finance";
     business_targetAudience := lit "Your target audience";
     business_servicesOffered := lit "Your services";
     business_personality := lit "Your personality";
     business_postType := lit "value_first";
     sources_googleTrends := true;
     sources_xcom := true;
     sources_coingecko := true;
     sources_reddit_enabled := true;
     sources_reddit_clientId := lit "YOUR_REDDIT_CLIENT_ID";
     sources_reddit_clientSecret := lit "YOUR_REDDIT_CLIENT_SECRET";
     sources_news_enabled := true;
     output_platforms := [lit "twitter"; lit "instagram"; lit "facebook"];
     output_keywords := [lit "bitcoin to zero"; lit "ethereum news"];
     output_keywordsPerRun := 6;
     output_maxKeywords := 12;
     output_maxPostIdeas := 3;
     output_maxContentPerIdea := 1;
     output_logToFile := true;
     image_enabled := false;
     image_imageChance := (1 # 2)%Q;
     image_outputFormat := lit "PNG";
     image_runwareApiKey := [] |}.

Definition noOptions : Options :=
  {| opt_platforms := None; opt_strategy := None; opt_keywords := None;
     skipContent := false; quiet := true |}.

Definition networkDown : Error :=
  {| name := lit "TypeError"; message := lit "fetch failed" |}.

Definition permissionDenied : Error :=
  {| name := lit "Error";
     message := lit "EACCES: permission denied, mkdir 'current_post'" |}.

(** An environment in which the file system and the language model work
    (the model answers without any array) and all five adapters fail. *)
Definition adaptersDown : Env :=
  {| fs_error := λ _, None;
     model_reply := λ _, Fulfilled (lit "Nothing stands out right now.");
     runware_reply := λ _, Rejected networkDown;
     download_error := λ _, None;
     random := λ _, (3 # 4)%Q;
     shuffle := λ _ pool, pool;
     elapsed := λ _, 25%nat;
     getAutocompleteSuggestions := λ _, Rejected networkDown;
     getUKTrends := λ _, Rejected networkDown;
     getTrendingCoins := λ _, Rejected networkDown;
     getRelevantDiscussions := λ _, Rejected networkDown;
     getRelevantArticles := λ _, Rejected networkDown |}.

(** An environment in which the working directory is read-only: removing
    the missing [current_post] succeeds, creating it fails. *)
Definition readOnlyDirectory : Env :=
  {| fs_error := λ n, if bool_decide (n = 0%nat) then None
                      else Some permissionDenied;
     model_reply := λ _, Fulfilled (lit "[]");
     runware_reply := λ _, Rejected networkDown;
     download_error := λ _, None;
     random := λ _, (3 # 4)%Q;
     shuffle := λ _ pool, pool;
     elapsed := λ _, 25%nat;
     getAutocompleteSuggestions := λ _, Fulfilled [];
     getUKTrends := λ _, Fulfilled [];
     getTrendingCoins := λ _, Fulfilled [];
     getRelevantDiscussions := λ _, Fulfilled [];
     getRelevantArticles := λ _, Fulfilled [] |}.

(** An environment in which every call to the language model fails. *)
Definition modelDown : Env :=
  {| fs_error := λ _, None;
     model_reply := λ _, Rejected networkDown;
     runware_reply := λ _, Rejected networkDown;
     download_error := λ _, None;
     random := λ _, (3 # 4)%Q;
     shuffle := λ _ pool, pool;
     elapsed := λ _, 25%nat;
     getAutocompleteSuggestions := λ _, Fulfilled [];
     getUKTrends := λ _, Fulfilled [];
     getTrendingCoins := λ _, Fulfilled [];
     getRelevantDiscussions := λ _, Fulfilled [];
     getRelevantArticles := λ _, Fulfilled [] |}.

Definition startOfRun : World :=
  {| calls := 0; clock := 1700000000000; post_logs := [];
     logEntries := []; written := [] |}.

(** An idea whose concept is a sentence of 227 characters, as a model
    reply can carry in its [concept] field. *)
Definition longIdea : PostIdea :=
  {| idea_id := lit "idea_1";
     concept := lit "Bitcoin exchange-traded funds recorded their largest weekly inflow since launch while Ethereum staking yields compressed, and on-chain data shows long-term holders adding to positions even as funding rates turned negative again";
     trend_source := JStr (lit "General trend analysis");
     relevance_score := JNum (Number.round (9 # 10));
     business_benefit := JStr (lit "Provides engagement opportunity") |}.

(* ===================================================================== *)
(** * Predicates used to state the properties                             *)
(* ===================================================================== *)

(** The entry the [catch] pushes for a pair. *)
Definition fallback_entry (businessData : BusinessData) (idea : PostIdea)
    (platform : jstr) : GeneratedContent :=
  {| idea := concept idea; platform := platform;
     text := getFallbackContent idea platform;
     strategy := strategy_of businessData |}.

(** The entry pushed for a pair that is reached when the run has made [n]
    external calls, and the number of calls the pair takes.  The pair
    reads the post log (call [n]), asks the model (call [n + 1]) and logs
    the cleaned reply with a [mkdir] (call [n + 2]) and a [writeFile]
    (call [n + 3]).  When the model rejects, or one of the two calls of
    the log fails, the entry carries the fallback text of the pair;
    otherwise it carries the cleaned reply of the model to this call. *)
Inductive pair_entry (env : Env) (businessData : BusinessData)
    (idea : PostIdea) (platform : jstr) (n : nat)
    : GeneratedContent → nat → Prop :=
| entry_model_rejected e :
    model_reply env (S n) = Rejected e →
    pair_entry env businessData idea platform n
      (fallback_entry businessData idea platform) 2
| entry_log_mkdir_failed reply e :
    model_reply env (S n) = Fulfilled reply →
    fs_error env (S (S n)) = Some e →
    pair_entry env businessData idea platform n
      (fallback_entry businessData idea platform) 3
| entry_log_write_failed reply e :
    model_reply env (S n) = Fulfilled reply →
    fs_error env (S (S n)) = None →
    fs_error env (S (S (S n))) = Some e →
    pair_entry env businessData idea platform n
      (fallback_entry businessData idea platform) 4
| entry_rendered reply :
    model_reply env (S n) = Fulfilled reply →
    fs_error env (S (S n)) = None →
    fs_error env (S (S (S n))) = None →
    pair_entry env businessData idea platform n
      {| idea := concept idea; platform := platform;
         text := cleanupGeneratedContent reply platform;
         strategy := strategy_of businessData |} 4.

(** The entries pushed for a list of pairs, one after the other, from [n]
    calls made to [n'] calls made. *)
Inductive renders (env : Env) (businessData : BusinessData)
    : list (PostIdea * jstr) → nat → list GeneratedContent → nat → Prop :=
| renders_nil n : renders env businessData [] n [] n
| renders_cons idea platform pairs n c used cs n' :
    pair_entry env businessData idea platform n c used →
    renders env businessData pairs (n + used) cs n' →
    renders env businessData ((idea, platform) :: pairs) n (c :: cs) n'.

(** An entry of the cache of whole seconds, as the entry [set] stores. *)
Definition as_number {V : Type} (e : CacheManager.Entry (V:=V))
    : CacheManagerNumber.Entry (V:=V) :=
  {| CacheManagerNumber.data := CacheManager.data e;
     CacheManagerNumber.expires :=
       Some (Number.of_Z (CacheManager.expires e)) |}.

(** The value a field takes with its default: the value itself, unless it
    is missing, [null], [false], zero or the empty string. *)
Definition value_or (v d : JsValue) : JsValue :=
  match v with
  | JUndefined | JNull | JBool false | JStr [] => d
  | JNum x => if Number.is_zero x then d else v
  | _ => v
  end.

(** The property [name] of an array element that is not [null]. *)
Definition prop_of (elem : JsValue) (name : jstr) : JsValue :=
  match elem with
  | JObj props => lookup_prop props name
  | _ => JUndefined
  end.

(** The idea built from the element at [index]: the identifier from the
    position, every field with its default. *)
Definition idea_with_defaults (index : nat) (elem : JsValue)
    : Runtime.PostIdea :=
  {| Runtime.idea_id := lit "idea_" ++ Str.of_nat (index + 1);
     Runtime.concept :=
       value_or (prop_of elem (lit "concept"))
         (JStr (lit "Business idea " ++ Str.of_nat (index + 1)));
     Runtime.trend_source :=
       value_or (prop_of elem (lit "trend_source"))
         (JStr (lit "General trend analysis"));
     Runtime.relevance_score :=
       value_or (prop_of elem (lit "relevance_score"))
         (JNum (Number.Finite (1 # 2)));
     Runtime.business_benefit :=
       value_or (prop_of elem (lit "business_benefit"))
         (JStr (lit "Provides engagement opportunity")) |}.

(** The score of the idea converts to the number [x]: it is a number, or
    a string, a boolean or an array that reads as one. *)
Definition score_number (i : Runtime.PostIdea) (x : Number.t) : Prop :=
  to_number (Runtime.relevance_score i) = CNumber x.

Definition has_number (i : Runtime.PostIdea) : Prop := ∃ x, score_number i x.

(** The same of an element of the array, with the default for a score
    that is missing. *)
Definition numeric_score (elem : JsValue) : Prop :=
  ∃ x, to_number (value_or (prop_of elem (lit "relevance_score"))
                    (JNum (Number.Finite (1 # 2)))) = CNumber x.

(** Descending by the number of the relevance score. *)
Definition descending (a b : Runtime.PostIdea) : Prop :=
  ∃ x y, score_number a x ∧ score_number b y ∧ Number.leb y x = true.

(** The arrays a call of the parser may return.  Where the language leaves
    the order to the engine, the array is taken to be the first eight of
    some arrangement of the mapped ideas. *)
Definition may_return (outcome : Runtime.Parsed) (l : list Runtime.PostIdea)
    : Prop :=
  match outcome with
  | Runtime.Array result => l = result
  | Runtime.EngineDefined mapped =>
      ∃ arranged, arranged ≡ₚ mapped ∧ l = take 8 arranged
  end.

(** The image step of [saveCurrentPost] when it starts with [n] external
    calls made: the path it leaves in [imagePath] and the number of calls
    it takes.  It asks the model for a prompt (call [n]), the image
    endpoint for an image (call [n + 1]), downloads it (call [n + 2]) and
    writes it (call [n + 3]); it stops at the first of these that fails,
    and without an API key after the first. *)
Definition imageStep (env : Env) (config : Config) (n : nat)
    : option jstr * nat :=
  match model_reply env n with
  | Rejected _ => (None, 1%nat)
  | Fulfilled _ =>
      if bool_decide (image_runwareApiKey config = []) then (None, 1%nat)
      else
        match runware_reply env (S n) with
        | Rejected _ => (None, 2%nat)
        | Fulfilled _ =>
            match download_error env (S (S n)) with
            | Some _ => (None, 3%nat)
            | None =>
                match fs_error env (S (S (S n))) with
                | Some _ => (None, 4%nat)
                | None =>
                    (Some (lit "current_post/image."
                           ++ Str.toLowerCase (image_outputFormat config)),
                     4%nat)
                end
            end
        end
  end.

(** The post texts written under [logs/post_logs], in the order of the
    writes. *)
Definition logged_posts (w : World) : list jstr :=
  omap (λ ev, match ev with
              | WrotePostLog _ _ postText => Some postText
              | _ => None
              end) (written w).

(** What a loop of the renderer has logged between [w] and [w'] and what it
    has returned: the texts logged are texts returned, in the same order,
    and a returned text that was not logged is the fallback text of one of
    the ideas. *)
Definition log_agrees (ideas : list PostIdea) (w w' : World)
    (cs : list GeneratedContent) : Prop :=
  ∃ logged,
    logged_posts w' = logged_posts w ++ logged
    ∧ logged `sublist_of` (text <$> cs)
    ∧ Forall (λ c, text c ∈ logged
                   ∨ ∃ i, i ∈ ideas
                          ∧ text c = getFallbackContent i (platform c)) cs.

(** The pool [runPipeline] picks keywords from: the entries of
    [config.output.keywords] that are not blank. *)
Definition keywordPool (config : Config) : list jstr :=
  filter (λ k, Str.trim k ≠ []) (output_keywords config).

(** The language model stays within the declared types: no reply of it is
    parsed to ideas that [PostIdea] cannot hold. *)
Definition typed_replies (env : Env) : Prop :=
  ∀ n reply trendsData,
    model_reply env n = Fulfilled reply →
    parsePostIdeasFromResponse reply trendsData ≠ Untyped.

(** The run [m] never leaves the typed records. *)
Definition typed {A} (m : M A) : Prop := ∀ w w', m w ≠ (Untyped_run, w').

(** The keywords step 1 of [runPipeline] selects: those of the command
    line; or the first [keywordsPerRun] of the shuffled pool; or, with an
    empty pool, those parsed from a reply of the model. *)
Definition selected_keywords (env : Env) (config : Config) (options : Options)
    (selected : list jstr) : Prop :=
  match opt_keywords options with
  | Some (k :: ks) => selected = k :: ks
  | _ =>
      if bool_decide (keywordPool config = []) then
        ∃ n reply, model_reply env n = Fulfilled reply
                   ∧ selected = parseKeywordsFromResponse reply
      else
        ∃ n, selected
             = take (Nat.min (output_keywordsPerRun config)
                       (length (keywordPool config)))
                 (shuffle env n (keywordPool config))
  end.

(** The entry [runPipeline] saves as the current post: the first entry for
    twitter, or the first entry of all when none is for twitter. *)
Definition preferred_entry (content : list GeneratedContent)
    (c : GeneratedContent) : Prop :=
  (∃ pre post, content = pre ++ c :: post
               ∧ platform c = lit "twitter"
               ∧ Forall (λ c', platform c' ≠ lit "twitter") pre)
  ∨ (Forall (λ c', platform c' ≠ lit "twitter") content
     ∧ head content = Some c).

(** A successful result, field by field, in terms of the keywords step 1
    selected and the ideas step 3 parsed from a reply of the model. *)
Definition success_result (env : Env) (config : Config) (options : Options)
    (r : PipelineResult) : Prop :=
  let businessData := mergeBusinessData config options in
  let platforms := default (output_platforms config) (opt_platforms options) in
  ∃ selected ideas,
    status r = StatusSuccess
    ∧ error r = None
    ∧ business r = businessOf businessData
    ∧ selected_keywords env config options selected
    ∧ keywords r
      = take (output_maxKeywords config)
          (keywordsAfterAdapters config selected)
    ∧ keywordCount (meta r) = length selected
    ∧ (∃ n reply, model_reply env n = Fulfilled reply
                  ∧ parsePostIdeasFromResponse reply (trends r) = Ideas ideas)
    ∧ postIdeas r = take (output_maxPostIdeas config) ideas
    ∧ ideasGenerated (meta r) = length ideas
    ∧ (if skipContent options then content r = []
       else ∃ n n',
              renders env businessData
                (i ← take (output_maxContentPerIdea config) ideas;
                 (λ p, (i, p)) <$> platforms)
                n (content r) n')
    ∧ contentPieces (meta r) = length (content r)
    ∧ match content r with
      | [] => currentPost r = None
      | _ :: _ =>
          ∃ cp c, currentPost r = Some cp
                  ∧ preferred_entry (content r) c
                  ∧ cp_platform cp = platform c
                  ∧ cp_text cp = text c
                  ∧ cp_idea cp = idea c
      end
    ∧ sourcesUsed (meta r) = configuredSources config.

(** Every value the run [m] can return satisfies [P]. *)
Definition ensures {A} (m : M A) (P : A → Prop) : Prop :=
  ∀ w a w', m w = (Returns a, w') → P a.


(* ===================================================================== *)
(** * Properties                                                          *)
(* ===================================================================== *)

(** ** Strings ordered by code units *)

Lemma leb_total (a b : jstr) : Str.leb a b = true ∨ Str.leb b a = true.
Proof.
  revert b. induction a as [|x a IH]; intros [|y b]; simpl; auto.
  destruct (N.lt_trichotomy x y) as [Hlt|[->|Hgt]].
  - left. apply N.ltb_lt in Hlt. by rewrite Hlt.
  - rewrite N.eqb_refl, N.ltb_irrefl. simpl. apply IH.
  - right. apply N.ltb_lt in Hgt. by rewrite Hgt.
Qed.

Lemma leb_antisym (a b : jstr) :
  Str.leb a b = true → Str.leb b a = true → a = b.
Proof.
  revert b. induction a as [|x a IH]; intros [|y b]; simpl; try done.
  intros H1 H2.
  apply orb_true_iff in H1 as [H1|H1]; apply orb_true_iff in H2 as [H2|H2].
  - apply N.ltb_lt in H1, H2. lia.
  - apply N.ltb_lt in H1. apply andb_true_iff in H2 as [H2 _].
    apply N.eqb_eq in H2. lia.
  - apply N.ltb_lt in H2. apply andb_true_iff in H1 as [H1 _].
    apply N.eqb_eq in H1. lia.
  - apply andb_true_iff in H1 as [H1 H1'], H2 as [_ H2'].
    apply N.eqb_eq in H1 as ->. f_equal. by apply IH.
Qed.

Lemma leb_trans (a b c : jstr) :
  Str.leb a b = true → Str.leb b c = true → Str.leb a c = true.
Proof.
  revert b c. induction a as [|x a IH]; intros [|y b] [|z c]; simpl; try done.
  intros H1 H2. apply orb_true_iff.
  apply orb_true_iff in H1 as [H1|H1]; apply orb_true_iff in H2 as [H2|H2].
  - left. apply N.ltb_lt in H1, H2. apply N.ltb_lt. lia.
  - left. apply N.ltb_lt in H1. apply andb_true_iff in H2 as [H2 _].
    apply N.eqb_eq in H2. apply N.ltb_lt. lia.
  - left. apply N.ltb_lt in H2. apply andb_true_iff in H1 as [H1 _].
    apply N.eqb_eq in H1. apply N.ltb_lt. lia.
  - right. apply andb_true_iff in H1 as [H1 H1'], H2 as [H2 H2'].
    apply N.eqb_eq in H1 as ->. rewrite H2. simpl. by eapply IH.
Qed.

(** ** Numbers *)

Lemma nearest_even_integer (x : Q) (m : Z) :
  x == inject_Z m → Number.nearest_even x = m.
Proof.
  destruct x as [n d]. unfold Qeq, Number.nearest_even. simpl.
  rewrite Z.mul_1_r. intros ->.
  rewrite Z.div_mul by done. rewrite Z.mod_mul by done.
  simpl. by destruct (0 <? Z.pos d) eqn:H; [|apply Z.ltb_ge in H; lia].
Qed.

Lemma Qred_inject_Z (q : Q) (z : Z) : q == inject_Z z → Qred q = inject_Z z.
Proof.
  intros H. rewrite (Qred_complete _ _ H). unfold inject_Z.
  apply Qred_identity. simpl. apply Z.gcd_1_r.
Qed.

Lemma pow2_scale (z k : Z) :
  0 <= k →
  inject_Z z / Number.pow2 (- k) == inject_Z (z * 2 ^ k)
  ∧ inject_Z (z * 2 ^ k) * Number.pow2 (- k) == inject_Z z.
Proof.
  intros Hk. unfold Number.pow2.
  assert (Hpow : 0 < 2 ^ k) by (apply Z.pow_pos_nonneg; lia).
  destruct (Z.leb_spec 0 (- k)) as [H|H].
  - assert (k = 0) as -> by lia. simpl. unfold Qeq, Qdiv, Qmult, Qinv. simpl.
    split; lia.
  - rewrite Z.opp_involutive.
    destruct (2 ^ k) as [|c|c] eqn:Hc; [lia| |lia].
    unfold Qeq, Qdiv, Qmult, Qinv. simpl. split; lia.
Qed.

Lemma round_positive_Z (p : positive) :
  Z.pos p < 2 ^ 53 →
  Number.round_positive (inject_Z (Z.pos p))
  = Number.Finite (inject_Z (Z.pos p)).
Proof.
  intros Hp. unfold Number.round_positive.
  assert (He : Number.ilog2 (inject_Z (Z.pos p)) = Z.log2 (Z.pos p)).
  { unfold Number.ilog2. simpl Qnum. simpl Qden.
    change (Z.log2 1) with 0. rewrite Z.sub_0_r.
    assert (H0 : 0 <= Z.log2 (Z.pos p)) by apply Z.log2_nonneg.
    unfold Number.pow2. apply Z.leb_le in H0 as ->.
    assert (Hle : (inject_Z (2 ^ Z.log2 (Z.pos p)) <= inject_Z (Z.pos p))%Q).
    { rewrite <-Zle_Qle. apply Z.log2_spec. lia. }
    apply Qle_bool_iff in Hle. by rewrite Hle. }
  rewrite He.
  assert (Hlog : 0 <= Z.log2 (Z.pos p) <= 52).
  { split; [apply Z.log2_nonneg|].
    assert (Z.log2 (Z.pos p) < 53); [|lia].
    apply Z.log2_lt_pow2; lia. }
  rewrite Z.max_l by lia.
  set (k := 52 - Z.log2 (Z.pos p)).
  replace (Z.log2 (Z.pos p) - 52) with (- k) by lia.
  assert (Hk : 0 <= k) by lia.
  destruct (pow2_scale (Z.pos p) k Hk) as [Hm Hr].
  rewrite (nearest_even_integer _ _ Hm).
  rewrite (Qred_inject_Z _ _ Hr).
  assert (Hlt : ¬ (Number.pow2 1024 <= inject_Z (Z.pos p))%Q).
  { change (Number.pow2 1024) with (inject_Z (2 ^ 1024)). rewrite <-Zle_Qle.
    assert (2 ^ 53 < 2 ^ 1024) by (apply Z.pow_lt_mono_r; lia). lia. }
  rewrite <-Qle_bool_iff in Hlt. by apply not_true_is_false in Hlt as ->.
Qed.

(** An integer below [2^53] in size is a Number: it is not rounded. *)
Lemma round_Z (z : Z) :
  Z.abs z < 2 ^ 53 → Number.of_Z z = Number.Finite (inject_Z z).
Proof.
  intros Hz. unfold Number.of_Z, Number.round.
  destruct z as [|p|p]; simpl Qnum.
  - done.
  - apply round_positive_Z. lia.
  - change (- inject_Z (Z.neg p))%Q with (inject_Z (Z.pos p)).
    rewrite round_positive_Z by lia. done.
Qed.

Lemma number_leb_total (x y : Number.t) :
  Number.leb x y = true ∨ Number.leb y x = true.
Proof.
  unfold Number.leb, Number.ltb.
  destruct x as [a|[]], y as [b|[]]; simpl; auto.
  rewrite !negb_involutive, !Qle_bool_iff.
  destruct (Qlt_le_dec a b); [left|right]; auto using Qlt_le_weak.
Qed.

Lemma number_leb_trans (x y z : Number.t) :
  Number.leb x y = true → Number.leb y z = true → Number.leb x z = true.
Proof.
  unfold Number.leb, Number.ltb.
  destruct x as [a|[]], y as [b|[]], z as [c|[]]; simpl; try done.
  rewrite !negb_involutive, !Qle_bool_iff. apply Qle_trans.
Qed.

(** ** The sort *)

Section js_sort_properties.
Context {A : Type} (le : A → A → bool).

Lemma sort_insert_Permutation (x : A) (l : list A) :
  sort_insert le x l ≡ₚ x :: l.
Proof.
  induction l as [|y l IH]; simpl; [done|].
  destruct (le x y); [done|]. rewrite IH. apply Permutation_swap.
Qed.

Lemma js_sort_Permutation (l : list A) : js_sort le l ≡ₚ l.
Proof.
  induction l as [|x l IH]; simpl; [done|].
  by rewrite sort_insert_Permutation, IH.
Qed.

Lemma js_sort_length (l : list A) : length (js_sort le l) = length l.
Proof. apply Permutation_length, js_sort_Permutation. Qed.

Context (le_total : ∀ a b, le a b = true ∨ le b a = true).
Context (le_trans : ∀ a b c, le a b = true → le b c = true → le a c = true).

Lemma sort_insert_sorted (x : A) (l : list A) :
  StronglySorted (λ a b, le a b = true) l →
  StronglySorted (λ a b, le a b = true) (sort_insert le x l).
Proof using le_total le_trans.
  induction 1 as [|y l Hl IH Hy]; simpl.
  { repeat constructor. }
  destruct (le x y) eqn:Hxy.
  - constructor; [by constructor|]. constructor; [done|].
    eapply Forall_impl; [exact Hy|]. intros z Hz. by eapply le_trans.
  - constructor; [done|].
    rewrite sort_insert_Permutation. constructor; [|done].
    destruct (le_total x y); congruence.
Qed.

Lemma js_sort_sorted (l : list A) :
  StronglySorted (λ a b, le a b = true) (js_sort le l).
Proof using le_total le_trans.
  induction l as [|x l IH]; simpl; [constructor|].
  by apply sort_insert_sorted.
Qed.

End js_sort_properties.

(** ** The cache: [get] and [set] *)

Section cache_get_set.
Context {V : Type} (null : V).
Implicit Types (cache : gmap (list N) (CacheManager.Entry (V:=V))).

Lemma get_live cache k e (now : Z) :
  cache !! k = Some e → CacheManager.expires e > now →
  CacheManager.get null now k cache = (CacheManager.data e, cache).
Proof.
  intros Hk He. unfold CacheManager.get. rewrite Hk.
  by rewrite bool_decide_eq_true_2.
Qed.

Lemma get_expired cache k e (now : Z) :
  cache !! k = Some e → CacheManager.expires e ≤ now →
  CacheManager.get null now k cache = (null, delete k cache).
Proof.
  intros Hk He. unfold CacheManager.get. rewrite Hk.
  rewrite bool_decide_eq_false_2; [done|lia].
Qed.

End cache_get_set.

(** *** The cache for any time-to-live *)

Lemma of_Z_ltb (a b : Z) :
  Z.abs a < 2 ^ 53 → Z.abs b < 2 ^ 53 →
  Number.ltb (Number.of_Z a) (Number.of_Z b) = bool_decide (a < b).
Proof.
  intros Ha Hb. rewrite !round_Z by done. unfold Number.ltb.
  case_bool_decide as H.
  - apply negb_true_iff, not_true_is_false.
    rewrite Qle_bool_iff, <-Zle_Qle. lia.
  - apply negb_false_iff. rewrite Qle_bool_iff, <-Zle_Qle. lia.
Qed.

(** For whole seconds the expiry is the integer [now + ttl * 1000]. *)
Lemma expiry_whole_seconds (now ttl : Z) :
  Z.abs ttl < 2 ^ 53 → Z.abs (ttl * 1000) < 2 ^ 53 → Z.abs now < 2 ^ 53 →
  Z.abs (now + ttl * 1000) < 2 ^ 53 →
  CacheManagerNumber.expiry now (Some (Number.of_Z ttl))
  = Some (Number.of_Z (now + ttl * 1000)).
Proof.
  intros Httl Hms Hnow Hsum. unfold CacheManagerNumber.expiry.
  rewrite (round_Z ttl), (round_Z now) by done.
  cbn [mbind option_bind Number.mul].
  change (inject_Z ttl * 1000)%Q with (inject_Z (ttl * 1000)).
  change (Number.round (inject_Z (ttl * 1000)))
    with (Number.of_Z (ttl * 1000)).
  rewrite (round_Z (ttl * 1000)) by done.
  cbn [mbind option_bind Number.add]. do 2 f_equal.
  unfold Qplus, inject_Z. simpl. by rewrite !Z.mul_1_r.
Qed.

(** The cache of whole seconds is the cache as written, while the times
    are integers below [2^53]. *)
Lemma set_whole_seconds {V : Type}
    (cache : gmap (list N) (CacheManager.Entry (V:=V)))
    (now : Z) (k : jstr) (d : V) (ttl : Z) :
  Z.abs ttl < 2 ^ 53 → Z.abs (ttl * 1000) < 2 ^ 53 → Z.abs now < 2 ^ 53 →
  Z.abs (now + ttl * 1000) < 2 ^ 53 →
  CacheManagerNumber.set now k d (Some (Number.of_Z ttl)) (as_number <$> cache)
  = as_number <$> CacheManager.set now k d ttl cache.
Proof.
  intros. unfold CacheManagerNumber.set, CacheManager.set.
  rewrite fmap_insert, expiry_whole_seconds by done. done.
Qed.

Lemma get_whole_seconds {V : Type} (null : V)
    (cache : gmap (list N) (CacheManager.Entry (V:=V)))
    (now : Z) (k : jstr) :
  Z.abs now < 2 ^ 53 →
  (∀ e, cache !! k = Some e → Z.abs (CacheManager.expires e) < 2 ^ 53) →
  CacheManagerNumber.get null now k (as_number <$> cache)
  = ((CacheManager.get null now k cache).1,
     as_number <$> (CacheManager.get null now k cache).2).
Proof.
  intros Hnow Hexp. unfold CacheManagerNumber.get, CacheManager.get.
  rewrite lookup_fmap. destruct (cache !! k) as [e|] eqn:Hk; [|done].
  simpl. rewrite of_Z_ltb by auto.
  rewrite (bool_decide_ext (now < CacheManager.expires e)
             (CacheManager.expires e > now)) by lia.
  case_bool_decide; [done|]. simpl. by rewrite fmap_delete.
Qed.

(** C8 (as amended).  [set] stores the value with the expiry time that
    [Date.now() + ttlSeconds * 1000] evaluates to.  When that is a number
    above [Date.now()], a [get] at the moment of the [set], and at every
    moment before the expiry time, returns the value stored and leaves
    the map as it is; a [get] at or after the expiry time returns [null]
    and the map it leaves has no entry for the key.  A whole number of
    seconds from 1 on gives the expiry time [now + ttl * 1000] exactly,
    which is above [Date.now()]. *)
Theorem cache_set_then_get {V : Type} (null : V)
    (cache : gmap (list N) (CacheManagerNumber.Entry (V:=V)))
    (k : jstr) (v : V) (now : Z) :
  (∀ ttlSeconds e,
     CacheManagerNumber.expiry now ttlSeconds = Some e →
     Number.ltb (Number.of_Z now) e = true →
     let stored := CacheManagerNumber.set now k v ttlSeconds cache in
     CacheManagerNumber.get null now k stored = (v, stored)
     ∧ (∀ now', Number.ltb (Number.of_Z now') e = true →
          CacheManagerNumber.get null now' k stored = (v, stored))
     ∧ (∀ now', Number.ltb (Number.of_Z now') e = false →
          (CacheManagerNumber.get null now' k stored).1 = null
          ∧ (CacheManagerNumber.get null now' k stored).2 !! k = None
          ∧ (CacheManagerNumber.get null now' k stored).2 = delete k cache))
  ∧ (∀ ttl : Z,
       0 ≤ now → 1 ≤ ttl → now + ttl * 1000 < 2 ^ 53 →
       let stored :=
         CacheManagerNumber.set now k v (Some (Number.of_Z ttl)) cache in
       CacheManagerNumber.get null now k stored = (v, stored)
       ∧ (∀ now', now ≤ now' < now + ttl * 1000 →
            CacheManagerNumber.get null now' k stored = (v, stored))
       ∧ (∀ now', now + ttl * 1000 ≤ now' < 2 ^ 53 →
            (CacheManagerNumber.get null now' k stored).1 = null
            ∧ (CacheManagerNumber.get null now' k stored).2 !! k = None
            ∧ (CacheManagerNumber.get null now' k stored).2
              = delete k cache)).
Proof.
  assert (Hgen : ∀ ttlSeconds e,
     CacheManagerNumber.expiry now ttlSeconds = Some e →
     let stored := CacheManagerNumber.set now k v ttlSeconds cache in
     (∀ now', Number.ltb (Number.of_Z now') e = true →
        CacheManagerNumber.get null now' k stored = (v, stored))
     ∧ (∀ now', Number.ltb (Number.of_Z now') e = false →
          (CacheManagerNumber.get null now' k stored).1 = null
          ∧ (CacheManagerNumber.get null now' k stored).2 !! k = None
          ∧ (CacheManagerNumber.get null now' k stored).2 = delete k cache)).
  { intros ttlSeconds e He stored.
    assert (Hk : stored !! k
                 = Some {| CacheManagerNumber.data := v;
                           CacheManagerNumber.expires := Some e |}).
    { unfold stored, CacheManagerNumber.set. rewrite He.
      apply lookup_insert_eq. }
    split; intros now' Hnow'; unfold CacheManagerNumber.get; rewrite Hk;
      simpl; rewrite Hnow'; [done|]. simpl.
    split; [done|]. split; [apply lookup_delete_eq|].
    unfold stored, CacheManagerNumber.set. apply delete_insert_eq. }
  split.
  - intros ttlSeconds e He Hlive stored.
    destruct (Hgen ttlSeconds e He) as [Hbefore Hafter]. auto.
  - intros ttl Hnow Httl Hsum stored.
    assert (Hpow : 2 ^ 53 = 9007199254740992) by reflexivity.
    assert (He : CacheManagerNumber.expiry now (Some (Number.of_Z ttl))
                 = Some (Number.of_Z (now + ttl * 1000)))
      by (apply expiry_whole_seconds; lia).
    destruct (Hgen _ _ He) as [Hbefore Hafter].
    split; [|split].
    + apply Hbefore. rewrite of_Z_ltb by lia. apply bool_decide_eq_true. lia.
    + intros now' Hnow'. apply Hbefore. rewrite of_Z_ltb by lia.
      apply bool_decide_eq_true. lia.
    + intros now' Hnow'. apply Hafter. rewrite of_Z_ltb by lia.
      apply bool_decide_eq_false. lia.
Qed.

(** C8, the claim as stated, fails for a time-to-live of zero and for a
    positive one of a hundredth of a microsecond.  With zero the entry is
    stored with [expires = Date.now()]; with [1e-8] the sum
    [Date.now() + 0.00001] rounds back to [Date.now()].  The test
    [expires > Date.now()] is false in the same millisecond, and [get]
    returns [null] and evicts. *)
Lemma cache_zero_ttl_reads_null :
  let k := lit "google-trends:keywords:btc|location:Global" in
  let v := JArr [JStr (lit "btc price")] in
  let now := 1700000000000 in
  let tiny := Number.round (1 # 100000000) in
  (CacheManagerNumber.get JNull now k
     (CacheManagerNumber.set now k v (Some (Number.Finite 0)) ∅)).1 = JNull
  ∧ (CacheManagerNumber.get JNull now k
       (CacheManagerNumber.set now k v (Some (Number.Finite 0)) ∅)).1 ≠ v
  ∧ Number.of_string (lit "1e-8") = Some tiny
  ∧ Number.ltb (Number.Finite 0) tiny = true
  ∧ CacheManagerNumber.expiry now (Some tiny) = Some (Number.of_Z now)
  ∧ (CacheManagerNumber.get JNull now k
       (CacheManagerNumber.set now k v (Some tiny) ∅)).1 = JNull
  ∧ (CacheManagerNumber.get JNull now k
       (CacheManagerNumber.set now k v (Some tiny) ∅)).1 ≠ v.
Proof.
  intros k v now tiny.
  assert (H0 : (CacheManagerNumber.get JNull now k
     (CacheManagerNumber.set now k v (Some (Number.Finite 0)) ∅)).1 = JNull).
  { unfold CacheManagerNumber.get, CacheManagerNumber.set.
    rewrite lookup_insert_eq. by vm_compute. }
  assert (He : CacheManagerNumber.expiry now (Some tiny)
               = Some (Number.of_Z now)) by (by vm_compute).
  assert (H1 : (CacheManagerNumber.get JNull now k
     (CacheManagerNumber.set now k v (Some tiny) ∅)).1 = JNull).
  { unfold CacheManagerNumber.get, CacheManagerNumber.set.
    rewrite lookup_insert_eq, He. by vm_compute. }
  split; [exact H0|]. split; [by rewrite H0|].
  split; [by vm_compute|]. split; [by vm_compute|].
  split; [exact He|]. split; [exact H1|by rewrite H1].
Qed.

Lemma cache_set_then_get_witness :
  let k := lit "coingecko:trending" in
  let v := JArr [JStr (lit "BTC")] in
  let now := 1700000000000 in
  let stored :=
    CacheManagerNumber.set now k v (Some (Number.of_Z 7200)) ∅ in
  CacheManagerNumber.get JNull now k stored = (v, stored)
  ∧ CacheManagerNumber.get JNull (now + 5000) k stored = (v, stored)
  ∧ (CacheManagerNumber.get JNull (now + 7200000) k stored).1 = JNull
  ∧ (CacheManagerNumber.get JNull (now + 7200000) k stored).2 !! k = None.
Proof.
  intros k v now stored.
  destruct (cache_set_then_get JNull ∅ k v now) as [_ Hwhole].
  destruct (Hwhole 7200) as (Hnow & Hlive & Hdead);
    [unfold now; lia..|].
  split; [exact Hnow|].
  split; [apply Hlive; unfold now; lia|].
  destruct (Hdead (now + 7200000)) as (Hnull & Hgone & _);
    [unfold now; lia|].
  split; [exact Hnull|exact Hgone].
Defined.

(** ** The cache: [generateKey] *)

Section cache_generateKey.
Context {V : Type} (toStr : V → jstr).
Implicit Types (params : list (jstr * V)).

Lemma property_Some params k v :
  NoDup params.*1 →
  CacheManager.property params k = Some v ↔ (k, v) ∈ params.
Proof.
  induction params as [|[k' v'] params IH]; simpl; intros Hnd.
  { split; [done|]. by intros ?%elem_of_nil. }
  apply NoDup_cons in Hnd as [Hk' Hnd].
  destruct (decide (k' = k)) as [->|Hne].
  - split.
    + intros [= ->]. left.
    + intros [[= ->]|Hin]%elem_of_cons; [done|].
      destruct Hk'. apply list_elem_of_fmap. by exists (k, v).
  - rewrite IH by done. split.
    + by right.
    + intros [[= -> ->]|Hin]%elem_of_cons; done.
Qed.

Lemma property_Permutation params1 params2 k :
  NoDup params1.*1 → params1 ≡ₚ params2 →
  CacheManager.property params1 k = CacheManager.property params2 k.
Proof.
  intros Hnd Hp.
  assert (Hnd2 : NoDup params2.*1) by (by rewrite <-Hp).
  apply option_eq. intros v.
  rewrite !property_Some by done. by rewrite Hp.
Qed.

Lemma sorted_keys_Permutation (keys1 keys2 : list jstr) :
  keys1 ≡ₚ keys2 → js_sort Str.leb keys1 = js_sort Str.leb keys2.
Proof.
  intros Hp.
  apply (StronglySorted_unique_strong (λ a b, Str.leb a b = true)).
  - intros x1 x2 _ _. apply leb_antisym.
  - apply js_sort_sorted; [apply leb_total|apply leb_trans].
  - apply js_sort_sorted; [apply leb_total|apply leb_trans].
  - by rewrite !js_sort_Permutation.
Qed.

(** C9.  [generateKey] does not depend on the order in which the
    properties of [params] were inserted: two objects holding the same
    (name, value) pairs, each name once, give the same key; so do two
    calls on the same object. *)
Theorem generateKey_insertion_order (prefix : jstr) params1 params2 :
  NoDup params1.*1 → params1 ≡ₚ params2 →
  CacheManager.generateKey toStr prefix params1
  = CacheManager.generateKey toStr prefix params2.
Proof.
  intros Hnd Hp. unfold CacheManager.generateKey.
  rewrite (sorted_keys_Permutation params1.*1 params2.*1) by (by rewrite Hp).
  do 3 f_equal. apply list_fmap_ext. intros _ key _.
  by rewrite (property_Permutation params1 params2).
Qed.

End cache_generateKey.

Lemma generateKey_insertion_order_witness :
  let params1 := [(lit "location", lit "Global"); (lit "keywords", lit "btc,eth")] in
  let params2 := [(lit "keywords", lit "btc,eth"); (lit "location", lit "Global")] in
  NoDup params1.*1 ∧ params1 ≡ₚ params2
  ∧ CacheManager.generateKey (λ v, v) (lit "google-trends") params1
    = CacheManager.generateKey (λ v, v) (lit "google-trends") params2.
Proof.
  intros params1 params2.
  assert (Hnd : NoDup params1.*1).
  { apply (bool_decide_unpack (NoDup params1.*1)). vm_compute. exact I. }
  assert (Hp : params1 ≡ₚ params2) by apply Permutation_swap.
  split; [exact Hnd|]. split; [exact Hp|].
  exact (generateKey_insertion_order (λ v, v) (lit "google-trends")
           params1 params2 Hnd Hp).
Defined.

(** C10.  [generateKey] is not injective: for every prefix the object
    [{a: "1|b:2"}] and the object [{a: "1", b: "2"}] give the same key,
    because names and values are joined with ':' and '|' unescaped. *)
Theorem generateKey_not_injective (prefix : jstr) :
  let params1 := [(lit "a", lit "1|b:2")] in
  let params2 := [(lit "a", lit "1"); (lit "b", lit "2")] in
  params1 ≠ params2
  ∧ CacheManager.generateKey (λ v, v) prefix params1
    = CacheManager.generateKey (λ v, v) prefix params2
  ∧ CacheManager.generateKey (λ v, v) prefix params1
    = prefix ++ lit ":a:1|b:2".
Proof.
  intros params1 params2. split; [done|].
  unfold CacheManager.generateKey. split; do 2 f_equal.
Qed.

(** ** The trend aggregator *)

(** Unfolding the sequencing of runs. *)
Lemma run_bind {A B} (m : M A) (k : A → M B) (w : World) :
  (m ≫= k) w =
  match m w with
  | (Returns a, w') => k a w'
  | (Throws e, w') => (Throws e, w')
  | (Untyped_run, w') => (Untyped_run, w')
  end.
Proof. reflexivity. Qed.


(** C1.  Whatever the five adapters settle with, and whichever of the three
    gated sources are switched off, [analyzeTrends] returns a snapshot (it
    does not throw): the list of a source is the value its adapter
    fulfilled with when the adapter was called and fulfilled, and is empty
    when the adapter rejected or the source is switched off. *)
Theorem analyzeTrends_all_settled (env : Env) (config : Config)
    (keywords : list jstr) (businessData : BusinessData) (logger : bool)
    (w : World) :
  ∃ trendsData w',
    analyzeTrends env config keywords businessData logger w
      = (Returns trendsData, w')
    ∧ google trendsData =
        (if sources_googleTrends config then
           match getAutocompleteSuggestions env (calls w) with
           | Fulfilled value => value
           | Rejected _ => []
           end
         else [])
    ∧ xcom trendsData =
        (if sources_xcom config then
           match getUKTrends env (calls w) with
           | Fulfilled value => value
           | Rejected _ => []
           end
         else [])
    ∧ coingecko trendsData =
        (if sources_coingecko config then
           match getTrendingCoins env (calls w) with
           | Fulfilled value => value
           | Rejected _ => []
           end
         else [])
    ∧ reddit trendsData =
        match getRelevantDiscussions env (calls w) with
        | Fulfilled value => value
        | Rejected _ => []
        end
    ∧ news trendsData =
        match getRelevantArticles env (calls w) with
        | Fulfilled value => value
        | Rejected _ => []
        end.
Proof.
  unfold analyzeTrends.
  destruct logger; (eexists _, _; split; [reflexivity|]); simpl;
    unfold launch, value_or_empty;
    by destruct (sources_googleTrends config), (sources_xcom config),
      (sources_coingecko config).
Qed.

(** ** The content renderer: one entry per pair *)

Lemma fallback_text (i : PostIdea) (p : jstr) :
  p ∉ objectPrototypeNames →
  RuntimeContent.getFallbackContent i p = FallbackText (getFallbackContent i p).
Proof.
  intros Hp. unfold getFallbackContent, RuntimeContent.getFallbackContent.
  repeat case_bool_decide; done.
Qed.

Section renderer.
Context (env : Env) (businessData : BusinessData).

(** The [try] of a pair, call by call. *)
Lemma generateContentForPlatform_run (i : PostIdea) (p : jstr) (w : World) :
  match model_reply env (S (calls w)) with
  | Rejected e =>
      generateContentForPlatform env businessData i p w
      = (Throws e, advance env (advance env w))
  | Fulfilled reply =>
      match fs_error env (S (S (calls w))) with
      | Some e =>
          generateContentForPlatform env businessData i p w
          = (Throws e, advance env (advance env (advance env w)))
      | None =>
          match fs_error env (S (S (S (calls w)))) with
          | Some e =>
              ∃ w', generateContentForPlatform env businessData i p w
                    = (Throws e, w')
                    ∧ calls w' = (calls w + 4)%nat
          | None =>
              ∃ w', generateContentForPlatform env businessData i p w
                    = (Returns (cleanupGeneratedContent reply p), w')
                    ∧ calls w' = (calls w + 4)%nat
          end
      end
  end.
Proof.
  unfold generateContentForPlatform. rewrite run_bind.
  unfold getRecentPostSnippets.
  assert (Hsnip : ∃ snippets,
    (match fs_error env (calls w) with
     | Some _ => (Returns [], advance env w)
     | None => (Returns (Str.trim <$> last_n 10 (post_logs w)), advance env w)
     end) = (Returns snippets, advance env w)).
  { destruct (fs_error env (calls w)); eauto. }
  destruct Hsnip as [snippets ->].
  rewrite run_bind. unfold makeRequest, await.
  change (calls (advance env w)) with (S (calls w)).
  destruct (model_reply env (S (calls w))) as [reply|e]; [|done].
  rewrite run_bind. unfold logPost. rewrite run_bind. unfold fs_write.
  change (calls (advance env (advance env w))) with (S (S (calls w))).
  destruct (fs_error env (S (S (calls w)))) as [e|]; [done|].
  change (calls (record_write _ (advance env (advance env (advance env w)))))
    with (S (S (S (calls w)))).
  destruct (fs_error env (S (S (S (calls w))))) as [e|].
  - eexists. split; [reflexivity|]. simpl. lia.
  - eexists. split; [reflexivity|]. simpl. lia.
Qed.

(** The [catch] of [render_pair] pushes the fallback entry whenever the
    [try] throws, whichever of its calls threw. *)
Lemma render_pair_catches (i : PostIdea) (p : jstr)
    (acc : list GeneratedContent) (w w' : World) (e : Error) :
  p ∉ objectPrototypeNames →
  generateContentForPlatform env businessData i p w = (Throws e, w') →
  render_pair env businessData i p acc w
  = (Returns (acc ++ [fallback_entry businessData i p]), w').
Proof.
  intros Hp H. unfold render_pair, try_catch.
  rewrite run_bind, H, (fallback_text i p Hp). reflexivity.
Qed.

Lemma render_pair_returns (i : PostIdea) (p : jstr)
    (acc : list GeneratedContent) (w w' : World) (cleaned : jstr) :
  generateContentForPlatform env businessData i p w = (Returns cleaned, w') →
  render_pair env businessData i p acc w
  = (Returns (acc ++ [{| idea := concept i; platform := p; text := cleaned;
                         strategy := strategy_of businessData |}]), w').
Proof.
  intros H. unfold render_pair, try_catch. rewrite run_bind, H. reflexivity.
Qed.

Lemma render_pair_pushes (i : PostIdea) (p : jstr)
    (acc : list GeneratedContent) (w : World) :
  p ∉ objectPrototypeNames →
  ∃ c used w',
    render_pair env businessData i p acc w = (Returns (acc ++ [c]), w')
    ∧ pair_entry env businessData i p (calls w) c used
    ∧ calls w' = (calls w + used)%nat.
Proof.
  intros Hp. pose proof (generateContentForPlatform_run i p w) as Hrun.
  destruct (model_reply env (S (calls w))) as [reply|e] eqn:Hmodel.
  - destruct (fs_error env (S (S (calls w)))) as [e|] eqn:Hmkdir.
    + eexists _, _, _. split; [by eapply render_pair_catches|].
      split; [by eapply entry_log_mkdir_failed|]. simpl. lia.
    + destruct (fs_error env (S (S (S (calls w))))) as [e|] eqn:Hwrite.
      * destruct Hrun as (w' & Hrun & Hcalls).
        eexists _, _, _. split; [by eapply render_pair_catches|].
        split; [by eapply entry_log_write_failed|]. done.
      * destruct Hrun as (w' & Hrun & Hcalls).
        eexists _, _, _. split; [by eapply render_pair_returns|].
        split; [by eapply entry_rendered|]. done.
  - eexists _, _, _. split; [by eapply render_pair_catches|].
    split; [by eapply entry_model_rejected|]. simpl. lia.
Qed.

Lemma inner_loop (i : PostIdea) (platforms : list jstr)
    (acc : list GeneratedContent) (w : World) :
  Forall (λ p, p ∉ objectPrototypeNames) platforms →
  ∃ cs w',
    for_of platforms (render_pair env businessData i) acc w
      = (Returns (acc ++ cs), w')
    ∧ renders env businessData ((λ p, (i, p)) <$> platforms) (calls w) cs
        (calls w').
Proof.
  intros Hall. revert acc w.
  induction Hall as [|p platforms Hp Hall IH]; intros acc w; simpl.
  { exists [], w. rewrite app_nil_r. split; [done|constructor]. }
  destruct (render_pair_pushes i p acc w Hp) as (c & used & w1 & Hc & He & Hn).
  destruct (IH (acc ++ [c]) w1) as (cs & w' & Hcs & Hrest).
  exists (c :: cs), w'. split.
  - rewrite run_bind, Hc, Hcs. by rewrite <-app_assoc.
  - econstructor; [exact He|]. by rewrite <-Hn.
Qed.

Lemma renders_app (pairs1 pairs2 : list (PostIdea * jstr)) (n1 n2 n3 : nat)
    (cs1 cs2 : list GeneratedContent) :
  renders env businessData pairs1 n1 cs1 n2 →
  renders env businessData pairs2 n2 cs2 n3 →
  renders env businessData (pairs1 ++ pairs2) n1 (cs1 ++ cs2) n3.
Proof.
  induction 1 as [|i p pairs n c used cs n' He Hrest IH]; [done|].
  intros H2. simpl. econstructor; [exact He|]. by apply IH.
Qed.

Lemma outer_loop (ideas : list PostIdea) (platforms : list jstr)
    (acc : list GeneratedContent) (w : World) :
  Forall (λ p, p ∉ objectPrototypeNames) platforms →
  ∃ cs w',
    for_of ideas (λ i, for_of platforms (render_pair env businessData i)) acc w
      = (Returns (acc ++ cs), w')
    ∧ renders env businessData (i ← ideas; (λ p, (i, p)) <$> platforms)
        (calls w) cs (calls w').
Proof.
  intros Hall. revert acc w.
  induction ideas as [|i ideas IH]; intros acc w; simpl.
  { exists [], w. rewrite app_nil_r. split; [done|constructor]. }
  destruct (inner_loop i platforms acc w Hall) as (cs1 & w1 & H1 & Hr1).
  destruct (IH (acc ++ cs1) w1) as (cs2 & w' & H2 & Hr2).
  exists (cs1 ++ cs2), w'. split; [|by eapply renders_app].
  rewrite run_bind, H1, H2. by rewrite <-app_assoc.
Qed.





End renderer.

(** C6, at the failing input: the one platform is [constructor], a name
    every object inherits, and the model call of the pair rejects.  The
    value [getFallbackContent] returns is the inherited property, the
    function [Object]: no text, and not built from the concept.  For a
    name that is no property at all, [tiktok], the same call returns the
    text of the twitter template, and the entry of the pair carries it. *)
Theorem generatePlatformContent_inherited_platform :
  let businessData := mergeBusinessData exampleConfig noOptions in
  model_reply modelDown (S (calls startOfRun)) = Rejected networkDown
  ∧ RuntimeContent.getFallbackContent longIdea (lit "constructor")
    = InheritedProperty (lit "constructor")
  ∧ RuntimeContent.getFallbackContent longIdea (lit "__proto__")
    = InheritedProperty (lit "__proto__")
  ∧ (generatePlatformContent modelDown businessData [longIdea]
       [lit "constructor"] startOfRun).1 = Untyped_run
  ∧ RuntimeContent.getFallbackContent longIdea (lit "tiktok")
    = FallbackText (fallback_twitter (concept longIdea))
  ∧ (generatePlatformContent modelDown businessData [longIdea]
       [lit "tiktok"] startOfRun).1
    = Returns [ {| idea := concept longIdea; platform := lit "tiktok";
                   text := fallback_twitter (concept longIdea);
                   strategy := lit "value_first" |} ].
Proof. repeat split; vm_compute; reflexivity. Qed.

(** ** The idea parser *)

Lemma startsWith_char (c : jchar) (s : jstr) :
  Str.startsWith s [c] = match s with b :: _ => (c =? b)%N | [] => false end.
Proof. destruct s as [|b s]; simpl; [done|]. by rewrite andb_true_r. Qed.

Lemma first_match_char (c : jchar) (pre rest : jstr) :
  c ∉ pre → Str.first_match [c] (pre ++ c :: rest) = Some (length pre).
Proof.
  induction pre as [|b pre IH]; intros Hc.
  - simpl. by rewrite N.eqb_refl.
  - apply not_elem_of_cons in Hc as [Hne Hc].
    change (Str.first_match [c] ((b :: pre) ++ c :: rest))
      with (if Str.startsWith (b :: pre ++ c :: rest) [c] then Some 0%nat
            else S <$> Str.first_match [c] (pre ++ c :: rest)).
    rewrite startsWith_char.
    destruct (N.eqb_spec c b) as [->|_]; [done|]. by rewrite IH.
Qed.

Lemma first_match_char_None (c : jchar) (s : jstr) :
  c ∉ s → Str.first_match [c] s = None.
Proof.
  induction s as [|b s IH]; intros Hc; [done|].
  apply not_elem_of_cons in Hc as [Hne Hc].
  change (Str.first_match [c] (b :: s))
    with (if Str.startsWith (b :: s) [c] then Some 0%nat
          else S <$> Str.first_match [c] s).
  rewrite startsWith_char.
  destruct (N.eqb_spec c b) as [->|_]; [done|]. by rewrite IH.
Qed.

Lemma last_match_char_None (c : jchar) (s : jstr) :
  c ∉ s → Str.last_match [c] s = None.
Proof.
  induction s as [|b s IH]; intros Hc; [done|].
  apply not_elem_of_cons in Hc as [Hne Hc]. simpl. rewrite IH by done.
  destruct (N.eqb_spec c b) as [->|_]; done.
Qed.

Lemma last_match_char (c : jchar) (pre post : jstr) :
  c ∉ post → Str.last_match [c] (pre ++ c :: post) = Some (length pre).
Proof.
  intros Hc. induction pre as [|b pre IH].
  - simpl. rewrite last_match_char_None by done. by rewrite N.eqb_refl.
  - simpl. by rewrite IH.
Qed.

(** The match runs from the first opening bracket to the last closing
    bracket. *)
Lemma match_bracketed_span (pre mid post : jstr) :
  91%N ∉ pre → 93%N ∉ post →
  match_bracketed (pre ++ [91%N] ++ mid ++ [93%N] ++ post)
  = Some ([91%N] ++ mid ++ [93%N]).
Proof.
  intros Hpre Hpost. unfold match_bracketed.
  change (lit "[") with [91%N]. change (lit "]") with [93%N].
  simpl. rewrite first_match_char by done. simpl.
  rewrite drop_app_length. simpl. rewrite drop_0.
  rewrite last_match_char by done. simpl.
  do 2 f_equal. rewrite (cons_middle 93%N mid post), app_assoc.
  rewrite take_app_length'; [done|]. rewrite length_app. simpl. lia.
Qed.

Lemma match_bracketed_no_bracket (content : jstr) :
  91%N ∉ content → match_bracketed content = None.
Proof.
  intros H. unfold match_bracketed. change (lit "[") with [91%N].
  by rewrite first_match_char_None.
Qed.

Lemma StronglySorted_weaken {A} (R1 R2 : relation A) (l : list A) :
  (∀ a b, R1 a b → R2 a b) → StronglySorted R1 l → StronglySorted R2 l.
Proof.
  intros HR. induction 1 as [|x l Hl IH Hx]; constructor; [done|].
  eapply Forall_impl; [exact Hx|]. auto.
Qed.

Lemma StronglySorted_take {A} (R : relation A) (n : nat) (l : list A) :
  StronglySorted R l → StronglySorted R (take n l).
Proof.
  intros H. rewrite <-(take_drop n l) in H.
  by apply StronglySorted_app_1_l in H.
Qed.

Section sorted_on.
Context {A : Type} (le : A → A → bool) (P : A → Prop).
Context (le_total : ∀ a b, P a → P b → le a b = true ∨ le b a = true).
Context (le_trans : ∀ a b c, P a → P b → P c →
                             le a b = true → le b c = true → le a c = true).

Lemma sort_insert_sorted_on (x : A) (l : list A) :
  P x → Forall P l →
  StronglySorted (λ a b, le a b = true) l →
  StronglySorted (λ a b, le a b = true) (sort_insert le x l).
Proof using le_total le_trans.
  intros Hx HP Hs. induction Hs as [|y l Hl IH Hy]; simpl.
  { repeat constructor. }
  apply Forall_cons in HP as [Hy' HP].
  destruct (le x y) eqn:Hxy.
  - constructor; [by constructor|]. constructor; [done|].
    apply Forall_forall. intros z Hz.
    rewrite Forall_forall in Hy, HP.
    apply (le_trans x y z); auto.
  - constructor; [by apply IH|].
    rewrite sort_insert_Permutation. constructor; [|done].
    destruct (le_total x y); [done..|congruence|done].
Qed.

Lemma js_sort_sorted_on (l : list A) :
  Forall P l → StronglySorted (λ a b, le a b = true) (js_sort le l).
Proof using le_total le_trans.
  induction l as [|x l IH]; simpl; [constructor|].
  intros [Hx HP]%Forall_cons. apply sort_insert_sorted_on; [done| |by apply IH].
  by rewrite js_sort_Permutation.
Qed.
End sorted_on.

Lemma by_relevance_number (a b : Runtime.PostIdea) (x y : Number.t) :
  score_number a x → score_number b y →
  Runtime.by_relevance a b = Number.leb y x.
Proof. unfold score_number, Runtime.by_relevance. by intros -> ->. Qed.

Lemma by_relevance_total (a b : Runtime.PostIdea) :
  has_number a → has_number b →
  Runtime.by_relevance a b = true ∨ Runtime.by_relevance b a = true.
Proof.
  intros [x Hx] [y Hy].
  rewrite (by_relevance_number a b x y), (by_relevance_number b a y x) by done.
  apply number_leb_total.
Qed.

Lemma by_relevance_trans (a b c : Runtime.PostIdea) :
  has_number a → has_number b → has_number c →
  Runtime.by_relevance a b = true → Runtime.by_relevance b c = true →
  Runtime.by_relevance a c = true.
Proof.
  intros [x Hx] [y Hy] [z Hz].
  rewrite (by_relevance_number a b x y), (by_relevance_number b c y z),
    (by_relevance_number a c x z) by done.
  intros ??. by eapply number_leb_trans.
Qed.

Lemma sorted_ideas_descending (l : list Runtime.PostIdea) :
  Forall has_number l →
  StronglySorted descending (js_sort Runtime.by_relevance l).
Proof.
  intros Hl.
  assert (Hsorted : StronglySorted
            (λ a b, has_number a ∧ has_number b
                    ∧ Runtime.by_relevance a b = true)
            (js_sort Runtime.by_relevance l)).
  { assert (Hall : Forall has_number (js_sort Runtime.by_relevance l))
      by (by rewrite js_sort_Permutation).
    pose proof (js_sort_sorted_on Runtime.by_relevance has_number
                  by_relevance_total by_relevance_trans l Hl) as Hs.
    revert Hall Hs. generalize (js_sort Runtime.by_relevance l). clear.
    intros l Hall Hs. induction Hs as [|a l Hs IH Ha]; [constructor|].
    apply Forall_cons in Hall as [Hn Hall]. constructor; [by apply IH|].
    rewrite Forall_forall in Ha, Hall. apply Forall_forall. intros b Hb.
    auto. }
  eapply StronglySorted_weaken; [|exact Hsorted].
  intros a b ([x Hx] & [y Hy] & Hab). exists x, y.
  by rewrite (by_relevance_number a b x y) in Hab.
Qed.

Lemma or_else_value_or (v d : JsValue) : Runtime.or_else v d = value_or v d.
Proof.
  unfold Runtime.or_else.
  destruct v as [| |[]|x|[|c s]|?|?]; simpl; try done.
  by destruct (Number.is_zero x).
Qed.

Lemma get_prop_prop_of (elem : JsValue) (name : jstr) :
  elem ≠ JNull → elem ≠ JUndefined →
  get_prop elem name = Some (prop_of elem name).
Proof. by destruct elem. Qed.

Lemma map_idea_defaults (index : nat) (elem : JsValue) :
  elem ≠ JNull → elem ≠ JUndefined →
  Runtime.map_idea index elem = Some (idea_with_defaults index elem).
Proof.
  intros Hn Hu. unfold Runtime.map_idea.
  rewrite !get_prop_prop_of by done. simpl.
  by rewrite !or_else_value_or.
Qed.

Lemma map_ideas_defaults (elems : list JsValue) :
  Forall (λ elem, elem ≠ JNull ∧ elem ≠ JUndefined) elems →
  mapM id (imap Runtime.map_idea elems) = Some (imap idea_with_defaults elems).
Proof.
  intros Hall.
  assert (Heq : imap Runtime.map_idea elems
                = Some <$> imap idea_with_defaults elems).
  { rewrite fmap_imap. apply imap_ext. intros index elem Hin.
    rewrite Forall_forall in Hall.
    destruct (Hall elem) as [Hn Hu]; [apply list_elem_of_lookup; eauto|].
    by apply map_idea_defaults. }
  rewrite Heq. by apply mapM_fmap_Some.
Qed.

Lemma map_ideas_null (elems : list JsValue) :
  JNull ∈ elems → mapM id (imap Runtime.map_idea elems) = None.
Proof.
  intros [index Hin]%list_elem_of_lookup. apply mapM_None.
  apply Exists_exists. exists None. split; [|done].
  apply elem_of_lookup_imap. by exists index, JNull.
Qed.

(** A list whose scores all convert to numbers is sorted by them. *)
Lemma sort_numbers (l : list Runtime.PostIdea) :
  Forall has_number l →
  Runtime.sort l = Runtime.InOrder (js_sort Runtime.by_relevance l).
Proof.
  intros Hl. destruct l as [|a [|b l]]; [done..|].
  unfold Runtime.sort.
  assert (Hthrow : existsb Runtime.score_throws (a :: b :: l) = false).
  { apply not_true_is_false. intros (i & Hi & Ht)%existsb_exists.
    apply list_elem_of_In in Hi. rewrite Forall_forall in Hl.
    destruct (Hl i Hi) as [x Hx]. unfold Runtime.score_throws in Ht.
    unfold score_number in Hx. by rewrite Hx in Ht. }
  assert (Hnan : existsb Runtime.score_is_nan (a :: b :: l) = false).
  { apply not_true_is_false. intros (i & Hi & Ht)%existsb_exists.
    apply list_elem_of_In in Hi. rewrite Forall_forall in Hl.
    destruct (Hl i Hi) as [x Hx]. unfold Runtime.score_is_nan in Ht.
    unfold score_number in Hx. by rewrite Hx in Ht. }
  rewrite Hthrow. unfold Runtime.consistent. by rewrite Hnan.
Qed.

(** What the parser does once the span from the first opening to the last
    closing bracket has been parsed into an array. *)
Lemma parse_ideas_of_array (content jsonMatch : jstr) (elems : list JsValue)
    (trendsData : TrendData) :
  match_bracketed content = Some jsonMatch →
  Json.parse jsonMatch = Some (JArr elems) →
  Forall (λ elem, elem ≠ JNull ∧ elem ≠ JUndefined) elems →
  Forall numeric_score elems →
  Runtime.parsePostIdeasFromResponse content trendsData
  = Runtime.Array
      (take 8 (js_sort Runtime.by_relevance (imap idea_with_defaults elems))).
Proof.
  intros Hm Hp Hall Hnum. unfold Runtime.parsePostIdeasFromResponse.
  rewrite Hm, Hp, map_ideas_defaults by done.
  rewrite sort_numbers; [done|].
  apply Forall_forall. intros i (index & elem & -> & Hin)%elem_of_lookup_imap.
  rewrite Forall_forall in Hnum. apply Hnum, list_elem_of_lookup. eauto.
Qed.

(** C3 (as amended).  When the text from the first opening bracket to the
    last closing bracket of the response is a JSON array, none of whose
    elements is [null] and each of whose relevance scores converts to a
    number, the parser returns the ideas built from the elements (the
    identifier from the position, each field that is missing, [null],
    [false], empty or zero replaced by its default, every other value kept
    as it is), in descending order of the number of the score, cut to the
    first eight. *)
Theorem parsePostIdeas_bracketed_array (pre mid post : jstr)
    (elems : list JsValue) (trendsData : TrendData) :
  91%N ∉ pre → 93%N ∉ post →
  Json.parse ([91%N] ++ mid ++ [93%N]) = Some (JArr elems) →
  Forall (λ elem, elem ≠ JNull ∧ elem ≠ JUndefined) elems →
  Forall numeric_score elems →
  ∃ result,
    Runtime.parsePostIdeasFromResponse
      (pre ++ [91%N] ++ mid ++ [93%N] ++ post) trendsData
    = Runtime.Array result
    ∧ result
      = take 8 (js_sort Runtime.by_relevance (imap idea_with_defaults elems))
    ∧ length result = Nat.min 8 (length elems)
    ∧ StronglySorted descending result
    ∧ (∀ i, i ∈ result →
         ∃ index elem, elems !! index = Some elem
                       ∧ i = idea_with_defaults index elem)
    ∧ (length elems ≤ 8 → result ≡ₚ imap idea_with_defaults elems)%nat.
Proof.
  intros Hpre Hpost Hp Hall Hnum. eexists. split.
  { eapply parse_ideas_of_array; [by apply match_bracketed_span|done..]. }
  split; [done|]. split; [|split; [|split]].
  - by rewrite length_take, js_sort_length, length_imap.
  - apply StronglySorted_take, sorted_ideas_descending.
    apply Forall_forall.
    intros i (index & elem & -> & Hin)%elem_of_lookup_imap.
    rewrite Forall_forall in Hnum. apply Hnum, list_elem_of_lookup. eauto.
  - intros i [k [Hk _]]%elem_of_take.
    assert (Hin : i ∈ js_sort Runtime.by_relevance
                        (imap idea_with_defaults elems)).
    { apply list_elem_of_lookup. eauto. }
    rewrite js_sort_Permutation in Hin.
    apply elem_of_lookup_imap in Hin as (index & elem & -> & Hin). eauto.
  - intros Hlen. rewrite take_ge.
    + apply js_sort_Permutation.
    + by rewrite js_sort_length, length_imap.
Qed.

(** X24.  The fallback set has five ideas.  The parser returns it when the
    response has no opening bracket followed by a closing one, when the
    bracketed text is not JSON, and when the array holds a [null]. *)
Lemma parsePostIdeas_fallback (content : jstr) (trendsData : TrendData) :
  length (Runtime.getFallbackPostIdeas trendsData) = 5%nat
  ∧ (match_bracketed content = None →
     Runtime.parsePostIdeasFromResponse content trendsData
     = Runtime.Array (Runtime.getFallbackPostIdeas trendsData))
  ∧ (∀ jsonMatch, match_bracketed content = Some jsonMatch →
       Json.parse jsonMatch = None →
       Runtime.parsePostIdeasFromResponse content trendsData
       = Runtime.Array (Runtime.getFallbackPostIdeas trendsData))
  ∧ (∀ jsonMatch elems, match_bracketed content = Some jsonMatch →
       Json.parse jsonMatch = Some (JArr elems) → JNull ∈ elems →
       Runtime.parsePostIdeasFromResponse content trendsData
       = Runtime.Array (Runtime.getFallbackPostIdeas trendsData)).
Proof.
  split; [|split; [|split]].
  - unfold Runtime.getFallbackPostIdeas.
    destruct (news trendsData), (coingecko trendsData); done.
  - intros Hm. unfold Runtime.parsePostIdeasFromResponse. by rewrite Hm.
  - intros jsonMatch Hm Hp. unfold Runtime.parsePostIdeasFromResponse.
    by rewrite Hm, Hp.
  - intros jsonMatch elems Hm Hp Hnull.
    unfold Runtime.parsePostIdeasFromResponse.
    rewrite Hm, Hp. by rewrite map_ideas_null.
Qed.

(** C3, the claim as stated, fails in four ways.  When the prose around
    the array holds a bracket of its own, the match starts at the bracket
    of the prose, the matched text is not JSON, and the parser returns the
    fallback set instead of the idea of the array.  It returns the
    fallback set too when an element of the array is [null], and when a
    relevance score is an object with a property [toString]: its
    conversion to a number throws inside [sort].  And when a score
    converts to NaN, next to scores that differ, the comparator is
    inconsistent and the order of the result is the engine's, not the
    descending one. *)
Lemma parsePostIdeas_prose_with_bracket :
  let arr := qlit "[{'concept':'Solana flips ETH'}]" in
  let content := lit "Top picks [ranked]: " ++ arr in
  let elem := JObj [(lit "concept", JStr (lit "Solana flips ETH"))] in
  Json.parse arr = Some (JArr [elem])
  ∧ Runtime.parsePostIdeasFromResponse content emptyTrends
    = Runtime.Array (Runtime.getFallbackPostIdeas emptyTrends)
  ∧ Runtime.parsePostIdeasFromResponse content emptyTrends
    ≠ Runtime.Array
        (take 8 (js_sort Runtime.by_relevance (imap idea_with_defaults [elem])))
  ∧ Runtime.parsePostIdeasFromResponse
      (qlit "[{'concept':'Solana flips ETH'}, null]") emptyTrends
    = Runtime.Array (Runtime.getFallbackPostIdeas emptyTrends)
  ∧ Runtime.parsePostIdeasFromResponse
      (qlit "[{'concept':'A','relevance_score':{'toString':1}},{'concept':'B'}]")
      emptyTrends
    = Runtime.Array (Runtime.getFallbackPostIdeas emptyTrends)
  ∧ Runtime.parsePostIdeasFromResponse
      (qlit "[{'concept':'C','relevance_score':0.1},{'concept':'A','relevance_score':'high'},{'concept':'B','relevance_score':0.9}]")
      emptyTrends
    = Runtime.EngineDefined
        (imap idea_with_defaults
           [ JObj [(lit "concept", JStr (lit "C"));
                   (lit "relevance_score", JNum (Number.round (1 # 10)))];
             JObj [(lit "concept", JStr (lit "A"));
                   (lit "relevance_score", JStr (lit "high"))];
             JObj [(lit "concept", JStr (lit "B"));
                   (lit "relevance_score", JNum (Number.round (9 # 10)))] ]).
Proof.
  intros arr content elem.
  assert (Hrun : Runtime.parsePostIdeasFromResponse content emptyTrends
                 = Runtime.Array (Runtime.getFallbackPostIdeas emptyTrends))
    by (vm_compute; reflexivity).
  split; [vm_compute; reflexivity|].
  split; [exact Hrun|]. split; [|repeat split; vm_compute; reflexivity].
  rewrite Hrun. intros H.
  apply (f_equal (λ r, match r with
                       | Runtime.Array l => length l
                       | Runtime.EngineDefined _ => 0%nat
                       end)) in H.
  vm_compute in H. discriminate H.
Qed.

Lemma parsePostIdeas_bracketed_array_witness :
  let pre := lit "Sure, here are the ideas: " in
  let mid := qlit "{'concept':'ETF inflows surge','relevance_score':0.8},{'trend_source':'Reddit: r/ethereum'},{'concept':'AI agents everywhere','relevance_score':'0.9'}" in
  let post := lit " Let me know if you need more." in
  let elems :=
    [ JObj [(lit "concept", JStr (lit "ETF inflows surge"));
            (lit "relevance_score", JNum (Number.round (4 # 5)))];
      JObj [(lit "trend_source", JStr (lit "Reddit: r/ethereum"))];
      JObj [(lit "concept", JStr (lit "AI agents everywhere"));
            (lit "relevance_score", JStr (lit "0.9"))] ] in
  (91%N ∉ pre) ∧ (93%N ∉ post)
  ∧ Json.parse ([91%N] ++ mid ++ [93%N]) = Some (JArr elems)
  ∧ Forall (λ elem, elem ≠ JNull ∧ elem ≠ JUndefined) elems
  ∧ Forall numeric_score elems
  ∧ ∃ result,
      Runtime.parsePostIdeasFromResponse
        (pre ++ [91%N] ++ mid ++ [93%N] ++ post) emptyTrends
      = Runtime.Array result
      ∧ result
        = take 8 (js_sort Runtime.by_relevance (imap idea_with_defaults elems))
      ∧ length result = Nat.min 8 (length elems)
      ∧ StronglySorted descending result
      ∧ (∀ i, i ∈ result →
           ∃ index elem, elems !! index = Some elem
                         ∧ i = idea_with_defaults index elem)
      ∧ (length elems ≤ 8 → result ≡ₚ imap idea_with_defaults elems)%nat.
Proof.
  intros pre mid post elems.
  assert (Hpre : 91%N ∉ pre).
  { apply (bool_decide_unpack (91%N ∉ pre)). vm_compute. exact I. }
  assert (Hpost : 93%N ∉ post).
  { apply (bool_decide_unpack (93%N ∉ post)). vm_compute. exact I. }
  assert (Hparse : Json.parse ([91%N] ++ mid ++ [93%N]) = Some (JArr elems)).
  { vm_compute. reflexivity. }
  assert (Hnull : Forall (λ elem, elem ≠ JNull ∧ elem ≠ JUndefined) elems).
  { repeat constructor; discriminate. }
  assert (Hnum : Forall numeric_score elems).
  { repeat constructor; eexists; vm_compute; reflexivity. }
  split; [exact Hpre|]. split; [exact Hpost|]. split; [exact Hparse|].
  split; [exact Hnull|]. split; [exact Hnum|].
  exact (parsePostIdeas_bracketed_array pre mid post elems emptyTrends
           Hpre Hpost Hparse Hnull Hnum).
Defined.

(** C4, at the failing input: the reply holds the empty array.  The parser
    returns the empty list where every other reply without ideas (no
    array, text that is not JSON, a [null] element) gets the five fallback
    ideas.  A second reply shows that the list is not checked against the
    declared type either: a concept that is a number is returned as it
    is. *)
Theorem parsePostIdeas_empty_array :
  Runtime.parsePostIdeasFromResponse (lit "No strong trends today: []")
    emptyTrends = Runtime.Array []
  ∧ parsePostIdeasFromResponse (lit "No strong trends today: []") emptyTrends
    = Ideas []
  ∧ match_bracketed (lit "No strong trends today: []") = Some (lit "[]")
  ∧ Json.parse (lit "[]") = Some (JArr [])
  ∧ length (Runtime.getFallbackPostIdeas emptyTrends) = 5%nat
  ∧ Runtime.parsePostIdeasFromResponse (lit "No strong trends today.")
      emptyTrends
    = Runtime.Array (Runtime.getFallbackPostIdeas emptyTrends)
  ∧ Runtime.parsePostIdeasFromResponse (qlit "[{'concept': 5}]") emptyTrends
    = Runtime.Array
        [ {| Runtime.idea_id := lit "idea_1";
             Runtime.concept := JNum (Number.Finite 5);
             Runtime.trend_source := JStr (lit "General trend analysis");
             Runtime.relevance_score := JNum (Number.Finite (1 # 2));
             Runtime.business_benefit :=
               JStr (lit "Provides engagement opportunity") |} ].
Proof. repeat split; vm_compute; reflexivity. Qed.

(** ** The orchestrator *)

Lemma ensures_ret {A} (a : A) (P : A → Prop) : P a → ensures (mret a) P.
Proof. intros Ha w a' w' [= <- _]. exact Ha. Qed.

Lemma ensures_bind {A B} (m : M A) (k : A → M B) (P : B → Prop) :
  (∀ a, ensures (k a) P) → ensures (m ≫= k) P.
Proof.
  intros Hk w b w'. rewrite run_bind.
  destruct (m w) as [[a|e|] w1]; [|done..]. apply Hk.
Qed.

Lemma ensures_try_catch {A} (m : M A) (h : Error → M A) (P : A → Prop) :
  ensures m P → (∀ e, ensures (h e) P) → ensures (try_catch m h) P.
Proof.
  intros Hm Hh w a w'. unfold try_catch.
  destruct (m w) as [[a'|e|] w1] eqn:Hmw; [|by apply Hh|done].
  intros [= <- <-]. by eapply Hm.
Qed.

Lemma pipelineFailure_returns (business : Business) (sourcesUsed : list jstr)
    (startTime : Z) (e : Error) (w : World) :
  ∃ w', pipelineFailure business sourcesUsed startTime e w
        = (Returns (errorResult business sourcesUsed startTime (clock w) e), w')
        ∧ clock w' = clock w.
Proof. eexists. split; reflexivity. Qed.

(** The world in which the [try] block of a run started in [w] begins, when
    the two calls that reset [current_post] succeed. *)
Lemma runPipeline_prelude (env : Env) (config : Config) (options : Options)
    (w : World) :
  fs_error env (calls w) = None →
  fs_error env (S (calls w)) = None →
  ∃ w1,
    calls w1 = S (S (calls w))
    ∧ runPipeline env config options w
      = try_catch
          (pipelineSteps env config options (mergeBusinessData config options)
             (default (output_platforms config) (opt_platforms options))
             (configuredSources config)
             (businessOf (mergeBusinessData config options)) (clock w))
          (pipelineFailure (businessOf (mergeBusinessData config options))
             (configuredSources config) (clock w)) w1.
Proof.
  intros Hrm Hmk. eexists. split; [|unfold runPipeline].
  2:{ rewrite run_bind. unfold date_now at 1. simpl.
      rewrite run_bind. unfold fs_write at 1. rewrite Hrm.
      rewrite run_bind. unfold fs_write at 1. simpl. rewrite Hmk.
      rewrite run_bind. unfold log at 1. reflexivity. }
  reflexivity.
Qed.

(** The error result carries the message of the error that was thrown, and
    the time at which it was caught. *)
Lemma runPipeline_error_result (env : Env) (config : Config)
    (options : Options) (w : World) :
  fs_error env (calls w) = None →
  fs_error env (S (calls w)) = None →
  ∃ w1,
    calls w1 = S (S (calls w))
    ∧ ∀ e w2,
        pipelineSteps env config options (mergeBusinessData config options)
          (default (output_platforms config) (opt_platforms options))
          (configuredSources config)
          (businessOf (mergeBusinessData config options)) (clock w) w1
        = (Throws e, w2) →
        ∃ w',
          runPipeline env config options w
          = (Returns (errorResult (businessOf (mergeBusinessData config options))
                        (configuredSources config) (clock w) (clock w2) e), w').
Proof.
  intros Hrm Hmk.
  destruct (runPipeline_prelude env config options w Hrm Hmk) as (w1 & Hw1 & ->).
  exists w1. split; [done|]. intros e w2 Hsteps.
  unfold try_catch. rewrite Hsteps.
  destruct (pipelineFailure_returns
    (businessOf (mergeBusinessData config options))
    (configuredSources config) (clock w) e w2) as (w' & -> & _).
  eauto.
Qed.

(** For instance, when the language model is unreachable the call of step 3
    throws, and the run returns the error result with its message. *)
Example runPipeline_model_down :
  match (runPipeline modelDown exampleConfig noOptions startOfRun).1 with
  | Returns r =>
      status r = StatusError
      ∧ keywords r = [] ∧ postIdeas r = [] ∧ content r = []
      ∧ trends r = emptyTrends
      ∧ currentPost r = None
      ∧ error r = Some (lit "fetch failed")
  | _ => False
  end.
Proof. vm_compute. repeat split. Qed.

(** On every result a run returns, success or error, [sourcesUsed] is the
    list of the sources switched on in the configuration, whatever the
    adapters did. *)
Lemma runPipeline_sourcesUsed (env : Env) (config : Config) (options : Options) :
  ensures (runPipeline env config options)
    (λ r, sourcesUsed (meta r) = configuredSources config).
Proof.
  unfold runPipeline. repeat (apply ensures_bind; intros ?).
  apply ensures_try_catch.
  - unfold pipelineSteps. repeat (apply ensures_bind; intros ?).
    by apply ensures_ret.
  - intros e. unfold pipelineFailure. repeat (apply ensures_bind; intros ?).
    by apply ensures_ret.
Qed.

(** A failure of either of the two calls that reset [current_post] is not
    caught: they come before the [try]. *)
Lemma runPipeline_rm_rejects (env : Env) (config : Config) (options : Options)
    (w : World) (e : Error) :
  fs_error env (calls w) = Some e →
  runPipeline env config options w = (Throws e, advance env w).
Proof.
  intros H. unfold runPipeline. rewrite run_bind. unfold date_now at 1. simpl.
  rewrite run_bind. unfold fs_write at 1. by rewrite H.
Qed.

Lemma runPipeline_mkdir_rejects (env : Env) (config : Config)
    (options : Options) (w : World) (e : Error) :
  fs_error env (calls w) = None →
  fs_error env (S (calls w)) = Some e →
  ∃ w', runPipeline env config options w = (Throws e, w').
Proof.
  intros Hrm H. eexists. unfold runPipeline.
  rewrite run_bind. unfold date_now at 1. simpl.
  rewrite run_bind. unfold fs_write at 1. rewrite Hrm.
  rewrite run_bind. unfold fs_write at 1. simpl. by rewrite H.
Qed.

(** C2, at the failing input: the process runs in a directory it cannot
    write to.  Creating [current_post] fails before the [try] block is
    entered, and [runPipeline] rejects with the error of [mkdir] instead of
    returning a result of status "error". *)
Theorem runPipeline_read_only_directory_rejects :
  (runPipeline readOnlyDirectory exampleConfig noOptions startOfRun).1
  = Throws permissionDenied.
Proof.
  destruct (runPipeline_mkdir_rejects readOnlyDirectory exampleConfig noOptions
              startOfRun permissionDenied) as [w' ->]; done.
Qed.

(** C7, at the failing input: all five sources are switched on and all five
    adapters fail.  The run succeeds with five empty lists, and
    [sourcesUsed] names all five sources; the exit code is 0, not the 3 of
    "all data sources failed". *)
Theorem runPipeline_all_adapters_fail :
  match (runPipeline adaptersDown exampleConfig noOptions startOfRun).1 with
  | Returns r =>
      status r = StatusSuccess
      ∧ trends r = emptyTrends
      ∧ sourcesUsed (meta r)
        = [lit "google"; lit "xcom"; lit "coingecko"; lit "reddit"; lit "news"]
      ∧ length (postIdeas r) = 3%nat
      ∧ exitCode r = 0
  | _ => False
  end.
Proof. vm_compute. repeat split. Qed.

(** ** The content renderer: the length ceiling of the strict platform *)

Lemma length_trimStart (s : jstr) : (length (Str.trimStart s) ≤ length s)%nat.
Proof.
  induction s as [|c s IH]; simpl; [done|].
  destruct (Str.is_white c); simpl; lia.
Qed.

Lemma length_trim (s : jstr) : (length (Str.trim s) ≤ length s)%nat.
Proof.
  unfold Str.trim, Str.trimEnd. rewrite length_reverse.
  etrans; [apply length_trimStart|]. rewrite length_reverse.
  apply length_trimStart.
Qed.

Lemma substring_0 (n : nat) (s : jstr) : Str.substring 0 n s = take n s.
Proof.
  unfold Str.substring. rewrite Nat.max_0_l, Nat.min_0_l, Nat.sub_0_r.
  by rewrite drop_0.
Qed.

Lemma startsWith_length (s p : jstr) :
  Str.startsWith s p = true → (length p ≤ length s)%nat.
Proof.
  revert s. induction p as [|a p IH]; intros [|b s]; simpl; try done; [lia|].
  intros [_ H]%andb_true_iff. apply IH in H. lia.
Qed.

Lemma startsWith_lookup (s p : jstr) (k : nat) (c : jchar) :
  Str.startsWith s p = true → p !! k = Some c → s !! k = Some c.
Proof.
  revert s k. induction p as [|a p IH]; intros [|b s] k; simpl; try done.
  intros [Hab H]%andb_true_iff. apply N.eqb_eq in Hab as ->.
  destruct k as [|k]; simpl; [done|]. by apply IH.
Qed.

(** Where [last_match] finds the needle, the needle is. *)
Lemma last_match_spec (needle s : jstr) (i : nat) :
  Str.last_match needle s = Some i →
  Str.startsWith (drop i s) needle = true ∧ (i + length needle ≤ length s)%nat.
Proof.
  revert i. induction s as [|c s IH]; intros i; simpl.
  - destruct needle; [|done]. by intros [= <-].
  - destruct (Str.last_match needle s) as [j|].
    + intros [= <-]. destruct (IH j eq_refl) as [H1 H2]. simpl.
      split; [done|lia].
    + destruct (Str.startsWith (c :: s) needle) eqn:Hs; [|done].
      intros [= <-]. split; [done|].
      apply startsWith_length in Hs. simpl in *. lia.
Qed.

Lemma last_match_lookup (needle s : jstr) (i k : nat) (c : jchar) :
  Str.last_match needle s = Some i → needle !! k = Some c →
  s !! (i + k)%nat = Some c.
Proof.
  intros [H _]%last_match_spec Hk.
  rewrite <-lookup_drop. by eapply startsWith_lookup.
Qed.

Lemma lastIndexOf_bound (s needle : jstr) :
  Str.lastIndexOf s needle + Z.of_nat (length needle) ≤ Z.of_nat (length s)
  ∨ Str.lastIndexOf s needle = -1.
Proof.
  unfold Str.lastIndexOf. destruct (Str.last_match needle s) as [i|] eqn:H.
  - left. apply last_match_spec in H as [_ H]. simpl. lia.
  - by right.
Qed.

Lemma lastIndexOf_from_bound (s needle : jstr) (from : nat) :
  Str.lastIndexOf_from s needle from ≤ Z.of_nat from.
Proof.
  unfold Str.lastIndexOf_from.
  destruct (Str.last_match needle _) as [i|] eqn:H; simpl; [|lia].
  apply last_match_spec in H as [_ H]. rewrite length_take in H. lia.
Qed.

Lemma truncate_tweet_length (cleaned : jstr) :
  (length (truncate_tweet cleaned) ≤ 280)%nat.
Proof.
  unfold truncate_tweet. rewrite !substring_0.
  assert (Hslice : (length (take 280 cleaned) ≤ 280)%nat)
    by (rewrite length_take; lia).
  repeat case_bool_decide.
  - etrans; [apply length_trim|]. rewrite length_take. lia.
  - etrans; [apply length_trim|]. rewrite length_take. lia.
  - rewrite length_app. change (length (lit "...")) with 3%nat.
    pose proof (lastIndexOf_from_bound (take 280 cleaned) (lit " ") 277).
    pose proof (length_trim
      (take (Z.to_nat (Str.lastIndexOf_from (take 280 cleaned) (lit " ") 277))
         (take 280 cleaned))) as Ht.
    rewrite length_take in Ht. lia.
  - rewrite length_app. change (length (lit "...")) with 3%nat.
    pose proof (length_trim (take 277 (take 280 cleaned))) as Ht.
    rewrite length_take in Ht. lia.
Qed.

(** X11.  The text of a model reply, once cleaned for the strict platform,
    has at most 280 code units, whatever the reply. *)
Lemma cleanup_twitter_length (content : jstr) :
  (length (cleanupGeneratedContent content (lit "twitter")) ≤ 280)%nat.
Proof.
  unfold cleanupGeneratedContent.
  generalize (strip_quotes (foldl strip_prefix (Str.trim content) prefixes)).
  intros cleaned.
  rewrite (bool_decide_eq_true_2 (lit "twitter" = lit "twitter")) by done.
  rewrite andb_true_l. case_bool_decide as Hlen.
  - apply truncate_tweet_length.
  - rewrite (bool_decide_eq_false_2 (lit "twitter" = lit "instagram")) by done.
    lia.
Qed.

(** The fallback text is the concept followed by a fixed tail of 63 code
    units; nothing cuts it. *)
Lemma fallback_twitter_length (i : PostIdea) :
  length (getFallbackContent i (lit "twitter")) = (length (concept i) + 63)%nat.
Proof.
  unfold getFallbackContent, RuntimeContent.getFallbackContent.
  rewrite (bool_decide_eq_true_2 (lit "twitter" = lit "twitter")) by done.
  unfold fallback_twitter. rewrite !length_app. simpl. lia.
Qed.

(** C5, at the failing input: the model returns an idea whose concept has
    227 characters, and the model call that renders it for twitter fails.
    The entry of the pair carries the fallback text, which has 290
    characters. *)
Theorem fallback_tweet_exceeds_ceiling :
  parsePostIdeasFromResponse
    (qlit "[{'concept':'" ++ concept longIdea ++ qlit "','relevance_score':0.9}]")
    emptyTrends = Ideas [longIdea]
  ∧ match (generatePlatformContent modelDown
             (mergeBusinessData exampleConfig noOptions)
             [longIdea] [lit "twitter"] startOfRun).1 with
    | Returns [c] =>
        platform c = lit "twitter"
        ∧ text c = getFallbackContent longIdea (lit "twitter")
        ∧ length (text c) = 290%nat
        ∧ (280 < length (text c))%nat
    | _ => False
    end.
Proof.
  split; [vm_compute; reflexivity|].
  vm_compute. repeat split. lia.
Qed.

(** ** The content renderer: where the strict platform cuts *)

Lemma last_match_complete (needle s : jstr) (i : nat) :
  Str.startsWith (drop i s) needle = true → (i ≤ length s)%nat →
  ∃ j, Str.last_match needle s = Some j ∧ (i ≤ j)%nat.
Proof.
  revert i. induction s as [|c s IH]; intros i Hs Hi; simpl in *.
  - assert (i = 0%nat) as -> by lia. destruct needle; [|done]. eauto.
  - destruct i as [|i]; simpl in *.
    + rewrite Hs. destruct (Str.last_match needle s) as [j|]; eauto with lia.
    + destruct (IH i Hs) as (j & -> & Hj); [lia|]. eauto with lia.
Qed.

Lemma startsWith_char_lookup (s : jstr) (i : nat) (c : jchar) :
  s !! i = Some c → Str.startsWith (drop i s) [c] = true.
Proof.
  intros H. rewrite startsWith_char.
  rewrite <-(take_drop_middle s i c H), drop_app_length'.
  - by rewrite N.eqb_refl.
  - rewrite length_take. apply lookup_lt_Some in H. lia.
Qed.

(** A space at an index from 1 to 277 is found by the last-resort search. *)
Lemma lastSpace_found (slice : jstr) (i : nat) :
  (0 < i ≤ 277)%nat → slice !! i = Some 32%N →
  Str.lastIndexOf_from slice (lit " ") 277 > 0.
Proof.
  intros Hi Hsp. unfold Str.lastIndexOf_from. change (lit " ") with [32%N].
  assert (H : take (277 + length [32%N]) slice !! i = Some 32%N).
  { rewrite lookup_take_lt by (simpl; lia). done. }
  destruct (last_match_complete [32%N] _ i (startsWith_char_lookup _ _ _ H))
    as (j & -> & Hj).
  - apply lookup_lt_Some in H. lia.
  - simpl. lia.
Qed.

Lemma lookup_slice (cleaned : jstr) (i : nat) (c : jchar) :
  take 280 cleaned !! i = Some c → cleaned !! i = Some c.
Proof. intros H. by apply lookup_take_Some in H as [H _]. Qed.

Lemma lastIndexOf_lookup (s needle : jstr) (k : nat) (c : jchar) :
  0 ≤ Str.lastIndexOf s needle → needle !! k = Some c →
  s !! (Z.to_nat (Str.lastIndexOf s needle) + k)%nat = Some c.
Proof.
  unfold Str.lastIndexOf. destruct (Str.last_match needle s) as [i|] eqn:H;
    simpl; [|lia].
  intros _ Hk. rewrite Nat2Z.id. by eapply last_match_lookup.
Qed.

(** The three cuts of [truncate_tweet], in the order the code tries them,
    and the character of the text at each cut.  An ellipsis is appended in
    the last-resort branch and in no other. *)
Lemma truncate_tweet_cuts (cleaned : jstr) :
  let slice := take 280 cleaned in
  let lastPara := Str.lastIndexOf slice (nl ++ nl) in
  let lastSentence :=
    Z.max (Z.max (Str.lastIndexOf slice (lit ". "))
                 (Str.lastIndexOf slice (lit "? ")))
          (Str.lastIndexOf slice (lit "! ")) in
  let lastSpace := Str.lastIndexOf_from slice (lit " ") 277 in
  (lastPara > 150 →
     truncate_tweet cleaned = Str.trim (take (Z.to_nat lastPara) cleaned)
     ∧ cleaned !! Z.to_nat lastPara = Some 10%N)
  ∧ (lastPara ≤ 150 → lastSentence > 150 →
     truncate_tweet cleaned
       = Str.trim (take (Z.to_nat (lastSentence + 1)) cleaned)
     ∧ cleaned !! Z.to_nat (lastSentence + 1) = Some 32%N)
  ∧ (lastPara ≤ 150 → lastSentence ≤ 150 → lastSpace > 0 →
     truncate_tweet cleaned
       = Str.trim (take (Z.to_nat lastSpace) cleaned) ++ lit "..."
     ∧ cleaned !! Z.to_nat lastSpace = Some 32%N)
  ∧ (lastPara ≤ 150 → lastSentence ≤ 150 → lastSpace ≤ 0 →
     truncate_tweet cleaned = Str.trim (take 277 cleaned) ++ lit "...").
Proof.
  intros slice lastPara lastSentence lastSpace.
  assert (Htake : ∀ n, (n ≤ 280)%nat → take n slice = take n cleaned).
  { intros n Hn. unfold slice. rewrite take_take. f_equal. lia. }
  assert (Hlen : (length slice ≤ 280)%nat).
  { unfold slice. rewrite length_take. lia. }
  unfold truncate_tweet. rewrite !substring_0.
  fold slice. fold lastPara. fold lastSentence. fold lastSpace.
  split; [|split; [|split]].
  - intros Hp. rewrite bool_decide_eq_true_2 by done.
    destruct (lastIndexOf_bound slice (nl ++ nl)) as [Hb|Hb];
      fold lastPara in Hb; [|lia].
    simpl in Hb. split.
    + rewrite Htake; [done|lia].
    + apply lookup_slice. fold slice.
      pose proof (lastIndexOf_lookup slice (nl ++ nl) 0 10%N) as H.
      rewrite Nat.add_0_r in H. apply H; [fold lastPara; lia|done].
  - intros Hp Hs. rewrite bool_decide_eq_false_2 by lia.
    rewrite bool_decide_eq_true_2 by done.
    assert (Hcase : ∃ needle, needle !! 1%nat = Some 32%N
              ∧ length needle = 2%nat
              ∧ lastSentence = Str.lastIndexOf slice needle).
    { unfold lastSentence.
      destruct (Z.max_spec (Z.max (Str.lastIndexOf slice (lit ". "))
                                  (Str.lastIndexOf slice (lit "? ")))
                           (Str.lastIndexOf slice (lit "! "))) as [[_ ->]|[_ ->]].
      - by exists (lit "! ").
      - destruct (Z.max_spec (Str.lastIndexOf slice (lit ". "))
                             (Str.lastIndexOf slice (lit "? "))) as [[_ ->]|[_ ->]].
        + by exists (lit "? ").
        + by exists (lit ". "). }
    destruct Hcase as (needle & Hk & Hn & Heq).
    destruct (lastIndexOf_bound slice needle) as [Hb|Hb];
      rewrite <-Heq in Hb; [|lia].
    rewrite Hn in Hb. split.
    + rewrite Htake; [done|lia].
    + apply lookup_slice. fold slice.
      pose proof (lastIndexOf_lookup slice needle 1 32%N) as H.
      rewrite <-Heq in H.
      replace (Z.to_nat (lastSentence + 1)) with (Z.to_nat lastSentence + 1)%nat
        by lia.
      apply H; [lia|done].
  - intros Hp Hs Hsp. rewrite !bool_decide_eq_false_2 by lia.
    rewrite bool_decide_eq_true_2 by done.
    pose proof (lastIndexOf_from_bound slice (lit " ") 277) as Hb.
    fold lastSpace in Hb. split.
    + rewrite Htake; [done|lia].
    + apply lookup_slice. fold slice. revert Hsp. unfold lastSpace.
      unfold Str.lastIndexOf_from.
      destruct (Str.last_match (lit " ") _) as [i|] eqn:H; simpl; [|lia].
      intros _. rewrite Nat2Z.id.
      pose proof (last_match_lookup _ _ i 0 32%N H eq_refl) as Hl.
      rewrite Nat.add_0_r in Hl. by apply lookup_take_Some in Hl as [Hl _].
  - intros Hp Hs Hsp. rewrite !bool_decide_eq_false_2 by lia.
    rewrite Htake; [done|lia].
Qed.

(** X12.  When the text has a space at an index from 1 to 277, the cut
    falls just before a white-space character of the text: the result does
    not end inside a word. *)
Lemma truncate_tweet_word_boundary (cleaned : jstr) (i : nat) :
  (0 < i ≤ 277)%nat → cleaned !! i = Some 32%N →
  ∃ cut c,
    cleaned !! cut = Some c ∧ Str.is_white c = true
    ∧ (truncate_tweet cleaned = Str.trim (take cut cleaned)
       ∨ truncate_tweet cleaned = Str.trim (take cut cleaned) ++ lit "...").
Proof.
  intros Hi Hsp.
  assert (Hfound : Str.lastIndexOf_from (take 280 cleaned) (lit " ") 277 > 0).
  { apply (lastSpace_found _ i Hi). rewrite lookup_take_lt by lia. done. }
  destruct (truncate_tweet_cuts cleaned) as (Hpara & Hsent & Hspace & _).
  destruct (Z_gt_le_dec (Str.lastIndexOf (take 280 cleaned) (nl ++ nl)) 150)
    as [Hp|Hp].
  { destruct (Hpara Hp) as [-> Hc]. eexists _, _. split; [exact Hc|]. auto. }
  match type of Hsent with _ → ?s > 150 → _ =>
    destruct (Z_gt_le_dec s 150) as [Hs|Hs] end.
  { destruct (Hsent Hp Hs) as [-> Hc]. eexists _, _. split; [exact Hc|]. auto. }
  destruct (Hspace Hp Hs Hfound) as [-> Hc].
  eexists _, _. split; [exact Hc|]. auto.
Qed.

(** ** Examples *)

Example parse_array_of_objects :
  Json.parse (qlit " [ {'concept': 'A', 'relevance_score': 8.5e-1, 'tags': [true, null]}, 7 ] ")
  = Some (JArr [ JObj [ (lit "concept", JStr (lit "A"));
                        (lit "relevance_score", JNum (Number.round (17 # 20)));
                        (lit "tags", JArr [JBool true; JNull]) ];
                 JNum (Number.Finite 7) ]).
Proof. vm_compute. reflexivity. Qed.

(** A number literal denotes the nearest binary64 value: two literals that
    round to the same value are the same number, a literal below the
    smallest subnormal is zero, one beyond the largest finite value is
    infinite. *)
Example parse_rounds_numbers :
  Json.parse (lit "0.30000000000000001") = Json.parse (lit "0.3")
  ∧ Json.parse (lit "0.1")
    = Some (JNum (Number.Finite (3602879701896397 # 36028797018963968)))
  ∧ Json.parse (lit "1e-400") = Some (JNum (Number.Finite 0))
  ∧ Json.parse (lit "1e999") = Some (JNum (Number.Infinity false))
  ∧ Json.parse (lit "9007199254740993")
    = Some (JNum (Number.Finite 9007199254740992)).
Proof. repeat split; vm_compute; reflexivity. Qed.

Example parse_rejects :
  Json.parse (qlit "[1, 2,]") = None
  ∧ Json.parse (qlit "[ranked]: [1]") = None
  ∧ Json.parse (qlit "[1] and more]") = None
  ∧ Json.parse (qlit "{'a': 01}") = None
  ∧ Json.parse (qlit "['unterminated]") = None.
Proof. repeat split; vm_compute; reflexivity. Qed.

Example match_bracketed_greedy :
  match_bracketed (lit "see [1] and [2] here") = Some (lit "[1] and [2]")
  ∧ match_bracketed (lit "] before [ only") = None
  ∧ match_bracketed (lit "no brackets at all") = None.
Proof. repeat split; vm_compute; reflexivity. Qed.

(** Three replies that lead to the fallback set: no array, text that is not
    JSON between the brackets, an array with a [null]. *)
Example parsePostIdeas_fallback_cases :
  Runtime.parsePostIdeasFromResponse (lit "I could not find any trend.")
    emptyTrends
  = Runtime.Array Runtime.fallbackIdeas
  ∧ Runtime.parsePostIdeasFromResponse (qlit "[{'concept': 'A',}]")
      emptyTrends
    = Runtime.Array Runtime.fallbackIdeas
  ∧ Runtime.parsePostIdeasFromResponse (qlit "[{'concept': 'A'}, null]")
      emptyTrends
    = Runtime.Array Runtime.fallbackIdeas.
Proof. repeat split; vm_compute; reflexivity. Qed.

(** A zero score and an empty concept are replaced like missing ones, and
    the identifiers follow the positions in the array, not the ranks. *)
Example parsePostIdeas_defaults :
  parsePostIdeasFromResponse
    (qlit "[{'concept': '', 'relevance_score': 0}, {'concept': 'B', 'relevance_score': 0.9}]")
    emptyTrends
  = Ideas [ {| idea_id := lit "idea_2"; concept := lit "B";
               trend_source := JStr (lit "General trend analysis");
               relevance_score := JNum (Number.round (9 # 10));
               business_benefit :=
                 JStr (lit "Provides engagement opportunity") |};
            {| idea_id := lit "idea_1"; concept := lit "Business idea 1";
               trend_source := JStr (lit "General trend analysis");
               relevance_score := JNum (Number.Finite (1 # 2));
               business_benefit :=
                 JStr (lit "Provides engagement opportunity") |} ].
Proof. vm_compute. reflexivity. Qed.

(** Nothing checks the types of the fields: a score given as a string is
    kept as the string and ordered by the number it converts to; a score
    that converts to no number makes every comparison of the sort answer
    NaN, and the order of the result is left to the engine. *)
Example parsePostIdeas_untyped_scores :
  (∃ a b,
     Runtime.parsePostIdeasFromResponse
       (qlit "[{'concept':'A','relevance_score':'0.2'},{'concept':'B','relevance_score':'0.9'}]")
       emptyTrends = Runtime.Array [b; a]
     ∧ Runtime.concept a = JStr (lit "A")
     ∧ Runtime.relevance_score a = JStr (lit "0.2")
     ∧ Runtime.concept b = JStr (lit "B")
     ∧ Runtime.relevance_score b = JStr (lit "0.9"))
  ∧ (∃ mapped,
       Runtime.parsePostIdeasFromResponse
         (qlit "[{'concept':'A','relevance_score':'high'},{'concept':'B','relevance_score':0.9},{'concept':'C','relevance_score':0.1}]")
         emptyTrends = Runtime.EngineDefined mapped
       ∧ length mapped = 3%nat).
Proof.
  split.
  - eexists _, _. split; [vm_compute; reflexivity|]. repeat split.
  - eexists. split; [vm_compute; reflexivity|]. reflexivity.
Qed.

Example cleanup_strips_prefix_and_quotes :
  cleanupGeneratedContent (qlit "  TWEET: 'Bitcoin is back.'  ") (lit "twitter")
  = lit "Bitcoin is back."
  ∧ cleanupGeneratedContent (lit "Caption: gm #crypto") (lit "instagram")
    = lit "gm" ++ nl ++ nl ++ lit "#crypto".
Proof. split; vm_compute; reflexivity. Qed.

(** A text of 300 characters with its last sentence end at index 199 is cut
    after the full stop; one without any space is cut at 277 and gets the
    ellipsis. *)
Example truncate_at_sentence :
  truncate_tweet (replicate 199 97%N ++ lit ". " ++ replicate 99 98%N)
  = replicate 199 97%N ++ lit "."
  ∧ truncate_tweet (replicate 300 97%N) = replicate 277 97%N ++ lit "...".
Proof. split; vm_compute; reflexivity. Qed.

(* ===================================================================== *)
(** * Further properties                                                  *)
(* ===================================================================== *)

(** ** The cache *)

Section cache_further.
Context {V : Type} (null : V).
Implicit Types (cache : gmap (list N) (CacheManager.Entry (V:=V))).

Lemma get_store cache (now : Z) (k : jstr) :
  (CacheManager.get null now k cache).2 = cache
  ∨ ((CacheManager.get null now k cache).2 = delete k cache
     ∧ (CacheManager.get null now k cache).1 = null).
Proof.
  unfold CacheManager.get. destruct (cache !! k) as [e|]; [|by auto].
  case_bool_decide; simpl; by auto.
Qed.

(** X1.  A lookup never adds or alters an entry: it leaves the map as it
    is, or removes the entry of the key looked up and nothing else, and in
    that case it returns [null]. *)
Theorem cache_get_only_evicts cache (now : Z) (k : jstr) :
  (CacheManager.get null now k cache).2 ⊆ cache
  ∧ ((CacheManager.get null now k cache).2 = cache
     ∨ ((CacheManager.get null now k cache).2 = delete k cache
        ∧ (CacheManager.get null now k cache).1 = null)).
Proof.
  split; [|apply get_store].
  destruct (get_store cache now k) as [->|[-> _]]; [done|].
  apply delete_subseteq.
Qed.

(** X2.  The last write wins: after two [set]s under one key the map is the
    one the second [set] alone would give, and a read within the second
    time-to-live returns the second value, whatever the first expiry was. *)
Theorem cache_set_overwrites cache (k : jstr) (v1 v2 : V)
    (ttl1 ttl2 now1 now2 now : Z) :
  now < now2 + ttl2 * 1000 →
  CacheManager.set now2 k v2 ttl2 (CacheManager.set now1 k v1 ttl1 cache)
  = CacheManager.set now2 k v2 ttl2 cache
  ∧ (CacheManager.get null now k
       (CacheManager.set now2 k v2 ttl2
          (CacheManager.set now1 k v1 ttl1 cache))).1 = v2.
Proof.
  intros Hnow.
  assert (Heq : CacheManager.set now2 k v2 ttl2
                  (CacheManager.set now1 k v1 ttl1 cache)
                = CacheManager.set now2 k v2 ttl2 cache).
  { unfold CacheManager.set. apply insert_insert_eq. }
  split; [exact Heq|]. rewrite Heq.
  unfold CacheManager.get, CacheManager.set. rewrite lookup_insert_eq. simpl.
  rewrite bool_decide_eq_true_2; [done|lia].
Qed.

(** X3.  Keys do not interfere: what [get] returns for a key is not
    changed by a [set] or by a [get] on another key. *)
Theorem cache_keys_independent cache (k k' : jstr) (v : V)
    (ttl now now' : Z) :
  k ≠ k' →
  (CacheManager.get null now k (CacheManager.set now' k' v ttl cache)).1
  = (CacheManager.get null now k cache).1
  ∧ (CacheManager.get null now k
       (CacheManager.get null now' k' cache).2).1
    = (CacheManager.get null now k cache).1.
Proof.
  intros Hne. split.
  - unfold CacheManager.get, CacheManager.set.
    rewrite lookup_insert_ne by done.
    destruct (cache !! k) as [e|]; [|done]. by case_bool_decide.
  - assert (Hk : (CacheManager.get null now' k' cache).2 !! k = cache !! k).
    { destruct (get_store cache now' k') as [->|[-> _]]; [done|].
      by rewrite lookup_delete_ne. }
    unfold CacheManager.get at 1 3. rewrite Hk.
    destruct (cache !! k) as [e|]; [|done]. by case_bool_decide.
Qed.

(** X4.  Reading a key twice at the same moment gives the same value, and
    the second read changes nothing. *)
Theorem cache_get_twice cache (now : Z) (k : jstr) :
  CacheManager.get null now k (CacheManager.get null now k cache).2
  = CacheManager.get null now k cache.
Proof.
  unfold CacheManager.get at 2 3.
  destruct (cache !! k) as [e|] eqn:Hk.
  - case_bool_decide as He; simpl.
    + unfold CacheManager.get. rewrite Hk. by rewrite bool_decide_eq_true_2.
    + unfold CacheManager.get. by rewrite lookup_delete_eq.
  - simpl. unfold CacheManager.get. by rewrite Hk.
Qed.

End cache_further.

Lemma cache_keys_independent_witness :
  let k := lit "google-trends:keywords:btc|location:Global" in
  let k' := lit "coingecko:trending" in
  let cache :=
    CacheManager.set 0 k (JArr [JStr (lit "btc price")]) 7200 ∅ in
  k ≠ k'
  ∧ (CacheManager.get JNull 5000 k
       (CacheManager.set 4000 k' (JArr []) 7200 cache)).1
    = (CacheManager.get JNull 5000 k cache).1
  ∧ (CacheManager.get JNull 5000 k
       (CacheManager.get JNull 4000 k' cache).2).1
    = (CacheManager.get JNull 5000 k cache).1.
Proof.
  intros k k' cache.
  assert (Hne : k ≠ k') by (intros H; vm_compute in H; discriminate H).
  split; [exact Hne|].
  exact (cache_keys_independent JNull cache k k' (JArr []) 7200 5000 4000 Hne).
Defined.

Lemma cache_set_overwrites_witness :
  let k := lit "coingecko:trending" in
  let first := CacheManager.set 0 k (JArr [JStr (lit "BTC")]) 1 ∅ in
  let second := CacheManager.set 5000 k (JArr [JStr (lit "ETH")]) 7200 first in
  6000 < 5000 + 7200 * 1000
  ∧ second = CacheManager.set 5000 k (JArr [JStr (lit "ETH")]) 7200 ∅
  ∧ (CacheManager.get JNull 6000 k second).1 = JArr [JStr (lit "ETH")].
Proof.
  intros k first second.
  assert (H : 6000 < 5000 + 7200 * 1000) by lia.
  split; [exact H|].
  exact (cache_set_overwrites JNull ∅ k (JArr [JStr (lit "BTC")])
           (JArr [JStr (lit "ETH")]) 1 7200 0 5000 6000 H).
Defined.

(** ** The cache key, for names and values without separators *)

Lemma split_at_separator (c : jchar) (a b x y : jstr) :
  c ∉ a → c ∉ b → a ++ c :: x = b ++ c :: y → a = b ∧ x = y.
Proof.
  revert b. induction a as [|a0 a IH]; intros [|b0 b] Ha Hb; simpl.
  - by intros [= ->].
  - intros [= <- _]. destruct Hb. left.
  - intros [= -> _]. destruct Ha. left.
  - apply not_elem_of_cons in Ha as [_ Ha], Hb as [_ Hb].
    intros [= -> H]. destruct (IH b Ha Hb H) as [-> ->]. done.
Qed.

Lemma join_cons_cons (sep p q : jstr) (rest : list jstr) :
  Str.join sep (p :: q :: rest) = p ++ sep ++ Str.join sep (q :: rest).
Proof. done. Qed.

Lemma join_nonempty (sep p : jstr) (rest : list jstr) :
  p ≠ [] → Str.join sep (p :: rest) ≠ [].
Proof.
  intros Hp. destruct rest; simpl; [done|].
  destruct p; [done|]. done.
Qed.

(** Joining parts that are not empty and hold no separator loses nothing. *)
Lemma join_inj (c : jchar) (l1 l2 : list jstr) :
  Forall (λ part, (c ∉ part) ∧ part ≠ []) l1 →
  Forall (λ part, (c ∉ part) ∧ part ≠ []) l2 →
  Str.join [c] l1 = Str.join [c] l2 → l1 = l2.
Proof.
  intros H1. revert l2. induction H1 as [|p r1 [Hp Hpne] H1 IH];
    intros l2 H2 Heq.
  - destruct H2 as [|q r2 [Hq Hqne] H2]; [done|].
    symmetry in Heq. by apply join_nonempty in Heq.
  - destruct H2 as [|q r2 [Hq Hqne] H2].
    { by apply join_nonempty in Heq. }
    destruct r1 as [|p' r1], r2 as [|q' r2].
    + simpl in Heq. by subst.
    + rewrite join_cons_cons in Heq. simpl in Heq. subst p.
      destruct Hp. apply elem_of_app. right. left.
    + rewrite join_cons_cons in Heq. simpl in Heq. subst q.
      destruct Hq. apply elem_of_app. right. left.
    + rewrite !join_cons_cons in Heq. simpl in Heq.
      apply split_at_separator in Heq as [-> Heq]; [|done..].
      f_equal. by apply IH.
Qed.

Section generateKey_injective.
Implicit Types (params : list (jstr * jstr)).

(** The value a template literal shows for [params[key]]. *)
Lemma sorted_pairs_Permutation params :
  NoDup params.*1 →
  (λ key, (key, default (lit "undefined") (CacheManager.property params key)))
    <$> js_sort Str.leb params.*1 ≡ₚ params.
Proof.
  intros Hnd. rewrite js_sort_Permutation, <-list_fmap_compose.
  assert (Heq : ((λ key, (key, default (lit "undefined")
                                 (CacheManager.property params key))) ∘ fst)
                  <$> params = params); [|by rewrite Heq].
  rewrite <-(list_fmap_id params) at 2.
  apply list_fmap_ext. intros _ [k v] Hin%list_elem_of_lookup_2.
  simpl. by rewrite (proj2 (property_Some params k v Hnd) Hin).
Qed.

(** X5.  For string-valued parameters whose names hold neither ':' nor '|'
    and whose values hold no '|', the key determines the parameters: two
    objects that give the same key under one prefix hold the same (name,
    value) pairs. *)
Theorem generateKey_injective_without_separators (prefix : jstr)
    params1 params2 :
  NoDup params1.*1 → NoDup params2.*1 →
  Forall (λ kv, (58%N ∉ kv.1) ∧ (124%N ∉ kv.1) ∧ (124%N ∉ kv.2)) params1 →
  Forall (λ kv, (58%N ∉ kv.1) ∧ (124%N ∉ kv.1) ∧ (124%N ∉ kv.2)) params2 →
  CacheManager.generateKey (λ v, v) prefix params1
  = CacheManager.generateKey (λ v, v) prefix params2 →
  params1 ≡ₚ params2.
Proof.
  intros Hnd1 Hnd2 Hf1 Hf2 Hkey. unfold CacheManager.generateKey in Hkey.
  apply app_inv_head, app_inv_head in Hkey.
  change (lit "|") with [124%N] in Hkey.
  assert (Hparts : ∀ params, NoDup params.*1 →
    Forall (λ kv, (58%N ∉ kv.1) ∧ (124%N ∉ kv.1) ∧ (124%N ∉ kv.2)) params →
    Forall (λ key, (58%N ∉ key) ∧ (124%N ∉ key)
                   ∧ (124%N ∉ default (lit "undefined")
                                (CacheManager.property params key)))
      (js_sort Str.leb params.*1)).
  { intros params Hnd Hf. rewrite js_sort_Permutation.
    apply Forall_fmap, Forall_forall. intros [k v] Hin. simpl.
    rewrite Forall_forall in Hf. destruct (Hf _ Hin) as (? & ? & ?).
    by rewrite (proj2 (property_Some params k v Hnd) Hin). }
  assert (Hsegs : ∀ params keys,
    Forall (λ key, (58%N ∉ key) ∧ (124%N ∉ key)
                   ∧ (124%N ∉ default (lit "undefined")
                                (CacheManager.property params key))) keys →
    Forall (λ part, (124%N ∉ part) ∧ part ≠ [])
      ((λ key, key ++ lit ":" ++
               match CacheManager.property params key with
               | Some v => v
               | None => lit "undefined"
               end) <$> keys)).
  { intros params keys Hk. apply Forall_fmap.
    eapply Forall_impl; [exact Hk|]. intros key (_ & Hbar & Hv). simpl. split.
    - rewrite elem_of_app. intros [?|Hin]; [done|].
      apply elem_of_cons in Hin as [?|Hin]; [done|].
      by destruct (CacheManager.property params key).
    - by destruct key. }
  apply join_inj in Hkey; [|by apply Hsegs, Hparts..].
  rewrite <-(sorted_pairs_Permutation params1 Hnd1).
  rewrite <-(sorted_pairs_Permutation params2 Hnd2).
  match goal with |- ?l ≡ₚ ?r => assert (l = r) as ->; [|done] end.
  pose proof (Hparts params1 Hnd1 Hf1) as Hk1.
  pose proof (Hparts params2 Hnd2 Hf2) as Hk2.
  revert Hkey Hk1 Hk2.
  generalize (js_sort Str.leb params1.*1) (js_sort Str.leb params2.*1).
  intros keys1. induction keys1 as [|k1 keys1 IH]; intros [|k2 keys2];
    simpl; try done.
  intros [= Hseg Hrest] [(Hc1 & _ & _) Hk1]%Forall_cons
         [(Hc2 & _ & _) Hk2]%Forall_cons.
  change (lit ":") with [58%N] in Hseg. simpl in Hseg.
  apply split_at_separator in Hseg as [-> Hv]; [|done..].
  f_equal; [|by apply IH]. f_equal.
  by destruct (CacheManager.property params1 k2),
              (CacheManager.property params2 k2).
Qed.

End generateKey_injective.

Lemma generateKey_injective_without_separators_witness :
  let params1 := [(lit "location", lit "Global"); (lit "keywords", lit "btc,eth")] in
  let params2 := [(lit "keywords", lit "btc,eth"); (lit "location", lit "Global")] in
  NoDup params1.*1 ∧ NoDup params2.*1
  ∧ Forall (λ kv, (58%N ∉ kv.1) ∧ (124%N ∉ kv.1) ∧ (124%N ∉ kv.2)) params1
  ∧ Forall (λ kv, (58%N ∉ kv.1) ∧ (124%N ∉ kv.1) ∧ (124%N ∉ kv.2)) params2
  ∧ CacheManager.generateKey (λ v, v) (lit "google-trends") params1
    = CacheManager.generateKey (λ v, v) (lit "google-trends") params2
  ∧ params1 ≡ₚ params2.
Proof.
  intros params1 params2.
  assert (Hnd1 : NoDup params1.*1).
  { apply (bool_decide_unpack (NoDup params1.*1)). vm_compute. exact I. }
  assert (Hnd2 : NoDup params2.*1).
  { apply (bool_decide_unpack (NoDup params2.*1)). vm_compute. exact I. }
  assert (Hf1 : Forall (λ kv, (58%N ∉ kv.1) ∧ (124%N ∉ kv.1) ∧ (124%N ∉ kv.2)) params1).
  { apply (bool_decide_unpack (Forall _ params1)). vm_compute. exact I. }
  assert (Hf2 : Forall (λ kv, (58%N ∉ kv.1) ∧ (124%N ∉ kv.1) ∧ (124%N ∉ kv.2)) params2).
  { apply (bool_decide_unpack (Forall _ params2)). vm_compute. exact I. }
  assert (Hkey : CacheManager.generateKey (λ v, v) (lit "google-trends") params1
                 = CacheManager.generateKey (λ v, v) (lit "google-trends") params2).
  { vm_compute. reflexivity. }
  split; [exact Hnd1|]. split; [exact Hnd2|]. split; [exact Hf1|].
  split; [exact Hf2|]. split; [exact Hkey|].
  exact (generateKey_injective_without_separators (lit "google-trends")
           params1 params2 Hnd1 Hnd2 Hf1 Hf2 Hkey).
Defined.

(** ** Trimming *)

Lemma trimStart_head (s : jstr) :
  Str.trimStart s = []
  ∨ ∃ c r, Str.trimStart s = c :: r ∧ Str.is_white c = false.
Proof.
  induction s as [|c s IH]; simpl; [by left|].
  destruct (Str.is_white c) eqn:Hc; [done|]. right. eauto.
Qed.

Lemma trimStart_nonwhite (c : jchar) (r : jstr) :
  Str.is_white c = false → Str.trimStart (c :: r) = c :: r.
Proof. intros H. simpl. by rewrite H. Qed.

Lemma trimStart_snoc (s : jstr) (c : jchar) :
  Str.is_white c = false → Str.trimStart (s ++ [c]) = Str.trimStart s ++ [c].
Proof.
  intros H. induction s as [|b s IH]; simpl; [by rewrite H|].
  by destruct (Str.is_white b).
Qed.

Lemma trimStart_idem (s : jstr) :
  Str.trimStart (Str.trimStart s) = Str.trimStart s.
Proof.
  destruct (trimStart_head s) as [->|(c & r & -> & Hc)]; [done|].
  by apply trimStart_nonwhite.
Qed.

Lemma trimEnd_nonwhite (c : jchar) (r : jstr) :
  Str.is_white c = false → Str.trimEnd (c :: r) = c :: Str.trimEnd r.
Proof.
  intros H. unfold Str.trimEnd.
  rewrite reverse_cons, trimStart_snoc by done.
  by rewrite reverse_app.
Qed.

Lemma trimEnd_idem (s : jstr) : Str.trimEnd (Str.trimEnd s) = Str.trimEnd s.
Proof.
  unfold Str.trimEnd. by rewrite reverse_involutive, trimStart_idem.
Qed.

(** Trimming a trimmed text changes nothing. *)
Lemma trim_idem (s : jstr) : Str.trim (Str.trim s) = Str.trim s.
Proof.
  unfold Str.trim.
  destruct (trimStart_head s) as [->|(c & r & -> & Hc)]; [done|].
  rewrite trimEnd_nonwhite by done. rewrite trimStart_nonwhite by done.
  rewrite trimEnd_nonwhite by done. by rewrite trimEnd_idem.
Qed.

(** ** The keyword parser *)

(** X6.  Whatever the model answers, [parseKeywordsFromResponse] returns at
    most twelve keywords, each of 1 to 49 code units and with no white
    space at either end. *)
Theorem parseKeywords_bounds (content : jstr) :
  (length (parseKeywordsFromResponse content) ≤ 12)%nat
  ∧ Forall (λ keyword, (0 < length keyword < 50)%nat
                       ∧ Str.trim keyword = keyword)
      (parseKeywordsFromResponse content).
Proof.
  unfold parseKeywordsFromResponse. split.
  - rewrite length_take. lia.
  - apply Forall_take, Forall_forall.
    intros keyword [Hlen Hin]%list_elem_of_filter. split; [done|].
    apply list_elem_of_fmap in Hin as (raw & -> & _). apply trim_idem.
Qed.

Lemma split_no_separator (c : jchar) (s : jstr) :
  c ∉ s → Str.split c s = [s].
Proof.
  induction s as [|b s IH]; intros Hc; [done|].
  apply not_elem_of_cons in Hc as [Hne Hc]. simpl.
  destruct (N.eqb_spec b c) as [->|_]; [done|]. by rewrite IH.
Qed.

Lemma split_at (c : jchar) (a rest : jstr) :
  c ∉ a → Str.split c (a ++ c :: rest) = a :: Str.split c rest.
Proof.
  induction a as [|b a IH]; intros Hc; simpl.
  - by rewrite N.eqb_refl.
  - apply not_elem_of_cons in Hc as [Hne Hc].
    destruct (N.eqb_spec b c) as [->|_]; [done|]. by rewrite IH.
Qed.

Lemma split_join_comma (pre k : jstr) (rest : list jstr) :
  44%N ∉ pre → Forall (λ k, 44%N ∉ k) (k :: rest) →
  Str.split 44 (pre ++ Str.join (lit ", ") (k :: rest))
  = (pre ++ k) :: ((λ k, 32%N :: k) <$> rest).
Proof.
  revert pre k. induction rest as [|k' rest IH]; intros pre k Hpre Hall.
  - apply Forall_cons in Hall as [Hk _]. simpl.
    apply split_no_separator. rewrite elem_of_app. tauto.
  - apply Forall_cons in Hall as [Hk Hall].
    rewrite join_cons_cons. change (lit ", ") with [44%N; 32%N].
    replace (pre ++ k ++ [44%N; 32%N] ++ Str.join [44%N; 32%N] (k' :: rest))
      with ((pre ++ k) ++ 44%N :: ([32%N] ++ Str.join [44%N; 32%N] (k' :: rest)))
      by (by rewrite <-!app_assoc).
    rewrite split_at by (rewrite elem_of_app; tauto).
    f_equal. change [44%N; 32%N] with (lit ", ").
    rewrite IH; [done| |done].
    by intros [?|?%elem_of_nil]%elem_of_cons.
Qed.

Lemma trim_fixed (s : jstr) :
  Str.trim s = s ↔ Str.trimStart s = s ∧ Str.trimEnd s = s.
Proof.
  split.
  - intros H. unfold Str.trim in H.
    destruct (trimStart_head s) as [H0|(c & r & Hs & Hc)].
    + rewrite H0 in H. by subst s.
    + rewrite Hs, trimEnd_nonwhite in H by done.
      assert (Hst : Str.trimStart s = s).
      { rewrite <-H. by apply trimStart_nonwhite. }
      split; [done|]. rewrite <-Hst at 1. rewrite Hs.
      by rewrite trimEnd_nonwhite.
  - intros [H1 H2]. unfold Str.trim. by rewrite H1.
Qed.

Lemma trimStart_app (a b : jstr) :
  a ≠ [] → Str.trimStart a = a → Str.trimStart (a ++ b) = a ++ b.
Proof.
  destruct a as [|c a]; [done|]. intros _ H. simpl in *.
  destruct (Str.is_white c); [|done].
  pose proof (length_trimStart a) as Hlen. rewrite H in Hlen. simpl in Hlen. lia.
Qed.

Lemma trimEnd_app (a b : jstr) :
  b ≠ [] → Str.trimEnd b = b → Str.trimEnd (a ++ b) = a ++ b.
Proof.
  intros Hb H. unfold Str.trimEnd in *.
  rewrite reverse_app, trimStart_app.
  - by rewrite <-reverse_app, reverse_involutive.
  - intros Hr. apply Hb. by rewrite <-(reverse_involutive b), Hr.
  - by rewrite <-H at 2; rewrite reverse_involutive.
Qed.

Lemma join_trimmed (k : jstr) (rest : list jstr) :
  Forall (λ k, k ≠ [] ∧ Str.trim k = k) (k :: rest) →
  Str.trim (Str.join (lit ", ") (k :: rest)) = Str.join (lit ", ") (k :: rest).
Proof.
  intros Hall. apply trim_fixed. revert k Hall.
  induction rest as [|k' rest IH]; intros k Hall.
  - apply Forall_cons in Hall as [[_ Hk] _]. by apply trim_fixed.
  - apply Forall_cons in Hall as [[Hne Hk] Hall].
    apply trim_fixed in Hk as [Hs He]. destruct (IH k' Hall) as [_ IHe].
    rewrite join_cons_cons. split.
    + by apply trimStart_app.
    + rewrite app_assoc. apply trimEnd_app; [|done].
      apply join_nonempty. by apply Forall_cons in Hall as [[? _] _].
Qed.

Lemma filter_all {A} (P : A → Prop) `{∀ x, Decision (P x)} (l : list A) :
  Forall P l → filter P l = l.
Proof.
  induction 1 as [|x l Hx Hl IH]; [done|].
  rewrite filter_cons, decide_True by done. by rewrite IH.
Qed.

Lemma parseKeywords_single_line (content : jstr) :
  10%N ∉ content →
  parseKeywordsFromResponse content
  = take 12 (filter (λ keyword, 0 < length keyword < 50)%nat
               (Str.trim <$> Str.split 44 (Str.trim content))).
Proof.
  intros Hnl. unfold parseKeywordsFromResponse.
  rewrite (split_no_separator 10 content) by done. simpl.
  destruct (is_keyword_line content) eqn:Hline; [|done].
  by case_bool_decide as Hk; [|done].
Qed.

(** X7.  Round trip: a list of at most twelve keywords, each of 1 to 49
    code units, trimmed, and holding neither a comma nor a line feed, is
    read back unchanged from the line that lists them separated by a comma
    and a space. *)
Theorem parseKeywords_roundtrip (keywords : list jstr) :
  (length keywords ≤ 12)%nat →
  Forall (λ k, (0 < length k < 50)%nat ∧ Str.trim k = k
               ∧ (44%N ∉ k) ∧ (10%N ∉ k)) keywords →
  parseKeywordsFromResponse (Str.join (lit ", ") keywords) = keywords.
Proof.
  intros Hlen Hall. destruct keywords as [|k rest]; [done|].
  assert (Hnl : 10%N ∉ Str.join (lit ", ") (k :: rest)).
  { clear Hlen. revert k Hall. induction rest as [|k' rest IH]; intros k Hall.
    - by apply Forall_cons in Hall as [(_ & _ & _ & ?) _].
    - apply Forall_cons in Hall as [(_ & _ & _ & Hk) Hall].
      rewrite join_cons_cons, !elem_of_app.
      intros [?|[Hin|Hin]]; [done| |by apply (IH k')].
      vm_compute in Hin. by repeat (inv Hin; try match goal with
        H : _ ∈ _ |- _ => rename H into Hin end). }
  rewrite parseKeywords_single_line by done.
  rewrite join_trimmed.
  2:{ eapply Forall_impl; [exact Hall|]. intros k0 (Hl & Ht & _). split; [|done].
      intros ->. simpl in Hl. lia. }
  pose proof (split_join_comma [] k rest) as Hsplit.
  rewrite !app_nil_l in Hsplit.
  rewrite Hsplit; [|by intros ?%elem_of_nil|].
  2:{ eapply Forall_impl; [exact Hall|]. by intros k0 (_ & _ & ? & _). }
  assert (Htrim : Str.trim <$> k :: ((λ k, 32%N :: k) <$> rest) = k :: rest).
  { rewrite fmap_cons. apply Forall_cons in Hall as [(_ & Hk & _) Hall].
    rewrite Hk. f_equal. rewrite <-list_fmap_compose.
    rewrite <-(list_fmap_id rest) at 2. apply list_fmap_ext.
    intros i k0 Hin. rewrite Forall_forall in Hall.
    destruct (Hall k0) as (_ & Hk0 & _); [by eapply list_elem_of_lookup_2|].
    simpl. exact Hk0. }
  rewrite Htrim. rewrite filter_all.
  - by apply take_ge.
  - eapply Forall_impl; [exact Hall|]. by intros ? [? _].
Qed.

Lemma parseKeywords_roundtrip_witness :
  let keywords := [lit "bitcoin etf"; lit "ai agents"; lit "defi yield"] in
  (length keywords ≤ 12)%nat
  ∧ Forall (λ k, (0 < length k < 50)%nat ∧ Str.trim k = k
                 ∧ (44%N ∉ k) ∧ (10%N ∉ k)) keywords
  ∧ parseKeywordsFromResponse (lit "bitcoin etf, ai agents, defi yield")
    = keywords.
Proof.
  intros keywords.
  assert (Hlen : (length keywords ≤ 12)%nat) by (simpl; lia).
  assert (Hall : Forall (λ k, (0 < length k < 50)%nat ∧ Str.trim k = k
                              ∧ (44%N ∉ k) ∧ (10%N ∉ k)) keywords).
  { apply (bool_decide_unpack (Forall _ keywords)). vm_compute. exact I. }
  split; [exact Hlen|]. split; [exact Hall|].
  exact (parseKeywords_roundtrip keywords Hlen Hall).
Defined.

(** ** The idea parser: what every returned list satisfies *)

Lemma lit_inj (s1 s2 : string) : lit s1 = lit s2 → s1 = s2.
Proof.
  revert s2. induction s1 as [|a s1 IH]; intros [|b s2]; simpl; try done.
  intros [= Hab H]. f_equal; [|by apply IH].
  by rewrite <-(Ascii.ascii_N_embedding a), <-(Ascii.ascii_N_embedding b), Hab.
Qed.

Lemma of_nat_inj (n m : nat) : Str.of_nat n = Str.of_nat m → n = m.
Proof. unfold Str.of_nat. intros H%lit_inj. by apply (inj pretty). Qed.

Lemma or_else_truthy (v d : JsValue) :
  truthy d = true → truthy (Runtime.or_else v d) = true.
Proof. unfold Runtime.or_else. by destruct (truthy v) eqn:H. Qed.

(** What the callback guarantees of every idea it builds. *)
Lemma map_idea_fields (index : nat) (elem : JsValue) (i : Runtime.PostIdea) :
  Runtime.map_idea index elem = Some i →
  Runtime.idea_id i = lit "idea_" ++ Str.of_nat (index + 1)
  ∧ truthy (Runtime.concept i) = true
  ∧ truthy (Runtime.trend_source i) = true
  ∧ truthy (Runtime.relevance_score i) = true
  ∧ truthy (Runtime.business_benefit i) = true.
Proof.
  unfold Runtime.map_idea.
  destruct (get_prop elem (lit "concept")) as [c|]; [|done].
  destruct (get_prop elem (lit "trend_source")) as [t|]; [|done].
  destruct (get_prop elem (lit "relevance_score")) as [r|]; [|done].
  destruct (get_prop elem (lit "business_benefit")) as [b|]; [|done].
  intros [= <-]. simpl. split; [done|].
  repeat split; by apply or_else_truthy.
Qed.

Lemma mapped_ideas_lookup (elems : list JsValue)
    (mapped : list Runtime.PostIdea) (j : nat) (i : Runtime.PostIdea) :
  mapM id (imap Runtime.map_idea elems) = Some mapped →
  mapped !! j = Some i →
  ∃ elem, elems !! j = Some elem ∧ Runtime.map_idea j elem = Some i.
Proof.
  intros Hm%mapM_Some_1 Hj.
  destruct (Forall2_lookup_r _ _ _ _ _ Hm Hj) as (m & Hmj & Hmi).
  apply list_lookup_imap_Some in Hmj as (elem & Helem & ->).
  exists elem. split; [done|]. exact Hmi.
Qed.

(** The outcomes of [sort] that are an array. *)
Lemma sort_in_order (l sorted : list Runtime.PostIdea) :
  Runtime.sort l = Runtime.InOrder sorted →
  sorted ≡ₚ l
  ∧ StronglySorted (λ a b, Runtime.by_relevance a b = true) sorted.
Proof.
  destruct l as [|a [|b l]].
  - intros [= <-]. split; [done|constructor].
  - intros [= <-]. split; [done|]. repeat constructor.
  - unfold Runtime.sort. set (l' := a :: b :: l). clearbody l'.
    destruct (existsb Runtime.score_throws l') eqn:Hthrow; [done|].
    destruct (Runtime.consistent l') eqn:Hcons; [|done].
    intros [= <-]. split; [apply js_sort_Permutation|].
    unfold Runtime.consistent in Hcons.
    apply orb_true_iff in Hcons as [Hnan|Htied].
    + apply negb_true_iff in Hnan.
      apply (js_sort_sorted_on Runtime.by_relevance has_number
               by_relevance_total by_relevance_trans).
      apply Forall_forall. intros i Hi%list_elem_of_In.
      assert (Ht : Runtime.score_throws i = false).
      { apply not_true_is_false. intros Ht.
        assert (existsb Runtime.score_throws l' = true); [|congruence].
        apply existsb_exists. eauto. }
      assert (Hn : Runtime.score_is_nan i = false).
      { apply not_true_is_false. intros Hn.
        assert (existsb Runtime.score_is_nan l' = true); [|congruence].
        apply existsb_exists. eauto. }
      unfold has_number, score_number.
      unfold Runtime.score_throws in Ht. unfold Runtime.score_is_nan in Hn.
      destruct (to_number (Runtime.relevance_score i)); [eauto|done..].
    + assert (Hall : ∀ x y, x ∈ js_sort Runtime.by_relevance l' →
                            y ∈ js_sort Runtime.by_relevance l' →
                            Runtime.by_relevance x y = true).
      { intros x y Hx Hy. rewrite js_sort_Permutation in Hx, Hy.
        unfold Runtime.all_tied in Htied.
        rewrite forallb_forall in Htied.
        apply list_elem_of_In, Htied in Hx. rewrite forallb_forall in Hx.
        apply list_elem_of_In, Hx in Hy. by apply andb_true_iff in Hy as [? _]. }
      revert Hall. generalize (js_sort Runtime.by_relevance l'). clear.
      intros s. induction s as [|x s IH]; intros Hall; [constructor|].
      constructor.
      * apply IH. intros ????. apply Hall; by right.
      * apply Forall_forall. intros y Hy. apply Hall; [by left|by right].
Qed.

Lemma sort_engine_defined (l : list Runtime.PostIdea) :
  Runtime.sort l = Runtime.EngineDefinedOrder →
  (2 ≤ length l)%nat ∧ ∃ i, i ∈ l ∧ Runtime.score_is_nan i = true.
Proof.
  destruct l as [|a [|b l]]; [done..|].
  unfold Runtime.sort. set (l' := a :: b :: l).
  destruct (existsb Runtime.score_throws l'); [done|].
  destruct (Runtime.consistent l') eqn:Hcons; [done|]. intros _.
  split; [simpl; lia|].
  unfold Runtime.consistent in Hcons.
  apply orb_false_iff in Hcons as [Hnan%negb_false_iff _].
  apply existsb_exists in Hnan as (i & Hi%list_elem_of_In & Hn). eauto.
Qed.

Lemma fallback_cases (trendsData : TrendData) :
  ∃ s1 s3,
    Runtime.getFallbackPostIdeas trendsData
    = alter (Runtime.with_trend_source s3) 2%nat
        (alter (Runtime.with_trend_source s1) 0%nat Runtime.fallbackIdeas)
    ∧ s1 ≠ [] ∧ s3 ≠ [].
Proof.
  unfold Runtime.getFallbackPostIdeas.
  destruct (news trendsData) as [|a ?], (coingecko trendsData) as [|c ?].
  - by exists (lit "General: Crypto market trends"),
              (lit "General: Crypto cycle analysis").
  - by eexists (lit "General: Crypto market trends"), _.
  - by eexists _, (lit "General: Crypto cycle analysis").
  - by eexists _, _.
Qed.

(** The two ways to a result: the fallback set, or the first eight of an
    arrangement of the ideas mapped from the elements of the array. *)
Lemma parse_ideas_cases (content : jstr) (trendsData : TrendData)
    (l : list Runtime.PostIdea) :
  may_return (Runtime.parsePostIdeasFromResponse content trendsData) l →
  l = Runtime.getFallbackPostIdeas trendsData
  ∨ ∃ elems mapped arranged,
      mapM id (imap Runtime.map_idea elems) = Some mapped
      ∧ arranged ≡ₚ mapped ∧ l = take 8 arranged.
Proof.
  unfold Runtime.parsePostIdeasFromResponse.
  destruct (match_bracketed content) as [m|]; [|by left].
  destruct (Json.parse m) as [[| | | | |elems|]|]; try by left.
  destruct (mapM id _) as [mapped|] eqn:Hm; [|by left].
  destruct (Runtime.sort mapped) as [sorted| |] eqn:Hs; [|by left|].
  - intros ->. right. apply sort_in_order in Hs as [Hp _]. eauto 10.
  - intros (arranged & Hp & ->). right. eauto 10.
Qed.

Lemma descending_of_by_relevance (l : list Runtime.PostIdea) :
  StronglySorted (λ a b, Runtime.by_relevance a b = true) l →
  Forall has_number l → StronglySorted descending l.
Proof.
  induction 1 as [|a l Hs IH Ha]; [constructor|].
  intros [[x Hx] Hl]%Forall_cons. constructor; [by apply IH|].
  rewrite Forall_forall in Ha, Hl. apply Forall_forall. intros b Hb.
  destruct (Hl b Hb) as [y Hy]. exists x, y. split; [done|]. split; [done|].
  rewrite <-(by_relevance_number a b x y) by done. by apply Ha.
Qed.

(** X8.  Every array the parser may return has at most eight ideas.  The
    array is in the order of the comparator (no idea stands before one
    with a higher score, and where all scores convert to numbers the
    array is in descending order of them) unless two or more ideas were
    mapped and the score of one of them converts to NaN: then the order
    is the engine's. *)
Theorem parsePostIdeas_sorted_bounded (content : jstr) (trendsData : TrendData)
    (l : list Runtime.PostIdea) :
  may_return (Runtime.parsePostIdeasFromResponse content trendsData) l →
  (length l ≤ 8)%nat
  ∧ (Runtime.parsePostIdeasFromResponse content trendsData = Runtime.Array l
     ∧ StronglySorted (λ a b, Runtime.by_relevance a b = true) l
     ∧ (Forall has_number l → StronglySorted descending l)
     ∨ ∃ mapped i,
         Runtime.parsePostIdeasFromResponse content trendsData
         = Runtime.EngineDefined mapped
         ∧ (2 ≤ length mapped)%nat
         ∧ i ∈ mapped ∧ Runtime.score_is_nan i = true).
Proof.
  intros Hret. split.
  { apply parse_ideas_cases in Hret as [->|(? & ? & ? & _ & _ & ->)].
    - destruct (fallback_cases trendsData) as (s1 & s3 & -> & _). simpl. lia.
    - rewrite length_take. lia. }
  assert (Hfb : StronglySorted (λ a b, Runtime.by_relevance a b = true)
                  (Runtime.getFallbackPostIdeas trendsData)).
  { destruct (fallback_cases trendsData) as (s1 & s3 & -> & _). simpl.
    repeat (constructor; [repeat constructor; by vm_compute|]). constructor. }
  revert Hret. unfold Runtime.parsePostIdeasFromResponse.
  destruct (match_bracketed content) as [m|];
    [|intros ->; left; eauto using descending_of_by_relevance].
  destruct (Json.parse m) as [[| | | | |elems|]|];
    try (intros ->; left; eauto using descending_of_by_relevance).
  destruct (mapM id _) as [mapped|] eqn:Hm;
    [|intros ->; left; eauto using descending_of_by_relevance].
  destruct (Runtime.sort mapped) as [sorted| |] eqn:Hs;
    [|intros ->; left; eauto using descending_of_by_relevance|].
  - intros ->. left. apply sort_in_order in Hs as [_ Hs].
    apply (StronglySorted_take _ 8) in Hs.
    eauto using descending_of_by_relevance.
  - intros _. right. apply sort_engine_defined in Hs as (Hlen & i & Hi & Hn).
    eauto 10.
Qed.

Lemma parsePostIdeas_sorted_bounded_witness :
  let content :=
    qlit "[{'concept':'A','relevance_score':'0.2'},{'concept':'B','relevance_score':0.9}]" in
  ∃ l,
    may_return (Runtime.parsePostIdeasFromResponse content emptyTrends) l
    ∧ (length l ≤ 8)%nat
    ∧ (Runtime.parsePostIdeasFromResponse content emptyTrends
       = Runtime.Array l
       ∧ StronglySorted (λ a b, Runtime.by_relevance a b = true) l
       ∧ (Forall has_number l → StronglySorted descending l)
       ∨ ∃ mapped i,
           Runtime.parsePostIdeasFromResponse content emptyTrends
           = Runtime.EngineDefined mapped
           ∧ (2 ≤ length mapped)%nat
           ∧ i ∈ mapped ∧ Runtime.score_is_nan i = true).
Proof.
  intros content.
  assert (Hret : ∃ l, Runtime.parsePostIdeasFromResponse content emptyTrends
                      = Runtime.Array l).
  { eexists. vm_compute. reflexivity. }
  destruct Hret as [l Hl]. exists l.
  assert (Hmay : may_return
            (Runtime.parsePostIdeasFromResponse content emptyTrends) l).
  { rewrite Hl. reflexivity. }
  split; [exact Hmay|].
  exact (parsePostIdeas_sorted_bounded content emptyTrends l Hmay).
Defined.

(** X9.  The identifiers of the ideas of an array the parser may return
    are pairwise distinct. *)
Theorem parsePostIdeas_distinct_ids (content : jstr) (trendsData : TrendData)
    (l : list Runtime.PostIdea) :
  may_return (Runtime.parsePostIdeasFromResponse content trendsData) l →
  NoDup (Runtime.idea_id <$> l).
Proof.
  intros [->|(elems & mapped & arranged & Hm & Hp & ->)]%parse_ideas_cases.
  - destruct (fallback_cases trendsData) as (s1 & s3 & -> & _). simpl.
    apply (bool_decide_unpack (NoDup _)). vm_compute. exact I.
  - rewrite fmap_take. eapply sublist_NoDup; [|apply sublist_take].
    rewrite Hp. apply NoDup_alt. intros j1 j2 x H1 H2.
    apply list_lookup_fmap_Some in H1 as (i1 & -> & H1).
    apply list_lookup_fmap_Some in H2 as (i2 & Heq & H2).
    destruct (mapped_ideas_lookup _ _ _ _ Hm H1) as (e1 & _ & Hi1).
    destruct (mapped_ideas_lookup _ _ _ _ Hm H2) as (e2 & _ & Hi2).
    apply map_idea_fields in Hi1 as (Hid1 & _), Hi2 as (Hid2 & _).
    rewrite Hid1, Hid2 in Heq. apply app_inv_head, of_nat_inj in Heq. lia.
Qed.

Lemma parsePostIdeas_distinct_ids_witness :
  let content :=
    qlit "[{'concept':'A','relevance_score':'high'},{'concept':'B','relevance_score':0.9},{'concept':'C','relevance_score':0.1}]" in
  ∃ mapped l,
    Runtime.parsePostIdeasFromResponse content emptyTrends
    = Runtime.EngineDefined mapped
    ∧ l = take 8 (reverse mapped)
    ∧ may_return (Runtime.parsePostIdeasFromResponse content emptyTrends) l
    ∧ NoDup (Runtime.idea_id <$> l).
Proof.
  intros content.
  assert (Hret : ∃ mapped,
            Runtime.parsePostIdeasFromResponse content emptyTrends
            = Runtime.EngineDefined mapped).
  { eexists. vm_compute. reflexivity. }
  destruct Hret as [mapped Hl]. exists mapped, (take 8 (reverse mapped)).
  assert (Hmay : may_return
            (Runtime.parsePostIdeasFromResponse content emptyTrends)
            (take 8 (reverse mapped))).
  { rewrite Hl. exists (reverse mapped). split; [apply reverse_Permutation|].
    reflexivity. }
  split; [exact Hl|]. split; [reflexivity|]. split; [exact Hmay|].
  exact (parsePostIdeas_distinct_ids content emptyTrends _ Hmay).
Defined.

(** X10.  In an array the parser may return every idea has a concept, a
    trend source and a relevance score that are truthy: none is missing,
    [null], [false], the empty string or zero.  The business benefit is
    truthy too in every idea mapped from the model's array; the ideas of
    the fallback set have none. *)
Theorem parsePostIdeas_no_blank_field (content : jstr) (trendsData : TrendData)
    (l : list Runtime.PostIdea) :
  may_return (Runtime.parsePostIdeasFromResponse content trendsData) l →
  Forall (λ i, truthy (Runtime.concept i) = true
               ∧ truthy (Runtime.trend_source i) = true
               ∧ truthy (Runtime.relevance_score i) = true) l
  ∧ (l = Runtime.getFallbackPostIdeas trendsData
     ∧ Forall (λ i, Runtime.business_benefit i = JUndefined) l
     ∨ Forall (λ i, truthy (Runtime.business_benefit i) = true) l).
Proof.
  intros [->|(elems & mapped & arranged & Hm & Hp & ->)]%parse_ideas_cases.
  - destruct (fallback_cases trendsData) as (s1 & s3 & -> & Hs1 & Hs3). simpl.
    assert (H1 : negb (bool_decide (s1 = [])) = true)
      by (by rewrite bool_decide_eq_false_2).
    assert (H3 : negb (bool_decide (s3 = [])) = true)
      by (by rewrite bool_decide_eq_false_2).
    split.
    + repeat (apply Forall_cons; split; [by repeat split|]).
      by apply Forall_nil.
    + left. split; [done|].
      repeat (apply Forall_cons; split; [reflexivity|]). by apply Forall_nil.
  - assert (Hall : Forall (λ i, truthy (Runtime.concept i) = true
                     ∧ truthy (Runtime.trend_source i) = true
                     ∧ truthy (Runtime.relevance_score i) = true
                     ∧ truthy (Runtime.business_benefit i) = true)
                     (take 8 arranged)).
    { apply Forall_take. rewrite Hp. apply Forall_lookup. intros j i Hj.
      destruct (mapped_ideas_lookup _ _ _ _ Hm Hj) as (e & _ & Hi).
      apply map_idea_fields in Hi as (_ & ? & ? & ? & ?). done. }
    split; [|right]; (eapply Forall_impl; [exact Hall|]);
      intros i (? & ? & ? & ?); done.
Qed.

Lemma parsePostIdeas_no_blank_field_witness :
  let content := lit "No trend found." in
  let l := Runtime.getFallbackPostIdeas emptyTrends in
  may_return (Runtime.parsePostIdeasFromResponse content emptyTrends) l
  ∧ Forall (λ i, truthy (Runtime.concept i) = true
                 ∧ truthy (Runtime.trend_source i) = true
                 ∧ truthy (Runtime.relevance_score i) = true) l
  ∧ (l = Runtime.getFallbackPostIdeas emptyTrends
     ∧ Forall (λ i, Runtime.business_benefit i = JUndefined) l
     ∨ Forall (λ i, truthy (Runtime.business_benefit i) = true) l).
Proof.
  intros content l.
  assert (Hmay : may_return
            (Runtime.parsePostIdeasFromResponse content emptyTrends) l).
  { vm_compute. reflexivity. }
  split; [exact Hmay|].
  exact (parsePostIdeas_no_blank_field content emptyTrends l Hmay).
Defined.

(** ** The content renderer: what the clean-up changes *)

Lemma length_strip_prefix (cleaned prefix : jstr) :
  (length (strip_prefix cleaned prefix) ≤ length cleaned)%nat.
Proof.
  unfold strip_prefix. destruct (Str.startsWith _ _); [|done].
  etrans; [apply length_trim|].
  unfold Str.substring_from. rewrite length_drop. lia.
Qed.

Lemma length_strip_prefixes (ps : list jstr) (cleaned : jstr) :
  (length (foldl strip_prefix cleaned ps) ≤ length cleaned)%nat.
Proof.
  revert cleaned. induction ps as [|p ps IH]; intros cleaned; simpl; [done|].
  etrans; [apply IH|apply length_strip_prefix].
Qed.

Lemma length_strip_quotes (cleaned : jstr) :
  (length (strip_quotes cleaned) ≤ length cleaned)%nat.
Proof.
  unfold strip_quotes. destruct (_ && _); [|done].
  unfold Str.substring. rewrite length_take, length_drop. lia.
Qed.

Lemma length_separate_hashtags (cleaned : jstr) :
  (length (separate_hashtags cleaned) ≤ length cleaned + 2)%nat.
Proof.
  unfold separate_hashtags. destruct (_ && _); [|lia].
  rewrite substring_0. unfold Str.substring_from.
  rewrite !length_app, length_drop.
  pose proof (length_trim (take (Z.to_nat (Str.indexOf cleaned (lit "#"))) cleaned))
    as Hlen.
  rewrite length_take in Hlen. change (length nl) with 1%nat. lia.
Qed.

(** X13.  The clean-up never makes a reply longer, except that for
    instagram it may insert the two line feeds that set the hashtags
    apart. *)
Theorem cleanup_never_lengthens (content platform : jstr) :
  (length (cleanupGeneratedContent content platform)
   ≤ length content
     + (if bool_decide (platform = lit "instagram") then 2 else 0))%nat.
Proof.
  unfold cleanupGeneratedContent.
  pose proof (length_strip_quotes
                (foldl strip_prefix (Str.trim content) prefixes)) as H1.
  pose proof (length_strip_prefixes prefixes (Str.trim content)) as H2.
  pose proof (length_trim content) as H3.
  revert H1.
  generalize (strip_quotes (foldl strip_prefix (Str.trim content) prefixes)).
  intros cleaned H1.
  destruct (bool_decide (platform = lit "twitter")
            && bool_decide (280 < length cleaned)%nat) eqn:Htw.
  - apply andb_true_iff in Htw as [_ Hlen%bool_decide_eq_true].
    pose proof (truncate_tweet_length cleaned). lia.
  - destruct (bool_decide (platform = lit "instagram")); [|lia].
    pose proof (length_separate_hashtags cleaned). lia.
Qed.

Lemma first_match_spec (needle s : jstr) (i : nat) :
  Str.first_match needle s = Some i →
  Str.startsWith (drop i s) needle = true.
Proof.
  revert i. induction s as [|c s IH]; intros i.
  - simpl. destruct (Str.startsWith [] needle) eqn:H; [|done].
    by intros [= <-].
  - change (Str.first_match needle (c :: s))
      with (if Str.startsWith (c :: s) needle then Some 0%nat
            else S <$> Str.first_match needle s).
    destruct (Str.startsWith (c :: s) needle) eqn:H.
    + by intros [= <-].
    + destruct (Str.first_match needle s) as [j|]; [|done].
      intros [= <-]. simpl. by apply IH.
Qed.

Lemma startsWith_split (s p : jstr) :
  Str.startsWith s p = true → s = p ++ drop (length p) s.
Proof.
  revert s. induction p as [|a p IH]; intros [|b s]; simpl; try done.
  intros [Hab H]%andb_true_iff. apply N.eqb_eq in Hab as ->.
  f_equal. by apply IH.
Qed.

Lemma includes_split (s needle : jstr) :
  Str.includes s needle = true → ∃ a b, s = a ++ needle ++ b.
Proof.
  unfold Str.includes. intros [i Hi]%bool_decide_eq_true.
  apply first_match_spec, startsWith_split in Hi.
  exists (take i s), (drop (length needle) (drop i s)).
  rewrite <-Hi. by rewrite take_drop.
Qed.

Lemma includes_char (c : jchar) (s : jstr) :
  c ∈ s → Str.includes s [c] = true.
Proof.
  intros (pre & rest & -> & Hc)%list_elem_of_split_l.
  unfold Str.includes. apply bool_decide_eq_true.
  rewrite first_match_char by done. eauto.
Qed.

(** X14.  After the clean-up for instagram, a text that holds a hashtag
    holds one that follows a blank line. *)
Theorem cleanup_instagram_separates_hashtags (content : jstr) :
  35%N ∈ cleanupGeneratedContent content (lit "instagram") →
  ∃ body tags,
    cleanupGeneratedContent content (lit "instagram")
    = body ++ nl ++ nl ++ lit "#" ++ tags.
Proof.
  unfold cleanupGeneratedContent.
  generalize (strip_quotes (foldl strip_prefix (Str.trim content) prefixes)).
  intros cleaned.
  rewrite (bool_decide_eq_false_2 (lit "instagram" = lit "twitter")) by done.
  rewrite andb_false_l.
  rewrite (bool_decide_eq_true_2 (lit "instagram" = lit "instagram")) by done.
  unfold separate_hashtags.
  destruct (Str.includes cleaned (nl ++ nl ++ lit "#")) eqn:Hsep.
  - intros _. simpl negb. rewrite andb_false_l.
    apply includes_split in Hsep as (a & b & ->).
    exists a, b. by rewrite <-!app_assoc.
  - simpl negb. rewrite andb_true_l.
    destruct (Str.includes cleaned (lit "#")) eqn:Hhash.
    + intros _. unfold Str.includes in Hhash.
      apply bool_decide_eq_true in Hhash as [i Hi].
      unfold Str.indexOf. rewrite Hi. simpl Str.index_result. rewrite Nat2Z.id.
      apply first_match_spec, startsWith_split in Hi.
      unfold Str.substring_from. rewrite Hi. eauto.
    + intros Hin. apply includes_char in Hin.
      change [35%N] with (lit "#") in Hin. congruence.
Qed.

Lemma cleanup_instagram_separates_hashtags_witness :
  ∃ body tags,
    cleanupGeneratedContent (lit "Caption: gm frens #btc #eth") (lit "instagram")
    = body ++ nl ++ nl ++ lit "#" ++ tags.
Proof.
  apply (cleanup_instagram_separates_hashtags
           (lit "Caption: gm frens #btc #eth")).
  apply (bool_decide_unpack _). vm_compute. exact I.
Defined.

(** ** The content renderer: the post log *)

Section renderer_log.
Context (env : Env) (businessData : BusinessData).

Lemma generateContentForPlatform_logs (i : PostIdea) (p : jstr) (w : World) :
  (∃ reply w',
     generateContentForPlatform env businessData i p w
       = (Returns (cleanupGeneratedContent reply p), w')
     ∧ logged_posts w' = logged_posts w ++ [cleanupGeneratedContent reply p]
     ∧ post_logs w' = post_logs w ++ [cleanupGeneratedContent reply p])
  ∨ (∃ e w',
       generateContentForPlatform env businessData i p w = (Throws e, w')
       ∧ logged_posts w' = logged_posts w
       ∧ post_logs w' = post_logs w).
Proof.
  unfold generateContentForPlatform. rewrite run_bind.
  unfold getRecentPostSnippets.
  set (w1 := advance env w).
  assert (Hw1 : logged_posts w1 = logged_posts w ∧ post_logs w1 = post_logs w)
    by done.
  destruct Hw1 as [<- <-]. clearbody w1.
  assert (Hrest : ∀ snippets,
    (∃ reply w',
       (makeRequest env (ContentPrompt businessData i p snippets) ≫= λ content,
          logPost env (businessName businessData) p
            (cleanupGeneratedContent content p);;
          mret (cleanupGeneratedContent content p)) w1
       = (Returns (cleanupGeneratedContent reply p), w')
       ∧ logged_posts w' = logged_posts w1 ++ [cleanupGeneratedContent reply p]
       ∧ post_logs w' = post_logs w1 ++ [cleanupGeneratedContent reply p])
    ∨ (∃ e w',
       (makeRequest env (ContentPrompt businessData i p snippets) ≫= λ content,
          logPost env (businessName businessData) p
            (cleanupGeneratedContent content p);;
          mret (cleanupGeneratedContent content p)) w1
       = (Throws e, w')
       ∧ logged_posts w' = logged_posts w1
       ∧ post_logs w' = post_logs w1)).
  { intros snippets. rewrite run_bind. unfold makeRequest, await.
    destruct (model_reply env (calls w1)) as [reply|e];
      [|right; by eexists _, _].
    rewrite run_bind. unfold logPost. rewrite run_bind. unfold fs_write.
    destruct (fs_error env (calls (advance env w1))) as [e|];
      [right; by eexists _, _|].
    destruct (fs_error env (calls (record_write _ (advance env (advance env w1)))))
      as [e|].
    - right. eexists _, _. split; [done|]. split; [|done].
      unfold logged_posts. simpl. rewrite omap_app. simpl. by rewrite app_nil_r.
    - left. eexists _, _. split; [done|]. split; [|done].
      unfold logged_posts. simpl. rewrite !omap_app. simpl.
      by rewrite app_nil_r. }
  destruct (fs_error env (calls w)); apply Hrest.
Qed.

Lemma render_pair_logs (i : PostIdea) (p : jstr)
    (acc : list GeneratedContent) (w : World) :
  p ∉ objectPrototypeNames →
  ∃ c w' logged,
    render_pair env businessData i p acc w = (Returns (acc ++ [c]), w')
    ∧ logged_posts w' = logged_posts w ++ logged
    ∧ post_logs w' = post_logs w ++ logged
    ∧ platform c = p
    ∧ (logged = [text c]
       ∨ logged = [] ∧ text c = getFallbackContent i p).
Proof.
  intros Hown.
  destruct (generateContentForPlatform_logs i p w)
    as [(reply & w' & H & Hl & Hp)|(e & w' & H & Hl & Hp)].
  - eexists _, w', _. split.
    + unfold render_pair, try_catch. rewrite run_bind, H. reflexivity.
    + repeat split; [done..|]. by left.
  - eexists _, w', []. split; [by eapply render_pair_catches|].
    rewrite !app_nil_r. repeat split; [done..|]. by right.
Qed.

Lemma log_agrees_nil (ideas : list PostIdea) (w : World) :
  log_agrees ideas w w [].
Proof. exists []. rewrite !app_nil_r. repeat split; constructor. Qed.

Lemma log_agrees_app (ideas : list PostIdea) (w w1 w2 : World)
    (cs1 cs2 : list GeneratedContent) :
  log_agrees ideas w w1 cs1 → log_agrees ideas w1 w2 cs2 →
  log_agrees ideas w w2 (cs1 ++ cs2).
Proof.
  intros (l1 & Ha1 & Hs1 & Hf1) (l2 & Ha2 & Hs2 & Hf2).
  exists (l1 ++ l2). repeat split.
  - by rewrite Ha2, Ha1, app_assoc.
  - rewrite fmap_app. by apply sublist_app.
  - apply Forall_app. split.
    + eapply Forall_impl; [exact Hf1|]. intros c [H|H]; [left|by right].
      apply elem_of_app. by left.
    + eapply Forall_impl; [exact Hf2|]. intros c [H|H]; [left|by right].
      apply elem_of_app. by right.
Qed.

Lemma inner_loop_logs (ideas : list PostIdea) (i : PostIdea)
    (platforms : list jstr) (acc : list GeneratedContent) (w : World) :
  i ∈ ideas →
  Forall (λ p, p ∉ objectPrototypeNames) platforms →
  ∃ cs w',
    for_of platforms (render_pair env businessData i) acc w
      = (Returns (acc ++ cs), w')
    ∧ log_agrees ideas w w' cs.
Proof.
  intros Hi Hall. revert acc w.
  induction Hall as [|p platforms Hown Hall IH]; intros acc w; simpl.
  { exists [], w. rewrite app_nil_r. split; [done|apply log_agrees_nil]. }
  destruct (render_pair_logs i p acc w Hown)
    as (c & w1 & lg & Hrun & Hl & Hp & Hplat & Hc).
  destruct (IH (acc ++ [c]) w1) as (cs & w' & Hrest & Hagree).
  exists (c :: cs), w'. split.
  - rewrite run_bind, Hrun, Hrest. by rewrite <-app_assoc.
  - apply (log_agrees_app ideas w w1 w' [c] cs); [|done].
    exists lg. repeat split; [done| |].
    + destruct Hc as [->|[-> _]]; [done|apply sublist_nil_l].
    + constructor; [|constructor].
      destruct Hc as [->|[_ Hfb]].
      * left. apply list_elem_of_singleton. done.
      * right. exists i. by rewrite Hplat.
Qed.

Lemma outer_loop_logs (ideas todo : list PostIdea) (platforms : list jstr)
    (acc : list GeneratedContent) (w : World) :
  Forall (λ p, p ∉ objectPrototypeNames) platforms →
  todo ⊆ ideas →
  ∃ cs w',
    for_of todo (λ i, for_of platforms (render_pair env businessData i)) acc w
      = (Returns (acc ++ cs), w')
    ∧ log_agrees ideas w w' cs.
Proof.
  intros Hall.
  revert acc w. induction todo as [|i todo IH]; intros acc w Hsub; simpl.
  { exists [], w. rewrite app_nil_r. split; [done|apply log_agrees_nil]. }
  destruct (inner_loop_logs ideas i platforms acc w)
    as (cs1 & w1 & Hrun & Hagree1); [apply Hsub; left|done|].
  destruct (IH (acc ++ cs1) w1) as (cs2 & w' & Hrest & Hagree2).
  { intros x Hx. apply Hsub. by right. }
  exists (cs1 ++ cs2), w'. split.
  - rewrite run_bind, Hrun, Hrest. by rewrite <-app_assoc.
  - by eapply log_agrees_app.
Qed.
End renderer_log.

(** X15.  For platforms that are not names inherited from
    [Object.prototype], [generatePlatformContent] returns, and its post log
    agrees with what it returns: the texts it wrote under [logs/post_logs]
    are texts of returned entries, in the same order, and a returned text
    that was not written there is the fallback text of one of the ideas.
    So a post that could not be logged is never returned: the fallback
    takes its place. *)
Theorem generatePlatformContent_log_agrees (env : Env)
    (businessData : BusinessData) (selectedIdeas : list PostIdea)
    (platforms : list jstr) (w : World) :
  Forall (λ p, p ∉ objectPrototypeNames) platforms →
  ∃ out w',
    generatePlatformContent env businessData selectedIdeas platforms w
      = (Returns out, w')
    ∧ log_agrees selectedIdeas w w' out.
Proof.
  intros Hall.
  destruct (outer_loop_logs env businessData selectedIdeas selectedIdeas
              platforms [] w) as (cs & w' & H & Hagree); [done..|].
  exists cs, w'. by split.
Qed.

Lemma generatePlatformContent_log_agrees_witness :
  let businessData := mergeBusinessData exampleConfig noOptions in
  let platforms := [lit "twitter"; lit "instagram"; lit "tiktok"] in
  Forall (λ p, p ∉ objectPrototypeNames) platforms
  ∧ ∃ out w',
      generatePlatformContent modelDown businessData [longIdea] platforms
        startOfRun = (Returns out, w')
      ∧ log_agrees [longIdea] startOfRun w' out.
Proof.
  intros businessData platforms.
  assert (Hall : Forall (λ p, p ∉ objectPrototypeNames) platforms).
  { apply (bool_decide_unpack (Forall _ platforms)). vm_compute. exact I. }
  split; [exact Hall|].
  exact (generatePlatformContent_log_agrees modelDown businessData [longIdea]
           platforms startOfRun Hall).
Defined.

(** ** The content renderer: the entry of each pair *)

Lemma generatePlatformContent_renders (env : Env) (businessData : BusinessData)
    (ideas : list PostIdea) (platforms : list jstr) (w : World) :
  Forall (λ p, p ∉ objectPrototypeNames) platforms →
  ∃ out w',
    generatePlatformContent env businessData ideas platforms w
    = (Returns out, w')
    ∧ renders env businessData (i ← ideas; (λ p, (i, p)) <$> platforms)
        (calls w) out (calls w').
Proof.
  intros Hown.
  destruct (outer_loop env businessData ideas platforms [] w Hown)
    as (cs & w' & H & Hr).
  exists cs, w'. by split.
Qed.



(** ** The current post and its image *)

(** The [try] block around the image, with its [catch]: it returns in all
    cases, with the path and after the calls that [imageStep] gives. *)
Lemma image_attempt (env : Env) (config : Config) (postText : jstr)
    (w : World) :
  ∃ w',
    try_catch
      (imagePrompt ← buildImagePrompt env postText;
       imageUrl ← callRunwareAPI env config imagePrompt;
       let ext := Str.toLowerCase (image_outputFormat config) in
       let imagePath := lit "current_post/image." ++ ext in
       downloadImage env imageUrl imagePath;;
       ret (Some imagePath))
      (λ err, ret None) w
    = (Returns (imageStep env config (calls w)).1, w')
    ∧ calls w' = (calls w + (imageStep env config (calls w)).2)%nat
    ∧ written w'
      = written w ++ match (imageStep env config (calls w)).1 with
                     | Some path => [WroteImage path]
                     | None => []
                     end.
Proof.
  unfold try_catch, buildImagePrompt, makeRequest, await, imageStep.
  rewrite !run_bind.
  destruct (model_reply env (calls w)) as [response|e].
  2:{ eexists. split; [reflexivity|]. simpl. rewrite app_nil_r. split; [lia|done]. }
  unfold mret, M_ret, ret at 1. rewrite run_bind. unfold callRunwareAPI.
  case_bool_decide as Hkey.
  { eexists. split; [reflexivity|]. simpl. rewrite app_nil_r. split; [lia|done]. }
  unfold await. change (calls (advance env w)) with (S (calls w)).
  destruct (runware_reply env (S (calls w))) as [imageUrl|e].
  2:{ eexists. split; [reflexivity|]. simpl. rewrite app_nil_r. split; [lia|done]. }
  rewrite run_bind. unfold downloadImage.
  change (calls (advance env (advance env w))) with (S (S (calls w))).
  destruct (download_error env (S (S (calls w)))) as [e|].
  { eexists. split; [reflexivity|]. simpl. rewrite app_nil_r. split; [lia|done]. }
  unfold fs_write.
  change (calls (advance env (advance env (advance env w))))
    with (S (S (S (calls w)))).
  destruct (fs_error env (S (S (S (calls w))))) as [e|].
  { eexists. split; [reflexivity|]. simpl. rewrite app_nil_r. split; [lia|done]. }
  eexists. split; [reflexivity|]. simpl. split; [lia|done].
Qed.

Lemma imageStep_path (env : Env) (config : Config) (n : nat) (path : jstr) :
  (imageStep env config n).1 = Some path →
  image_runwareApiKey config ≠ []
  ∧ path = lit "current_post/image."
           ++ Str.toLowerCase (image_outputFormat config)
  ∧ download_error env (S (S n)) = None
  ∧ fs_error env (S (S (S n))) = None.
Proof.
  unfold imageStep. destruct (model_reply env n); [|done].
  case_bool_decide; [done|]. destruct (runware_reply env (S n)); [|done].
  destruct (download_error env (S (S n))); [done|].
  destruct (fs_error env (S (S (S n)))); [done|].
  by intros [= <-].
Qed.

(** The whole of [saveCurrentPost], call by call. *)
Lemma saveCurrentPost_run (env : Env) (config : Config)
    (platform postText idea : jstr) (w : World) :
  let n := calls w in
  let step :=
    if image_enabled config
       && negb (Qle_bool (image_imageChance config) (random env (S n)))
    then imageStep env config (S (S n)) else (None, 0%nat) in
  let last := (S (S n) + step.2)%nat in
  match fs_error env n with
  | Some e =>
      saveCurrentPost env config platform postText idea w
      = (Throws e, advance env w)
  | None =>
      ∃ w2,
        calls w2 = last
        ∧ written w2
          = written w ++ [MadeDir (lit "current_post")]
              ++ match step.1 with
                 | Some path => [WroteImage path]
                 | None => []
                 end
        ∧ saveCurrentPost env config platform postText idea w
          = match fs_error env last with
            | Some e => (Throws e, advance env w2)
            | None =>
                let cp := {| cp_platform := platform; cp_text := postText;
                             cp_idea := idea; cp_timestamp := clock w2;
                             imagePath := step.1 |} in
                (Returns cp, record_write (WrotePostJson cp) (advance env w2))
            end
  end.
Proof.
  intros n step last.
  destruct (fs_error env n) as [e|] eqn:Hmk.
  { unfold saveCurrentPost. rewrite run_bind. unfold fs_write at 1.
    fold n. by rewrite Hmk. }
  unfold saveCurrentPost. setoid_rewrite run_bind.
  unfold fs_write at 1. fold n. rewrite Hmk.
  setoid_rewrite run_bind. unfold math_random at 1.
  change (calls (record_write (MadeDir (lit "current_post")) (advance env w)))
    with (S n).
  rewrite run_bind.
  set (w1 := advance env (record_write _ (advance env w))).
  assert (Hw1 : written w1 = written w ++ [MadeDir (lit "current_post")]
                ∧ calls w1 = S (S n)) by done.
  destruct Hw1 as [Hwr1 Hc1]. clearbody w1.
  assert (Hattempt : ∃ w2,
    (if image_enabled config
        && negb (Qle_bool (image_imageChance config) (random env (S n)))
     then
       try_catch
         (imagePrompt ← buildImagePrompt env postText;
          imageUrl ← callRunwareAPI env config imagePrompt;
          let ext := Str.toLowerCase (image_outputFormat config) in
          let imagePath := lit "current_post/image." ++ ext in
          downloadImage env imageUrl imagePath;;
          ret (Some imagePath))
         (λ err, ret None)
     else ret None) w1 = (Returns step.1, w2)
    ∧ calls w2 = last
    ∧ written w2
      = written w ++ [MadeDir (lit "current_post")]
          ++ match step.1 with
             | Some path => [WroteImage path]
             | None => []
             end).
  { unfold last, step.
    destruct (image_enabled config
              && negb (Qle_bool (image_imageChance config) (random env (S n)))).
    - destruct (image_attempt env config postText w1) as (w2 & Hrun & Hc & Hw).
      rewrite Hc1 in Hrun, Hc, Hw. exists w2. split; [exact Hrun|].
      split; [lia|]. by rewrite Hw, Hwr1, <-app_assoc.
    - exists w1. split; [done|]. split; [simpl; lia|].
      simpl. by rewrite Hwr1. }
  destruct Hattempt as (w2 & Hrun & Hc2 & Hwr2).
  exists w2. split; [done|]. split; [done|].
  cbv zeta in Hrun. cbv zeta. rewrite Hrun.
  rewrite run_bind. unfold date_now at 1. rewrite run_bind.
  unfold fs_write. rewrite Hc2.
  by destruct (fs_error env last).
Qed.

(** X16.  [saveCurrentPost] makes its [mkdir] (call [n]), rolls (call
    [n + 1]), takes the image step when images are switched on and the
    roll fell below the chance, and writes the post with its last call.
    It returns the post it was given, with the path the image step left,
    and the last thing it writes is that post.  It throws the error of
    its own [mkdir], or the error of the write of the post; a failure
    inside the image step (the model, the image endpoint, the download,
    the write of the image file) is never passed on: the step then leaves
    no path and the run goes on to the write of the post. *)
Theorem saveCurrentPost_outcome (env : Env) (config : Config)
    (platform postText idea : jstr) (w : World) :
  let n := calls w in
  let step :=
    if image_enabled config
       && negb (Qle_bool (image_imageChance config) (random env (S n)))
    then imageStep env config (S (S n)) else (None, 0%nat) in
  let last := (S (S n) + step.2)%nat in
  match saveCurrentPost env config platform postText idea w with
  | (Returns cp, w') =>
      fs_error env n = None ∧ fs_error env last = None
      ∧ cp_platform cp = platform ∧ cp_text cp = postText ∧ cp_idea cp = idea
      ∧ imagePath cp = step.1
      ∧ (∀ path, imagePath cp = Some path →
           image_enabled config = true
           ∧ Qle_bool (image_imageChance config) (random env (S n)) = false
           ∧ image_runwareApiKey config ≠ []
           ∧ download_error env (S (S (S (S n)))) = None
           ∧ fs_error env (S (S (S (S (S n))))) = None)
      ∧ written w'
        = written w ++ [MadeDir (lit "current_post")]
            ++ match imagePath cp with
               | Some path => [WroteImage path]
               | None => []
               end
            ++ [WrotePostJson cp]
      ∧ calls w' = S last
  | (Throws e, w') =>
      (fs_error env n = Some e ∧ calls w' = S n ∧ written w' = written w)
      ∨ (fs_error env n = None ∧ fs_error env last = Some e
         ∧ calls w' = S last
         ∧ written w'
           = written w ++ [MadeDir (lit "current_post")]
               ++ match step.1 with
                  | Some path => [WroteImage path]
                  | None => []
                  end)
  | (Untyped_run, _) => False
  end.
Proof.
  intros n step last.
  pose proof (saveCurrentPost_run env config platform postText idea w) as Hrun.
  cbv zeta in Hrun. fold n in Hrun. fold step in Hrun. fold last in Hrun.
  destruct (fs_error env n) as [e|] eqn:Hmk.
  { rewrite Hrun. left. by repeat split. }
  destruct Hrun as (w2 & Hc2 & Hwr2 & ->).
  destruct (fs_error env last) as [e|] eqn:Hlast.
  { right. split; [done|]. split; [done|].
    split; [simpl; by rewrite Hc2|done]. }
  simpl. split; [done|]. split; [done|]. do 4 (split; [done|]).
  split; [|split; [|by rewrite Hc2]].
  - intros path Hpath. unfold step in Hpath.
    destruct (image_enabled config
              && negb (Qle_bool (image_imageChance config) (random env (S n))))
      eqn:Hroll; [|done].
    apply andb_true_iff in Hroll as [Hen Hroll%negb_true_iff].
    apply imageStep_path in Hpath as (Hkey & _ & Hdl & Hfs). done.
  - by rewrite Hwr2, <-!app_assoc.
Qed.

(** ** The orchestrator: the keywords of a run *)

(** X17.  Without keywords on the command line and with a pool that is not
    blank, the keywords of the run are picked from the pool: as many as
    [keywordsPerRun] asks for, or the whole pool when it is smaller; each
    is an entry of the configuration and none is blank; no entry is picked
    twice unless the configuration lists it twice; the model is not asked
    and nothing is written.  The one assumption is that the shuffle
    rearranges the pool. *)
Theorem selectKeywords_pool_pick (env : Env) (config : Config)
    (options : Options) (businessData : BusinessData) (w : World) :
  opt_keywords options = None ∨ opt_keywords options = Some [] →
  keywordPool config ≠ [] →
  shuffle env (calls w) (keywordPool config) ≡ₚ keywordPool config →
  ∃ ks w',
    selectKeywords env config options businessData w = (Returns ks, w')
    ∧ length ks
      = Nat.min (output_keywordsPerRun config) (length (keywordPool config))
    ∧ ks ⊆ output_keywords config
    ∧ Forall (λ k, Str.trim k ≠ []) ks
    ∧ (NoDup (output_keywords config) → NoDup ks)
    ∧ calls w' = S (calls w)
    ∧ written w' = written w.
Proof.
  intros Hopt Hpool Hperm.
  assert (Hlen : (0 < length (keywordPool config))%nat).
  { destruct (keywordPool config); [done|simpl; lia]. }
  assert (Hrun : selectKeywords env config options businessData w
    = (Returns (take (Nat.min (output_keywordsPerRun config)
                        (length (keywordPool config)))
                  (shuffle env (calls w) (keywordPool config))),
       (log (KeywordsGenerated
               (take (Nat.min (output_keywordsPerRun config)
                        (length (keywordPool config)))
                  (shuffle env (calls w) (keywordPool config)))
               (PromptNote (lit "Pool pick from config")))
          (advance env w)).2)).
  { unfold selectKeywords. fold (keywordPool config).
    rewrite (bool_decide_eq_true_2 _ Hlen).
    by destruct Hopt as [->| ->]. }
  eexists _, _. split; [exact Hrun|].
  set (picked := shuffle env (calls w) (keywordPool config)) in *.
  assert (Hsub : take (Nat.min (output_keywordsPerRun config)
                         (length (keywordPool config))) picked
                 ⊆ keywordPool config).
  { intros k Hk. rewrite <-Hperm. by eapply subseteq_take. }
  repeat split.
  - rewrite length_take. apply Permutation_length in Hperm. lia.
  - intros k Hk. apply Hsub in Hk.
    unfold keywordPool in Hk. by apply list_elem_of_filter in Hk as [_ Hk].
  - apply Forall_forall. intros k Hk. apply Hsub in Hk.
    unfold keywordPool in Hk. by apply list_elem_of_filter in Hk as [Hk _].
  - intros Hnd. eapply sublist_NoDup; [|apply sublist_take].
    rewrite Hperm. by apply NoDup_filter.
Qed.

Lemma selectKeywords_pool_pick_witness :
  ∃ ks w',
    selectKeywords adaptersDown exampleConfig noOptions
      (mergeBusinessData exampleConfig noOptions) startOfRun
    = (Returns ks, w')
    ∧ length ks
      = Nat.min (output_keywordsPerRun exampleConfig)
          (length (keywordPool exampleConfig))
    ∧ ks ⊆ output_keywords exampleConfig
    ∧ Forall (λ k, Str.trim k ≠ []) ks
    ∧ (NoDup (output_keywords exampleConfig) → NoDup ks)
    ∧ calls w' = S (calls startOfRun)
    ∧ written w' = written startOfRun.
Proof.
  apply (selectKeywords_pool_pick adaptersDown exampleConfig noOptions
           (mergeBusinessData exampleConfig noOptions) startOfRun).
  - by left.
  - vm_compute. discriminate.
  - reflexivity.
Defined.

(** ** The orchestrator: the shape of a result *)

Lemma ensures_bind_post {A B} (m : M A) (k : A → M B) (Q : A → Prop)
    (P : B → Prop) :
  ensures m Q → (∀ a, Q a → ensures (k a) P) → ensures (m ≫= k) P.
Proof.
  intros Hm Hk w b w'. rewrite run_bind.
  destruct (m w) as [[a|e|] w1] eqn:Hmw; [|done..].
  apply Hk. by eapply Hm.
Qed.

(** *** Runs that stay within the typed records *)

Lemma typed_ret {A} (a : A) : typed (mret a : M A).
Proof. by intros w w'. Qed.

Lemma typed_bind {A B} (m : M A) (k : A → M B) :
  typed m → (∀ a, typed (k a)) → typed (m ≫= k).
Proof.
  intros Hm Hk w w'. rewrite run_bind.
  destruct (m w) as [[a|e|] w1] eqn:H; [apply Hk|done|by apply Hm in H].
Qed.

Lemma typed_bind_post {A B} (m : M A) (k : A → M B) (Q : A → Prop) :
  typed m → ensures m Q → (∀ a, Q a → typed (k a)) → typed (m ≫= k).
Proof.
  intros Hm HQ Hk w w'. rewrite run_bind.
  destruct (m w) as [[a|e|] w1] eqn:H; [|done|by apply Hm in H].
  apply Hk. by eapply HQ.
Qed.

Lemma typed_try_catch {A} (m : M A) (h : Error → M A) :
  typed m → (∀ e, typed (h e)) → typed (try_catch m h).
Proof.
  intros Hm Hh w w'. unfold try_catch.
  destruct (m w) as [[a|e|] w1] eqn:H; [done|apply Hh|by apply Hm in H].
Qed.

Lemma typed_log (d : LogData) : typed (log d).
Proof. by intros w w'. Qed.

Lemma typed_date_now : typed date_now.
Proof. by intros w w'. Qed.

Lemma typed_fs_write (env : Env) (ev : FileEvent) : typed (fs_write env ev).
Proof. intros w w'. unfold fs_write. by destruct (fs_error env (calls w)). Qed.

Lemma typed_makeRequest (env : Env) (prompt : Prompt) :
  typed (makeRequest env prompt).
Proof.
  intros w w'. unfold makeRequest, await.
  by destruct (model_reply env (calls w)).
Qed.

Lemma ensures_makeRequest (env : Env) (prompt : Prompt) :
  ensures (makeRequest env prompt)
    (λ content, ∃ n, model_reply env n = Fulfilled content).
Proof.
  intros w content w'. unfold makeRequest, await.
  destruct (model_reply env (calls w)) eqn:H; [|done].
  intros [= <- _]. eauto.
Qed.

Lemma typed_getRecentPostSnippets (env : Env) (limit : nat) :
  typed (getRecentPostSnippets env limit).
Proof.
  intros w w'. unfold getRecentPostSnippets.
  by destruct (fs_error env (calls w)).
Qed.

Lemma typed_saveToFile (env : Env) : typed (saveToFile env).
Proof.
  unfold saveToFile. apply typed_bind; [apply typed_fs_write|].
  intros _ w w'. apply typed_fs_write.
Qed.

Lemma typed_generateKeywords (env : Env) (input : BusinessData) :
  typed (generateKeywords env input true).
Proof.
  unfold generateKeywords. apply typed_bind; [apply typed_makeRequest|].
  intros content. apply typed_bind; [apply typed_log|].
  intros _. apply typed_ret.
Qed.

Lemma typed_selectKeywords (env : Env) (config : Config) (options : Options)
    (businessData : BusinessData) :
  typed (selectKeywords env config options businessData).
Proof.
  unfold selectKeywords.
  assert (Hrest : typed
    (let pool := filter (λ k, Str.trim k ≠ []) (output_keywords config) in
     if bool_decide (0 < length pool)%nat then
       let count := Nat.min (output_keywordsPerRun config) (length pool) in
       keywords ← ((λ w, (Returns (take count (shuffle env (calls w) pool)),
                          advance env w)) : M (list jstr));
       log (KeywordsGenerated keywords
              (PromptNote (lit "Pool pick from config")));;
       ret keywords
     else generateKeywords env businessData true)).
  { cbv zeta. case_bool_decide; [|apply typed_generateKeywords].
    apply typed_bind; [by intros w w'|]. intros keywords.
    apply typed_bind; [apply typed_log|]. intros _. apply typed_ret. }
  destruct (opt_keywords options) as [[|k ks]|]; [exact Hrest| |exact Hrest].
  apply typed_bind; [apply typed_log|]. intros _. apply typed_ret.
Qed.

Lemma ensures_selectKeywords (env : Env) (config : Config) (options : Options)
    (businessData : BusinessData) :
  ensures (selectKeywords env config options businessData)
    (selected_keywords env config options).
Proof.
  unfold selectKeywords, selected_keywords. fold (keywordPool config).
  assert (Hrest : ensures
    (if bool_decide (0 < length (keywordPool config))%nat then
       let count :=
         Nat.min (output_keywordsPerRun config) (length (keywordPool config)) in
       keywords ← ((λ w, (Returns (take count
                                     (shuffle env (calls w) (keywordPool config))),
                          advance env w)) : M (list jstr));
       log (KeywordsGenerated keywords
              (PromptNote (lit "Pool pick from config")));;
       ret keywords
     else generateKeywords env businessData true)
    (λ selected,
       if bool_decide (keywordPool config = []) then
         ∃ n reply, model_reply env n = Fulfilled reply
                    ∧ selected = parseKeywordsFromResponse reply
       else
         ∃ n, selected
              = take (Nat.min (output_keywordsPerRun config)
                        (length (keywordPool config)))
                  (shuffle env n (keywordPool config)))).
  { destruct (keywordPool config) as [|k0 pool] eqn:Hpool.
    - rewrite bool_decide_eq_false_2 by (simpl; lia).
      rewrite bool_decide_eq_true_2 by done.
      unfold generateKeywords.
      eapply ensures_bind_post; [apply ensures_makeRequest|].
      intros content [n Hn]. apply ensures_bind. intros _.
      apply ensures_ret. eauto.
    - rewrite bool_decide_eq_true_2 by (simpl; lia).
      rewrite bool_decide_eq_false_2 by done.
      intros w selected w'. cbv zeta. rewrite run_bind.
      intros [= <- _]. eauto. }
  destruct (opt_keywords options) as [[|k ks]|]; [exact Hrest| |exact Hrest].
  apply ensures_bind. intros _. by apply ensures_ret.
Qed.

Lemma typed_analyzeTrends (env : Env) (config : Config) (keywords : list jstr)
    (businessData : BusinessData) :
  typed (analyzeTrends env config keywords businessData true).
Proof. by intros w w'. Qed.

Lemma typed_generatePostIdeas (env : Env) (businessData : BusinessData)
    (trendsData : TrendData) (recentPosts : list jstr) :
  typed_replies env →
  typed (generatePostIdeas env businessData trendsData true recentPosts).
Proof.
  intros Hreplies. unfold generatePostIdeas.
  eapply typed_bind_post;
    [apply typed_makeRequest|apply ensures_makeRequest|].
  intros content [n Hn].
  destruct (parsePostIdeasFromResponse content trendsData) as [ideas|] eqn:Hp.
  - apply typed_bind; [apply typed_log|]. intros _. apply typed_ret.
  - by apply (Hreplies n content trendsData) in Hn.
Qed.

Lemma ensures_generatePostIdeas (env : Env) (businessData : BusinessData)
    (trendsData : TrendData) (recentPosts : list jstr) :
  ensures (generatePostIdeas env businessData trendsData true recentPosts)
    (λ ideas, ∃ n reply,
       model_reply env n = Fulfilled reply
       ∧ parsePostIdeasFromResponse reply trendsData = Ideas ideas).
Proof.
  unfold generatePostIdeas.
  eapply ensures_bind_post; [apply ensures_makeRequest|].
  intros content [n Hn].
  destruct (parsePostIdeasFromResponse content trendsData) as [ideas|] eqn:Hp.
  - apply ensures_bind. intros _. apply ensures_ret. eauto.
  - by intros w a w'.
Qed.

Lemma typed_saveCurrentPost (env : Env) (config : Config)
    (platform postText idea : jstr) :
  typed (saveCurrentPost env config platform postText idea).
Proof.
  intros w w' H.
  pose proof (saveCurrentPost_run env config platform postText idea w) as Hrun.
  cbv zeta in Hrun.
  destruct (fs_error env (calls w)); [by rewrite Hrun in H|].
  destruct Hrun as (w2 & _ & _ & Hrun). rewrite Hrun in H.
  by destruct (fs_error env _).
Qed.

Lemma saveCurrentPost_echo (env : Env) (config : Config)
    (platform postText idea : jstr) :
  ensures (saveCurrentPost env config platform postText idea)
    (λ cp, cp_platform cp = platform ∧ cp_text cp = postText
           ∧ cp_idea cp = idea).
Proof.
  unfold saveCurrentPost. repeat (apply ensures_bind; intros ?).
  by apply ensures_ret.
Qed.

Lemma find_first {A} (f : A → bool) (l : list A) (x : A) :
  List.find f l = Some x →
  ∃ pre post, l = pre ++ x :: post ∧ f x = true
              ∧ Forall (λ y, f y = false) pre.
Proof.
  induction l as [|a l IH]; [done|]. simpl.
  destruct (f a) eqn:Ha.
  - intros [= <-]. exists [], l. by repeat split.
  - intros (pre & post & -> & Hx & Hpre)%IH.
    exists (a :: pre), post. repeat split; [done|]. by constructor.
Qed.

(** The entry [persistCurrentPost] saves: the first twitter entry, or the
    first entry when there is none for twitter. *)
Lemma persistCurrentPost_choice (env : Env) (config : Config)
    (content : list GeneratedContent) :
  ensures (persistCurrentPost env config content)
    (λ saved,
       match content with
       | [] => saved = None
       | _ :: _ =>
           ∃ cp c, saved = Some cp
                   ∧ preferred_entry content c
                   ∧ cp_platform cp = platform c
                   ∧ cp_text cp = text c
                   ∧ cp_idea cp = idea c
       end).
Proof.
  unfold persistCurrentPost. destruct content as [|first rest].
  { by apply ensures_ret. }
  set (content := first :: rest).
  eapply ensures_bind_post; [apply saveCurrentPost_echo|].
  intros cp (Hp & Ht & Hi). apply ensures_bind. intros _.
  apply ensures_ret.
  destruct (List.find (λ c, bool_decide (platform c = lit "twitter")) content)
    as [c|] eqn:Hfind; simpl in Hp, Ht, Hi.
  - apply find_first in Hfind
      as (pre & post & Hsplit & Htw%bool_decide_eq_true & Hpre).
    exists cp, c. repeat split; [|done..]. left.
    exists pre, post. repeat split; [done..|].
    eapply Forall_impl; [exact Hpre|].
    intros c' Hc'. by apply bool_decide_eq_false in Hc'.
  - exists cp, first. repeat split; [|done..]. right. split; [|done].
    apply Forall_forall. intros c' Hin%list_elem_of_In.
    apply (find_none _ _ Hfind) in Hin. by apply bool_decide_eq_false in Hin.
Qed.

Lemma typed_persistCurrentPost (env : Env) (config : Config)
    (content : list GeneratedContent) :
  typed (persistCurrentPost env config content).
Proof.
  unfold persistCurrentPost. destruct content as [|first rest].
  { apply typed_ret. }
  apply typed_bind; [apply typed_saveCurrentPost|]. intros cp.
  apply typed_bind; [apply typed_log|]. intros _. apply typed_ret.
Qed.

Section steps.
Context (env : Env) (config : Config) (options : Options).
Context (Hown : Forall (λ p, p ∉ objectPrototypeNames)
                  (default (output_platforms config) (opt_platforms options))).

Lemma typed_pipelineSteps (startTime : Z) :
  typed_replies env →
  typed (pipelineSteps env config options (mergeBusinessData config options)
           (default (output_platforms config) (opt_platforms options))
           (configuredSources config)
           (businessOf (mergeBusinessData config options)) startTime).
Proof using Hown.
  intros Hreplies. unfold pipelineSteps.
  apply typed_bind; [apply typed_selectKeywords|]. intros keywords.
  apply typed_bind; [apply typed_analyzeTrends|]. intros trendsData.
  apply typed_bind; [by intros w w'|]. intros _.
  apply typed_bind; [apply typed_getRecentPostSnippets|]. intros recentPosts.
  apply typed_bind; [by apply typed_generatePostIdeas|]. intros postIdeas.
  apply typed_bind.
  { destruct (skipContent options); [apply typed_ret|].
    intros w w' H.
    destruct (generatePlatformContent_renders env
                (mergeBusinessData config options)
                (take (output_maxContentPerIdea config) postIdeas)
                (default (output_platforms config) (opt_platforms options))
                w Hown) as (out & w1 & Hrun & _).
    by rewrite Hrun in H. }
  intros content.
  apply typed_bind; [apply typed_persistCurrentPost|]. intros currentPost.
  apply typed_bind; [apply typed_date_now|]. intros now.
  apply typed_bind; [apply typed_log|]. intros _.
  apply typed_bind.
  { destruct (output_logToFile config);
      [apply typed_saveToFile|apply typed_ret]. }
  intros _. apply typed_bind; [apply typed_date_now|]. intros now'.
  apply typed_ret.
Qed.

Lemma pipelineSteps_shape (startTime : Z) :
  ensures (pipelineSteps env config options
             (mergeBusinessData config options)
             (default (output_platforms config) (opt_platforms options))
             (configuredSources config)
             (businessOf (mergeBusinessData config options)) startTime)
    (success_result env config options).
Proof using Hown.
  unfold pipelineSteps.
  eapply ensures_bind_post; [apply ensures_selectKeywords|].
  intros selected Hselected.
  apply ensures_bind. intros trendsData.
  apply ensures_bind. intros _.
  apply ensures_bind. intros recentPosts.
  eapply ensures_bind_post; [apply ensures_generatePostIdeas|].
  intros ideas Hideas.
  eapply (ensures_bind_post _ _
    (λ out, if skipContent options then out = []
            else ∃ n n',
                   renders env (mergeBusinessData config options)
                     (i ← take (output_maxContentPerIdea config) ideas;
                      (λ p, (i, p))
                        <$> default (output_platforms config)
                              (opt_platforms options)) n out n')).
  { destruct (skipContent options); [by apply ensures_ret|].
    intros w out w' Hrun.
    destruct (generatePlatformContent_renders env
                (mergeBusinessData config options)
                (take (output_maxContentPerIdea config) ideas)
                (default (output_platforms config) (opt_platforms options))
                w Hown) as (out' & w1 & Hrun' & Hr).
    rewrite Hrun' in Hrun. injection Hrun as <- <-. eauto. }
  intros out Hout.
  eapply ensures_bind_post; [apply persistCurrentPost_choice|].
  intros saved Hsaved.
  repeat (apply ensures_bind; intros ?).
  apply ensures_ret. exists selected, ideas. simpl.
  repeat split; try done.
  unfold keywordsAfterAdapters.
  destruct (sortsKeywords config); [apply js_sort_length|done].
Qed.

(** Once the two calls that reset [current_post] have succeeded, a run
    returns: the result of the [try] block, or the error result built
    from what the block threw. *)
Lemma runPipeline_returns (w : World) :
  typed_replies env →
  fs_error env (calls w) = None →
  fs_error env (S (calls w)) = None →
  ∃ r w',
    runPipeline env config options w = (Returns r, w')
    ∧ (success_result env config options r
       ∨ ∃ w1 w2 e,
           calls w1 = S (S (calls w))
           ∧ pipelineSteps env config options
               (mergeBusinessData config options)
               (default (output_platforms config) (opt_platforms options))
               (configuredSources config)
               (businessOf (mergeBusinessData config options))
               (clock w) w1 = (Throws e, w2)
           ∧ r = errorResult (businessOf (mergeBusinessData config options))
                   (configuredSources config) (clock w) (clock w2) e).
Proof using Hown.
  intros Hreplies Hrm Hmk.
  destruct (runPipeline_prelude env config options w Hrm Hmk)
    as (w1 & Hw1 & ->).
  unfold try_catch.
  destruct (pipelineSteps env config options
              (mergeBusinessData config options)
              (default (output_platforms config) (opt_platforms options))
              (configuredSources config)
              (businessOf (mergeBusinessData config options))
              (clock w) w1) as [[r|e|] w2] eqn:Hsteps.
  - exists r, w2. split; [done|]. left.
    by apply pipelineSteps_shape in Hsteps.
  - destruct (pipelineFailure_returns
                (businessOf (mergeBusinessData config options))
                (configuredSources config) (clock w) e w2) as (w' & -> & _).
    eexists _, _. split; [done|]. right. eauto 10.
  - by apply typed_pipelineSteps in Hsteps.
Qed.

End steps.

(** X18.  When the replies of the model stay within the declared types
    and no platform is a name inherited from [Object.prototype], a run
    whose two calls that reset [current_post] have succeeded does not
    reject: it returns.  Whatever a step inside the [try] block throws is
    caught: the run returns a successful result, or the error result
    built from the error that the block threw, at the time it was
    thrown. *)
Lemma runPipeline_catches (env : Env) (config : Config) (options : Options)
    (w : World) :
  typed_replies env →
  Forall (λ p, p ∉ objectPrototypeNames)
    (default (output_platforms config) (opt_platforms options)) →
  fs_error env (calls w) = None →
  fs_error env (S (calls w)) = None →
  ∃ r w',
    runPipeline env config options w = (Returns r, w')
    ∧ (status r = StatusSuccess ∧ error r = None
       ∨ ∃ w1 w2 e,
           calls w1 = S (S (calls w))
           ∧ pipelineSteps env config options
               (mergeBusinessData config options)
               (default (output_platforms config) (opt_platforms options))
               (configuredSources config)
               (businessOf (mergeBusinessData config options))
               (clock w) w1 = (Throws e, w2)
           ∧ r = errorResult (businessOf (mergeBusinessData config options))
                   (configuredSources config) (clock w) (clock w2) e).
Proof.
  intros Hreplies Hown Hrm Hmk.
  destruct (runPipeline_returns env config options Hown w Hreplies Hrm Hmk)
    as (r & w' & Hrun & [Hok|Herr]).
  - exists r, w'. split; [done|]. left.
    destruct Hok as (selected & ideas & Hs & He & _). done.
  - exists r, w'. split; [done|]. by right.
Qed.


(** X20.  Under the same conditions a run returns a result whose exit code
    is 3, the code for "all data sources failed", only when the
    configuration switches all five sources off, and then whenever the
    run succeeds with a keyword: no failure of an adapter leads to it or
    away from it. *)
Theorem runPipeline_exit_code (env : Env) (config : Config)
    (options : Options) (w : World) :
  typed_replies env →
  Forall (λ p, p ∉ objectPrototypeNames)
    (default (output_platforms config) (opt_platforms options)) →
  fs_error env (calls w) = None →
  fs_error env (S (calls w)) = None →
  ∃ r w',
    runPipeline env config options w = (Returns r, w')
    ∧ (exitCode r = 3 ↔
         status r = StatusSuccess
         ∧ keywords r ≠ []
         ∧ sources_googleTrends config = false
         ∧ sources_xcom config = false
         ∧ sources_coingecko config = false
         ∧ sources_reddit_enabled config = false
         ∧ sources_news_enabled config = false).
Proof.
  intros Hreplies Hown Hrm Hmk.
  destruct (runPipeline_returns env config options Hown w Hreplies Hrm Hmk)
    as (r & w' & Hrun & Hr).
  exists r, w'. split; [done|].
  assert (Hsources : sourcesUsed (meta r) = configuredSources config).
  { by eapply (runPipeline_sourcesUsed env config options). }
  assert (Hoff : length (configuredSources config) = 0%nat ↔
            sources_googleTrends config = false
            ∧ sources_xcom config = false
            ∧ sources_coingecko config = false
            ∧ sources_reddit_enabled config = false
            ∧ sources_news_enabled config = false).
  { unfold configuredSources.
    destruct (sources_googleTrends config), (sources_xcom config),
      (sources_coingecko config), (sources_reddit_enabled config),
      (sources_news_enabled config); simpl; split; try done;
      intros (? & ? & ? & ? & ?); done. }
  unfold exitCode. rewrite Hsources.
  destruct (status r).
  - destruct (keywords r) as [|k ks] eqn:Hk.
    + rewrite andb_comm. simpl. split; [done|]. by intros (_ & ? & _).
    + rewrite (bool_decide_eq_true_2 (0 < length (k :: ks))%nat)
        by (simpl; lia).
      rewrite andb_true_r. case_bool_decide as Hlen.
      * split; [|done]. intros _. split; [done|]. split; [done|].
        by apply Hoff.
      * split; [done|]. intros (_ & _ & H). by apply Hoff in H.
  - split; [done|]. by intros [? _].
Qed.

(** ** The autocomplete adapter *)

Section google_adapter.
Import GoogleTrendsService.
Context (getKeywordSuggestions : nat → jstr → jstr → list jstr).

Lemma set_add_NoDup (suggestions : list jstr) (x : jstr) :
  NoDup suggestions → NoDup (set_add suggestions x).
Proof.
  intros Hnd. unfold set_add. destruct (decide (x ∈ suggestions)); [done|].
  apply NoDup_app. repeat split; [done| |apply NoDup_singleton].
  intros y Hy ->%list_elem_of_singleton. done.
Qed.

Lemma set_add_elem_of (suggestions : list jstr) (x y : jstr) :
  y ∈ set_add suggestions x ↔ y ∈ suggestions ∨ y = x.
Proof.
  unfold set_add. destruct (decide (x ∈ suggestions)) as [Hx|Hx].
  - split; [by left|]. by intros [H| ->].
  - rewrite elem_of_app, list_elem_of_singleton. done.
Qed.

Lemma add_all_NoDup (new suggestions : list jstr) :
  NoDup suggestions → NoDup (foldl set_add suggestions new).
Proof.
  revert suggestions. induction new as [|x new IH]; intros s Hnd; [done|].
  simpl. by apply IH, set_add_NoDup.
Qed.

Lemma add_all_elem_of (new suggestions : list jstr) (y : jstr) :
  y ∈ foldl set_add suggestions new ↔ y ∈ suggestions ∨ y ∈ new.
Proof.
  revert suggestions. induction new as [|x new IH]; intros s; simpl.
  - split; [by left|]. intros [H|H]; [done|]. by apply elem_of_nil in H.
  - rewrite IH, set_add_elem_of, elem_of_cons. tauto.
Qed.

Lemma collect_NoDup (n : nat) (keywords : list jstr) (location : jstr)
    (suggestions : list jstr) :
  NoDup suggestions →
  NoDup (collect getKeywordSuggestions n keywords location suggestions).
Proof.
  revert n suggestions.
  induction keywords as [|k keywords IH]; intros n s Hnd; [done|].
  simpl. by apply IH, add_all_NoDup.
Qed.

Lemma collect_elem_of (n : nat) (keywords : list jstr) (location : jstr)
    (suggestions : list jstr) (y : jstr) :
  y ∈ collect getKeywordSuggestions n keywords location suggestions
  ↔ y ∈ suggestions
    ∨ ∃ j keyword, keywords !! j = Some keyword
                   ∧ y ∈ getKeywordSuggestions (n + j)%nat keyword location.
Proof.
  revert n suggestions.
  induction keywords as [|k keywords IH]; intros n s; simpl.
  - split; [by left|]. by intros [H|(j & kw & H & _)].
  - rewrite IH, add_all_elem_of. split.
    + intros [[H|H]|(j & kw & Hj & H)].
      * by left.
      * right. exists 0%nat, k. by rewrite Nat.add_0_r.
      * right. exists (S j), kw.
        by replace (n + S j)%nat with (S n + j)%nat by lia.
    + intros [H|(j & kw & Hj & H)]; [by left; left|].
      destruct j as [|j]; simpl in Hj.
      * injection Hj as <-. rewrite Nat.add_0_r in H. by left; right.
      * right. exists j, kw.
        by replace (S n + j)%nat with (n + S j)%nat by lia.
Qed.

(** X21.  A call of the adapter that finds no live entry in the cache asks
    for the suggestions of each keyword, in sorted order.  What it returns
    has no duplicates and at most 30 entries, each a suggestion of one of
    the keywords; when fewer than 30 come back, every suggestion of every
    keyword is among them.  The answer is stored for two hours under the
    key of the sorted keywords and the location, and the caller's array is
    left sorted. *)
Theorem google_fresh_answer (now stored_at : Z) (keywords : list jstr)
    (location : jstr) (cache : Cache) :
  (CacheManager.get None now (cacheKey (js_sort Str.leb keywords) location)
     cache).1 = None →
  let a := getAutocompleteSuggestions getKeywordSuggestions now stored_at
             keywords location cache in
  NoDup (answer a)
  ∧ (length (answer a) ≤ 30)%nat
  ∧ (∀ x, x ∈ answer a →
       ∃ j keyword,
         js_sort Str.leb keywords !! j = Some keyword
         ∧ x ∈ getKeywordSuggestions j keyword location)
  ∧ ((length (answer a) < 30)%nat →
       ∀ j keyword x,
         js_sort Str.leb keywords !! j = Some keyword →
         x ∈ getKeywordSuggestions j keyword location → x ∈ answer a)
  ∧ cache_after a !! cacheKey (js_sort Str.leb keywords) location
    = Some {| CacheManager.data := Some (answer a);
              CacheManager.expires := stored_at + 2 * 60 * 60 * 1000 |}
  ∧ keywords_after a ≡ₚ keywords
  ∧ StronglySorted (λ k1 k2, Str.leb k1 k2 = true) (keywords_after a).
Proof.
  intros Hmiss. unfold getAutocompleteSuggestions.
  destruct (CacheManager.get None now
              (cacheKey (js_sort Str.leb keywords) location) cache)
    as [[cached|] cache'] eqn:Hget; [done|]. simpl.
  set (all := collect getKeywordSuggestions 0 (js_sort Str.leb keywords)
                location []).
  assert (Hnd : NoDup all) by apply collect_NoDup, NoDup_nil_2.
  assert (Hin : ∀ y, y ∈ all ↔
    ∃ j keyword, js_sort Str.leb keywords !! j = Some keyword
                 ∧ y ∈ getKeywordSuggestions j keyword location).
  { intros y. unfold all. rewrite collect_elem_of. split.
    - intros [H|H]; [by apply elem_of_nil in H|done].
    - by right. }
  repeat split.
  - eapply sublist_NoDup; [exact Hnd|apply sublist_take].
  - rewrite length_take. lia.
  - intros x Hx. apply Hin. by eapply subseteq_take.
  - intros Hlen j keyword x Hj Hx.
    rewrite take_ge; [apply Hin; eauto|].
    rewrite length_take in Hlen. lia.
  - unfold CacheManager.set. by rewrite lookup_insert_eq.
  - apply js_sort_Permutation.
  - apply js_sort_sorted; [apply leb_total|apply leb_trans].
Qed.

(** X22.  Once a call has stored its answer, every call within the next
    two hours for the same location and the same keywords, given in any
    order, returns that answer: it asks for no suggestions, whatever they
    would be by then, and leaves the cache as it is. *)
Theorem google_cache_hit
    (later : nat → jstr → jstr → list jstr)
    (now stored_at now2 stored_at2 : Z) (keywords keywords2 : list jstr)
    (location : jstr) (cache : Cache) :
  (CacheManager.get None now (cacheKey (js_sort Str.leb keywords) location)
     cache).1 = None →
  keywords2 ≡ₚ keywords →
  now2 < stored_at + 2 * 60 * 60 * 1000 →
  let a := getAutocompleteSuggestions getKeywordSuggestions now stored_at
             keywords location cache in
  let a2 := getAutocompleteSuggestions later now2 stored_at2 keywords2
              location (cache_after a) in
  answer a2 = answer a
  ∧ cache_after a2 = cache_after a
  ∧ keywords_after a2 = keywords_after a.
Proof.
  intros Hmiss Hperm Hnow. simpl.
  unfold getAutocompleteSuggestions.
  rewrite !(sorted_keys_Permutation keywords2 keywords Hperm).
  destruct (CacheManager.get None now
              (cacheKey (js_sort Str.leb keywords) location) cache)
    as [[cached|] cache'] eqn:Hget; [done|]. simpl.
  set (key := cacheKey (js_sort Str.leb keywords) location).
  set (result := take 30 (collect getKeywordSuggestions 0
                            (js_sort Str.leb keywords) location [])).
  assert (Hhit :
    CacheManager.get None now2 key
      (CacheManager.set stored_at key (Some result) (2 * 60 * 60) cache')
    = (Some result,
       CacheManager.set stored_at key (Some result) (2 * 60 * 60) cache')).
  { apply (get_live None _ _
             {| CacheManager.data := Some result;
                CacheManager.expires := stored_at + 2 * 60 * 60 * 1000 |}).
    - unfold CacheManager.set. apply lookup_insert_eq.
    - simpl. lia. }
  by rewrite Hhit.
Qed.
End google_adapter.

Lemma google_fresh_answer_witness :
  let fetch : nat → jstr → jstr → list jstr :=
    λ _ keyword _, [keyword ++ lit " news"; lit "crypto"] in
  let a := GoogleTrendsService.getAutocompleteSuggestions fetch
             1700000000000 1700000000300 [lit "btc"; lit "ai"] (lit "Global")
             ∅ in
  NoDup (GoogleTrendsService.answer a)
  ∧ (length (GoogleTrendsService.answer a) ≤ 30)%nat
  ∧ (∀ x, x ∈ GoogleTrendsService.answer a →
       ∃ j keyword,
         js_sort Str.leb [lit "btc"; lit "ai"] !! j = Some keyword
         ∧ x ∈ fetch j keyword (lit "Global"))
  ∧ ((length (GoogleTrendsService.answer a) < 30)%nat →
       ∀ j keyword x,
         js_sort Str.leb [lit "btc"; lit "ai"] !! j = Some keyword →
         x ∈ fetch j keyword (lit "Global") →
         x ∈ GoogleTrendsService.answer a)
  ∧ GoogleTrendsService.cache_after a
      !! GoogleTrendsService.cacheKey (js_sort Str.leb [lit "btc"; lit "ai"])
           (lit "Global")
    = Some {| CacheManager.data := Some (GoogleTrendsService.answer a);
              CacheManager.expires := 1700000000300 + 2 * 60 * 60 * 1000 |}
  ∧ GoogleTrendsService.keywords_after a ≡ₚ [lit "btc"; lit "ai"]
  ∧ StronglySorted (λ k1 k2, Str.leb k1 k2 = true)
      (GoogleTrendsService.keywords_after a).
Proof.
  intros fetch.
  apply (google_fresh_answer fetch 1700000000000 1700000000300
           [lit "btc"; lit "ai"] (lit "Global") ∅).
  reflexivity.
Defined.

Lemma google_cache_hit_witness :
  let fetch : nat → jstr → jstr → list jstr :=
    λ _ keyword _, [keyword ++ lit " news"; lit "crypto"] in
  let later : nat → jstr → jstr → list jstr := λ _ _ _, [] in
  let a := GoogleTrendsService.getAutocompleteSuggestions fetch
             1700000000000 1700000000300 [lit "btc"; lit "ai"] (lit "Global")
             ∅ in
  let a2 := GoogleTrendsService.getAutocompleteSuggestions later
              1700003600000 1700003600300 [lit "ai"; lit "btc"] (lit "Global")
              (GoogleTrendsService.cache_after a) in
  GoogleTrendsService.answer a2 = GoogleTrendsService.answer a
  ∧ GoogleTrendsService.cache_after a2 = GoogleTrendsService.cache_after a
  ∧ GoogleTrendsService.keywords_after a2
    = GoogleTrendsService.keywords_after a.
Proof.
  intros fetch later.
  apply (google_cache_hit fetch later 1700000000000 1700000000300
           1700003600000 1700003600300 [lit "btc"; lit "ai"]
           [lit "ai"; lit "btc"] (lit "Global") ∅).
  - reflexivity.
  - apply Permutation_swap.
  - lia.
Defined.

(** ** Instances *)

Lemma truncate_tweet_word_boundary_witness :
  ∃ cut c,
    fallback_twitter (concept longIdea) !! cut = Some c
    ∧ Str.is_white c = true
    ∧ (truncate_tweet (fallback_twitter (concept longIdea))
       = Str.trim (take cut (fallback_twitter (concept longIdea)))
       ∨ truncate_tweet (fallback_twitter (concept longIdea))
         = Str.trim (take cut (fallback_twitter (concept longIdea)))
           ++ lit "...").
Proof.
  apply (truncate_tweet_word_boundary (fallback_twitter (concept longIdea)) 7).
  - lia.
  - reflexivity.
Defined.

(** The replies of [adaptersDown] hold no array: they are parsed to the
    fallback ideas, which are typed. *)
Lemma adaptersDown_typed : typed_replies adaptersDown.
Proof.
  intros n reply trendsData [= <-].
  assert (Hm : match_bracketed (lit "Nothing stands out right now.") = None)
    by (vm_compute; reflexivity).
  unfold parsePostIdeasFromResponse, Runtime.parsePostIdeasFromResponse.
  change (match_bracketed _) with
    (match_bracketed (lit "Nothing stands out right now.")).
  rewrite Hm.
  destruct (fallback_cases trendsData) as (s1 & s3 & -> & _). done.
Qed.

Lemma examplePlatforms_own :
  Forall (λ p, p ∉ objectPrototypeNames)
    (default (output_platforms exampleConfig) (opt_platforms noOptions)).
Proof.
  apply (bool_decide_unpack (Forall _ _)). vm_compute. exact I.
Qed.


Lemma runPipeline_catches_witness :
  ∃ r w',
    runPipeline adaptersDown exampleConfig noOptions startOfRun
    = (Returns r, w')
    ∧ (status r = StatusSuccess ∧ error r = None
       ∨ ∃ w1 w2 e,
           calls w1 = S (S (calls startOfRun))
           ∧ pipelineSteps adaptersDown exampleConfig noOptions
               (mergeBusinessData exampleConfig noOptions)
               (default (output_platforms exampleConfig)
                  (opt_platforms noOptions))
               (configuredSources exampleConfig)
               (businessOf (mergeBusinessData exampleConfig noOptions))
               (clock startOfRun) w1 = (Throws e, w2)
           ∧ r = errorResult
                   (businessOf (mergeBusinessData exampleConfig noOptions))
                   (configuredSources exampleConfig) (clock startOfRun)
                   (clock w2) e).
Proof.
  apply (runPipeline_catches adaptersDown exampleConfig noOptions startOfRun).
  - exact adaptersDown_typed.
  - exact examplePlatforms_own.
  - reflexivity.
  - reflexivity.
Defined.


Lemma runPipeline_exit_code_witness :
  ∃ r w',
    runPipeline adaptersDown exampleConfig noOptions startOfRun
    = (Returns r, w')
    ∧ (exitCode r = 3 ↔
         status r = StatusSuccess
         ∧ keywords r ≠ []
         ∧ sources_googleTrends exampleConfig = false
         ∧ sources_xcom exampleConfig = false
         ∧ sources_coingecko exampleConfig = false
         ∧ sources_reddit_enabled exampleConfig = false
         ∧ sources_news_enabled exampleConfig = false).
Proof.
  apply (runPipeline_exit_code adaptersDown exampleConfig noOptions
           startOfRun).
  - exact adaptersDown_typed.
  - exact examplePlatforms_own.
  - reflexivity.
  - reflexivity.
Defined.
